(** * ShortsCraft: media resolution and assembly pipeline

    A shallow embedding of the clip resolver, the content classifier, the
    merge endpoints ([src/services/videoService.ts], which holds the client
    helpers and two variants of the Express server) and of the scene
    orchestration of the React front end ([handleGenerate], [handleExport]).

    Conventions of the embedding:
    - a JavaScript [string | null] value is an [option string]; the empty
      string is a non-null but falsy value, as in the source;
    - an awaited call that can reject is a [Try]; a [try { } catch { }] block
      is a [match] on it;
    - what the outside world answers (network, scraped pages, the user) is a
      parameter of the function that asks for it;
    - calls whose order or number matters append to an explicit log. *)

From Stdlib Require Import List Bool Arith NArith ZArith Lia Ascii String.
Import ListNotations.
Open Scope string_scope.
Open Scope bool_scope.

(* ================================================================== *)
(** * JavaScript values and string primitives                          *)
(* ================================================================== *)

Module Js.

(** Outcome of an awaited call: a value, or a thrown exception
    (rejected promise). *)
Inductive Try (A : Type) : Type :=
| Ok (a : A)
| Throw.
Arguments Ok {A} a.
Arguments Throw {A}.

(** [if (s)] on a string: the empty string is falsy. *)
Definition truthy (s : string) : bool :=
  negb (String.eqb s "").

(** [if (v)] on a [string | null | undefined]. *)
Definition truthy_opt (v : option string) : bool :=
  match v with
  | Some s => truthy s
  | None => false
  end.

(** [s.startsWith(p)] *)
Definition startsWith (s p : string) : bool := String.prefix p s.

(** [s.includes(search)] *)
Fixpoint includes (s search : string) : bool :=
  if String.prefix search s then true
  else match s with
       | EmptyString => false
       | String _ rest => includes rest search
       end.

(** [s.endsWith(suffix)] *)
Definition endsWith (s suffix : string) : bool :=
  (String.length suffix <=? String.length s)%nat
  && String.eqb
       (String.substring (String.length s - String.length suffix)
                         (String.length suffix) s)
       suffix.

(** [c.toLowerCase()] on one code unit; only the ASCII letters are
    mapped, every other code unit is left as it is. *)
Definition lower_char (c : ascii) : ascii :=
  let n := nat_of_ascii c in
  if ((65 <=? n) && (n <=? 90))%nat then ascii_of_nat (n + 32) else c.

(** [s.toLowerCase()] *)
Fixpoint toLowerCase (s : string) : string :=
  match s with
  | EmptyString => EmptyString
  | String c rest => String (lower_char c) (toLowerCase rest)
  end.

(** [s.split(sep)] for a one-character separator; [''.split(' ')] is
    [['']]. *)
Fixpoint split (sep : ascii) (s : string) : list string :=
  match s with
  | EmptyString => [EmptyString]
  | String c rest =>
      if Ascii.eqb c sep then EmptyString :: split sep rest
      else match split sep rest with
           | h :: t => String c h :: t
           | [] => [String c EmptyString]
           end
  end.

(** [parts.join(sep)] *)
Definition join (sep : string) (parts : list string) : string :=
  String.concat sep parts.

(** [xs.slice(0, n)] *)
Definition slice_front {A} (n : nat) (xs : list A) : list A := firstn n xs.

(** [xs.slice(-n)] *)
Definition slice_back {A} (n : nat) (xs : list A) : list A :=
  skipn (List.length xs - n) xs.

(** [xs.find(pred)]: the first element satisfying [pred], [undefined]
    ([None]) when there is none. *)
Definition find {A} (pred : A -> bool) (xs : list A) : option A :=
  List.find pred xs.

(** [Math.random()] yields a double [k / 2^53] with [0 <= k < 2^53]; a
    draw is represented by its numerator, reduced into range. *)
Definition RANDOM_SCALE : N := 2 ^ 53.

Definition random_numerator (draw : N) : N := (draw mod RANDOM_SCALE)%N.

(** [Math.floor(Math.random() * n)].  For [n] a power of two the product
    is exact in double arithmetic; for the other lengths used by the
    adapters the value is only used as an in-range index. *)
Definition random_index (draw : N) (n : nat) : nat :=
  N.to_nat ((random_numerator draw * N.of_nat n) / RANDOM_SCALE)%N.

(** [xs[i]] for an index that may be out of range ([undefined]). *)
Definition at_index {A} (xs : list A) (i : nat) : option A := nth_error xs i.

End Js.
Import Js.

(* ================================================================== *)
(** * HTTP messages exchanged between the front end and the server     *)
(* ================================================================== *)

Module Http.

(** JSON bodies the server sends. *)
Inductive Body : Type :=
| BError (error : string)        (* { error } *)
| BUrl (url : string)            (* { url } *)
| BValid (valid : bool)          (* { valid } *)
| BEmpty.                        (* {}: a field set to [undefined] *)

Record Response : Type := mkResponse {
  status : nat;
  body : Body
}.

(** [res.json(b)] answers with status 200, [res.status(n).json(b)] with
    [n]. *)
Definition json (b : Body) : Response := mkResponse 200 b.
Definition status_json (n : nat) (b : Body) : Response := mkResponse n b.

(** [response.ok] *)
Definition ok (r : Response) : bool :=
  ((200 <=? status r) && (status r <=? 299))%nat.

(** [data.url] of the parsed body ([undefined] when the field is absent). *)
Definition data_url (r : Response) : option string :=
  match body r with
  | BUrl u => Some u
  | _ => None
  end.

(** [data.valid] of the parsed body; an absent field is falsy. *)
Definition data_valid (r : Response) : bool :=
  match body r with
  | BValid b => b
  | _ => false
  end.

End Http.

(* ================================================================== *)
(** * Content classifier: [GET /api/verify-video] and [verifyVideo]    *)
(* ================================================================== *)

Module Classifier.
Import Http.

(** What the remote host answers to the HEAD request. *)
Record HeadReply : Type := mkHead {
  head_status : nat;
  content_type : option string    (* response.headers['content-type'] *)
}.

(** [axios({ method: "head", url, timeout: 5000 })]: resolves for a 2xx
    status only; a network failure, a timeout, a malformed URL and any
    other status reject. *)
Definition axios_head (net : string -> Try HeadReply) (url : string)
  : Try HeadReply :=
  match net url with
  | Ok r =>
      if ((200 <=? head_status r) && (head_status r <? 300))%nat
      then Ok r else Throw
  | Throw => Throw
  end.

(** [response.headers['content-type'] || ''] *)
Definition contentType_of (r : HeadReply) : string :=
  match content_type r with
  | Some c => if truthy c then c else ""
  | None => ""
  end.

(** [contentType.includes('video') || url.includes('.mp4') ||
    url.includes('.webm')] *)
Definition isVideo (contentType url : string) : bool :=
  includes contentType "video" || includes url ".mp4"
  || includes url ".webm".

(** Handler of [GET /api/verify-video] (the same in both server
    variants). *)
Definition verify_video (net : string -> Try HeadReply) (url : string)
  : Response :=
  if negb (truthy url) then status_json 400 (BError "URL required")
  else
    match axios_head net url with
    | Ok response =>
        let contentType := contentType_of response in
        json (BValid (isVideo contentType url
                      && (head_status response =? 200)%nat))
    | Throw => json (BValid false)
    end.

(** [verifyVideo(url)] of the front end; [fetched] is the outcome of
    [fetch('/api/verify-video?url=...')] followed by [response.json()]. *)
Definition verifyVideo_of (fetched : Try Response) : bool :=
  match fetched with
  | Ok response => if negb (ok response) then false else data_valid response
  | Throw => false
  end.

(** The front end talking to the handler over a link that is up or
    down. *)
Definition verifyVideo (link_up : bool) (net : string -> Try HeadReply)
    (url : string) : bool :=
  verifyVideo_of (if link_up then Ok (verify_video net url) else Throw).

(** ** The classifier as the specification words it *)

(** The path of a URL: what precedes the query string and the
    fragment. *)
Fixpoint spec_url_path (url : string) : string :=
  match url with
  | EmptyString => EmptyString
  | String c rest =>
      if Ascii.eqb c "?"%char || Ascii.eqb c "#"%char then EmptyString
      else String c (spec_url_path rest)
  end.

(** "its path has a recognized video file extension" *)
Definition spec_has_video_extension (url : string) : bool :=
  endsWith (spec_url_path url) ".mp4" || endsWith (spec_url_path url) ".webm".

(** "valid iff the remote resource answers successfully AND either its
    declared media type indicates video OR its path has a recognized video
    file extension" *)
Definition spec_classify (net : string -> Try HeadReply) (url : string)
  : bool :=
  match net url with
  | Ok r =>
      (head_status r =? 200)%nat
      && (includes (contentType_of r) "video"
          || spec_has_video_extension url)
  | Throw => false
  end.

End Classifier.

(* ================================================================== *)
(** * Provider adapters of the first server variant                    *)
(* ================================================================== *)

Module Adapters.

(** The adapters in the order of the [sources] array. *)
Inductive Source : Type :=
| Pexels | Coverr | Videvo | Pixabay | Mixkit
| Vidsplay | MotionElements | SplitShire | Reddit.

Definition sources : list Source :=
  [Pexels; Coverr; Videvo; Pixabay; Mixkit;
   Vidsplay; MotionElements; SplitShire; Reddit].

(** What the scraped sites show.  The value returned by a
    [page.evaluate] (it runs inside the browser) is an observation; a
    navigation or evaluation that throws is a [Throw]. *)
Record Web : Type := mkWeb {
  (* [browser.newPage()] of the adapter's own page, outside its [try] *)
  opens : Source -> string -> bool;
  (* search page: [goto] then [evaluate], the extracted links or srcs *)
  listing : Source -> string -> Try (list string);
  (* [xs.sort(() => 0.5 - Math.random())] *)
  shuffle : Source -> list string -> list string;
  (* [browser.newPage()] for the detail page of a link *)
  detail_opens : string -> bool;
  (* detail page: [goto] then [evaluate], the [src] found or [null] *)
  detail_src : string -> Try (option string);
  (* Pexels: [goto], [waitForSelector] and [$$], the number of cards *)
  pexels_cards : string -> Try nat;
  (* Pexels: the (url, content-type) of the responses seen by the page *)
  pexels_responses : string -> list (string * string);
  (* the [Math.random()] drawn by the adapter for its final pick *)
  draw : Source -> string -> N
}.

(** Helper to check for watermarks in URL or content. *)
Definition forbidden : list string :=
  ["shutterstock"; "envato"; "adobe"; "istock"; "getty"; "pond5";
   "depositphotos"; "dreamstime"; "123rf"; "canva"].

Definition isWatermarked (url : string) : bool :=
  existsb (fun word => includes (toLowerCase url) word) forbidden.

(** [if (videoSrc && !isWatermarked(videoSrc)) return videoSrc;] *)
Definition accept (videoSrc : option string) : option string :=
  match videoSrc with
  | Some s => if truthy s && negb (isWatermarked s) then Some s else None
  | None => None
  end.

(** The [for (const link of randomLinks)] loop of an adapter that visits
    the links with its own page: a failing visit leaves the [try]. *)
Fixpoint follow_same_page (w : Web) (links : list string) : option string :=
  match links with
  | [] => None
  | link :: rest =>
      match detail_src w link with
      | Throw => None
      | Ok videoSrc =>
          match accept videoSrc with
          | Some s => Some s
          | None => follow_same_page w rest
          end
      end
  end.

(** The loop of an adapter that opens a detail page per link: a failing
    visit is caught inside the loop, a page that cannot be opened leaves
    the outer [try].  [skip_marked] is the [isWatermarked(videoPageUrl)]
    test of Pixabay. *)
Fixpoint follow_detail_pages (w : Web) (skip_marked : bool)
    (links : list string) : option string :=
  match links with
  | [] => None
  | link :: rest =>
      if skip_marked && isWatermarked link
      then follow_detail_pages w skip_marked rest
      else if negb (detail_opens w link) then None
      else match detail_src w link with
           | Throw => follow_detail_pages w skip_marked rest
           | Ok videoSrc =>
               match accept videoSrc with
               | Some s => Some s
               | None => follow_detail_pages w skip_marked rest
               end
           end
  end.

Definition nonempty {A} (xs : list A) : bool :=
  (0 <? List.length xs)%nat.

(** [xs[Math.floor(Math.random() * n)]] *)
Definition pick (d : N) (n : nat) (xs : list string) : option string :=
  at_index xs (random_index d n).

Definition tryCoverr (w : Web) (searchTerm : string) : option string :=
  match listing w Coverr searchTerm with
  | Throw => None
  | Ok videoLinks =>
      if nonempty videoLinks
      then follow_same_page w (slice_front 3 (shuffle w Coverr videoLinks))
      else None
  end.

Definition tryVidevo (w : Web) (searchTerm : string) : option string :=
  match listing w Videvo searchTerm with
  | Throw => None
  | Ok videoSrcs =>
      if nonempty videoSrcs then
        let validSrcs :=
          filter (fun src => negb (isWatermarked src)
                             && negb (includes src "preview")
                             && negb (includes src "small")) videoSrcs in
        let fallbackSrcs :=
          filter (fun src => negb (isWatermarked src)) videoSrcs in
        let bestSrcs :=
          if nonempty validSrcs then validSrcs else fallbackSrcs in
        if nonempty bestSrcs
        then pick (draw w Videvo searchTerm) (List.length bestSrcs) bestSrcs
        else None
      else None
  end.

Definition tryVidsplay (w : Web) (searchTerm : string) : option string :=
  match listing w Vidsplay searchTerm with
  | Throw => None
  | Ok videoLinks =>
      if nonempty videoLinks
      then follow_same_page w (slice_front 2 (shuffle w Vidsplay videoLinks))
      else None
  end.

(** [collectedVideos.add(url)] for every response in turn: a set keeps
    the first insertion of a value. *)
Fixpoint set_add_all (seen : list string) (urls : list string)
  : list string :=
  match urls with
  | [] => seen
  | u :: rest =>
      if existsb (String.eqb u) seen then set_add_all seen rest
      else set_add_all (seen ++ [u])%list rest
  end.

(** The filter of the [pexelsPage.on('response', ...)] listener. *)
Definition pexels_keeps (response : string * string) : bool :=
  let (url, contentType) := response in
  (includes contentType "video" || endsWith url ".mp4")
  && negb (includes url "preview") && negb (includes url "tiny")
  && negb (includes url "small") && negb (isWatermarked url).

Definition tryPexels (w : Web) (searchTerm : string) : option string :=
  let collectedVideos :=
    set_add_all []
      (map fst (filter pexels_keeps (pexels_responses w searchTerm))) in
  match pexels_cards w searchTerm with
  | Throw => None
  | Ok videoCards =>
      if (videoCards =? 0)%nat then None
      else if nonempty collectedVideos
      then pick (draw w Pexels searchTerm) (List.length collectedVideos)
                collectedVideos
      else None
  end.

Definition tryPixabay (w : Web) (searchTerm : string) : option string :=
  match listing w Pixabay searchTerm with
  | Throw => None
  | Ok videoLinks =>
      if nonempty videoLinks
      then follow_detail_pages w true
             (slice_front 3 (shuffle w Pixabay videoLinks))
      else None
  end.

Definition tryMixkit (w : Web) (searchTerm : string) : option string :=
  match listing w Mixkit searchTerm with
  | Throw => None
  | Ok videoLinks =>
      if nonempty videoLinks
      then follow_detail_pages w false
             (slice_front 3 (shuffle w Mixkit videoLinks))
      else None
  end.

Definition tryMotionElements (w : Web) (searchTerm : string)
  : option string :=
  match listing w MotionElements searchTerm with
  | Throw => None
  | Ok videoSrcs =>
      if nonempty videoSrcs then
        let validSrcs :=
          filter (fun src => negb (isWatermarked src)) videoSrcs in
        if nonempty validSrcs
        then pick (draw w MotionElements searchTerm)
                  (Nat.min (List.length validSrcs) 3) validSrcs
        else None
      else None
  end.

Definition trySplitShire (w : Web) (searchTerm : string) : option string :=
  match listing w SplitShire searchTerm with
  | Throw => None
  | Ok videoLinks =>
      match videoLinks with
      | [] => None
      | link :: _ =>
          match detail_src w link with
          | Throw => None
          | Ok videoSrc => accept videoSrc
          end
      end
  end.

(** Reddit is acknowledged but skipped: every path returns [null]. *)
Definition tryReddit (w : Web) (searchTerm : string) : option string :=
  match listing w Reddit searchTerm with
  | Throw => None
  | Ok videoLinks => if nonempty videoLinks then None else None
  end.

Definition body_of (s : Source) : Web -> string -> option string :=
  match s with
  | Pexels => tryPexels
  | Coverr => tryCoverr
  | Videvo => tryVidevo
  | Pixabay => tryPixabay
  | Mixkit => tryMixkit
  | Vidsplay => tryVidsplay
  | MotionElements => tryMotionElements
  | SplitShire => trySplitShire
  | Reddit => tryReddit
  end.

(** One adapter call: the adapter opens its own page before its [try]
    block, so a page that cannot be opened rejects the call; everything
    after that is caught and mapped to [null]. *)
Definition run (w : Web) (s : Source) (searchTerm : string)
  : Try (option string) :=
  if opens w s searchTerm then Ok (body_of s w searchTerm) else Throw.

End Adapters.

(* ================================================================== *)
(** * Scene video resolver: [GET /api/search-video], first variant     *)
(* ================================================================== *)

Module Search.
Import Http Adapters.

(** Final fallback pool. *)
Definition fallbacks : list string :=
  ["https://player.vimeo.com/external/434045526.sd.mp4?s=c27dbed29f271206012137c745301a62459ed6e7&profile_id=165&oauth2_token_id=57447761";
   "https://player.vimeo.com/external/403846614.sd.mp4?s=34f97157833290659639537f7175402636a0d494&profile_id=165&oauth2_token_id=57447761";
   "https://player.vimeo.com/external/394740316.sd.mp4?s=434449f0185c4929881f6d862e3647d9d8e95241&profile_id=165&oauth2_token_id=57447761";
   "https://player.vimeo.com/external/449074011.sd.mp4?s=53946603b494277c0018ef9a2d3c144445b28a59&profile_id=165&oauth2_token_id=57447761";
   "https://player.vimeo.com/external/494252666.sd.mp4?s=72771929239738fc033c876010b417b16ba9220a&profile_id=165&oauth2_token_id=57447761";
   "https://player.vimeo.com/external/459389137.sd.mp4?s=96445f6d230114f7768391811176dd921757f94a&profile_id=165&oauth2_token_id=57447761";
   "https://player.vimeo.com/external/418306352.sd.mp4?s=53946603b494277c0018ef9a2d3c144445b28a59&profile_id=165&oauth2_token_id=57447761";
   "https://player.vimeo.com/external/371433846.sd.mp4?s=236da2f3c05d00db97ee90743530f769274943c3&profile_id=165&oauth2_token_id=57447761"].

(** The URL answered by the [catch] block. *)
Definition critical_fallback : string :=
  "https://player.vimeo.com/external/434045526.sd.mp4?s=c27dbed29f271206012137c745301a62459ed6e7&profile_id=165&oauth2_token_id=57447761".

(** [variations] *)
Definition variations (query : string) : list string :=
  [query;
   (query ++ " cinematic")%string;
   join " " (slice_front 2 (split " "%char query))].

(** An adapter call started for a search term. *)
Definition Call : Type := (Source * string)%type.

(** [await Promise.all(sources)]: the array of results when every call
    resolved, an exception as soon as one rejected. *)
Fixpoint promise_all (outcomes : list (Try (option string)))
  : Try (list (option string)) :=
  match outcomes with
  | [] => Ok []
  | Throw :: _ => Throw
  | Ok r :: rest =>
      match promise_all rest with
      | Ok rs => Ok (r :: rs)
      | Throw => Throw
      end
  end.

Definition not_null (url : option string) : bool :=
  match url with Some _ => true | None => false end.

(** How the loop over the variations ends. *)
Inductive Loop : Type :=
| Found (validUrl : string)     (* [return res.json({ url: validUrl })] *)
| Exhausted                     (* fell out of the loop *)
| Crashed.                      (* an exception reached the handler *)

(** One round: all nine calls are started when the [sources] array is
    built, their results are awaited together, and the first non-null
    result in array order is looked at. *)
Definition round (run : Source -> string -> Try (option string))
    (term : string) : Try (option string) * list Call :=
  let started := map (fun s => (s, term)) sources in
  match promise_all (map (fun s => run s term) sources) with
  | Throw => (Throw, started)
  | Ok results =>
      (* [results.find(url => url !== null)], [undefined] if none *)
      match find not_null results with
      | Some validUrl => (Ok validUrl, started)
      | None => (Ok None, started)
      end
  end.

(** [for (const term of variations) { if (!term) continue; ... }] *)
Fixpoint search_loop (run : Source -> string -> Try (option string))
    (terms : list string) : Loop * list Call :=
  match terms with
  | [] => (Exhausted, [])
  | term :: rest =>
      if negb (truthy term) then search_loop run rest
      else
        match round run term with
        | (Throw, started) => (Crashed, started)
        | (Ok validUrl, started) =>
            (* [if (validUrl)] *)
            match validUrl with
            | Some u =>
                if truthy u then (Found u, started)
                else let (r, later) := search_loop run rest in
                     (r, (started ++ later)%list)
            | None =>
                let (r, later) := search_loop run rest in
                (r, (started ++ later)%list)
            end
        end
  end.

(** The browser of one request. *)
Record Browser : Type := mkBrowser {
  launches : bool;      (* [puppeteer.launch] and the first page succeed *)
  web : Web;
  fallback_draw : N     (* the [Math.random()] of the final fallback *)
}.

(** [fallbacks[Math.floor(Math.random() * fallbacks.length)]] *)
Definition randomFallback (d : N) : option string :=
  at_index fallbacks (random_index d (List.length fallbacks)).

(** The handler, with the adapter calls it started. *)
Definition search_video_with (launches : bool)
    (run : Source -> string -> Try (option string)) (d : N)
    (query : string) : Response * list Call :=
  if negb (truthy query)
  then (status_json 400 (BError "Query required"), [])
  else if negb launches then (json (BUrl critical_fallback), [])
  else
    match search_loop run (variations query) with
    | (Found validUrl, calls) => (json (BUrl validUrl), calls)
    | (Crashed, calls) => (json (BUrl critical_fallback), calls)
    | (Exhausted, calls) =>
        match randomFallback d with
        | Some u => (json (BUrl u), calls)
        | None => (json BEmpty, calls)
        end
    end.

Definition search_video (b : Browser) (query : string)
  : Response * list Call :=
  search_video_with (launches b) (run (web b)) (fallback_draw b) query.

End Search.

(* ================================================================== *)
(** * Front-end helpers: [fetchWithRetry], [generateSceneVideo]        *)
(* ================================================================== *)

Module Client.
Import Http.

Definition maxRetries : nat := 3.

(** [fetchWithRetry]: [attempt i] is the outcome of the [fetch] of
    iteration [i]; [left] counts the iterations that remain. *)
Fixpoint fetchWithRetry_from (attempt : nat -> Try Response) (i left : nat)
  : Try Response :=
  match left with
  | 0 => Throw                       (* [throw lastError || new Error] *)
  | S left' =>
      match attempt i with
      | Ok response =>
          if (status response =? 429)%nat
             || ((500 <=? status response)%nat && (i <? maxRetries - 1)%nat)
          then fetchWithRetry_from attempt (S i) left'
          else Ok response
      | Throw => fetchWithRetry_from attempt (S i) left'
      end
  end.

Definition fetchWithRetry (attempt : nat -> Try Response) : Try Response :=
  fetchWithRetry_from attempt 0 maxRetries.

(** [generateSceneVideo]: the URL of the answer, [null] on any failure. *)
Definition generateSceneVideo (attempt : nat -> Try Response)
  : option string :=
  match fetchWithRetry attempt with
  | Ok response => if negb (ok response) then None else data_url response
  | Throw => None
  end.

(** The front end resolving a scene clip against the first server
    variant over a reliable link. *)
Definition resolveSceneClip (b : Search.Browser) (query : string)
  : option string :=
  generateSceneVideo (fun _ => Ok (fst (Search.search_video b query))).

End Client.

(* ================================================================== *)
(** * Assembly engine: [POST /api/merge-videos], first variant         *)
(* ================================================================== *)

Module Merge.
Import Http.

(** A field of the request body. *)
Inductive Elem : Type :=
| EString (s : string)
| ENotString.                 (* a number, [null], an object, ... *)

Inductive Field : Type :=
| Absent                      (* [undefined] or [null] *)
| NotArray                    (* any value that is not an array *)
| Items (xs : list Elem).

Record Request : Type := mkRequest {
  videoUrls : Field;
  audioUrls : Field
}.

(** Files of a job directory. *)
Inductive Path : Type :=
| RawVideo (i : nat)          (* raw_v_<i>.mp4 *)
| RawAudio (i : nat)          (* raw_a_<i>.wav *)
| SceneOutput (i : nat)       (* scene_<i>.mp4 *)
| FinalOutput.                (* final_short_<jobId>.mp4 *)

(** A duration as ffprobe reports it.  The handler never computes with
    it, it only hands it to the encoder, so the JavaScript number is kept
    as a numeral (thousandths of a second). *)
Definition Seconds : Type := N.

(** The outside world of one job. *)
Record Tools : Type := mkTools {
  uuidv4 : string;
  (* axios stream download piped to a file *)
  download : Elem -> Path -> bool;
  (* [fs.writeFileSync] of the decoded inline audio *)
  write_file : Path -> bool;
  (* [ffmpeg.ffprobe]: [metadata.format.duration], when the probe works *)
  ffprobe : Path -> Try (option Seconds);
  (* the per-scene ffmpeg run with [-t duration] *)
  encode : Path -> Path -> Seconds -> Path -> bool;
  (* [mergeToFile] *)
  mergeToFile : list Path -> Path -> bool
}.

(** Work done by a job, in order. *)
Inductive Step : Type :=
| Mkdir (jobId : string)
| DownloadVideo (i : nat) (url : Elem)
| DecodeAudio (i : nat)
| DownloadAudio (i : nat) (url : Elem)
| Probe (i : nat)
| Encode (i : nat) (t : Seconds)
| Concat (scenePaths : list Path).

(** [audioUrl.split(',')[1]] *)
Definition base64Data (audioUrl : string) : option string :=
  at_index (split ","%char audioUrl) 1.

(** Step 2 of a scene: the narration, inline or remote. *)
Definition fetch_audio (t : Tools) (i : nat) (audioUrl : Elem)
  : bool * list Step :=
  match audioUrl with
  | ENotString => (false, [])           (* [startsWith] is not a function *)
  | EString a =>
      if startsWith a "data:" then
        match base64Data a with
        | None => (false, [DecodeAudio i])    (* Buffer.from(undefined) *)
        | Some _ => (write_file t (RawAudio i), [DecodeAudio i])
        end
      else (download t audioUrl (RawAudio i), [DownloadAudio i audioUrl])
  end.

(** [metadata.format.duration || 0] *)
Definition duration_or_zero (d : option Seconds) : Seconds :=
  match d with
  | Some x => x
  | None => 0%N
  end.

(** One iteration of the scene loop: download, probe, encode.  [false]
    is an exception leaving the loop. *)
Definition process_scene (t : Tools) (i : nat) (videoUrl audioUrl : Elem)
  : bool * list Step :=
  if negb (download t videoUrl (RawVideo i))
  then (false, [DownloadVideo i videoUrl])
  else
    let (got_audio, audio_steps) := fetch_audio t i audioUrl in
    if negb got_audio
    then (false, (DownloadVideo i videoUrl :: audio_steps)%list)
    else
      match ffprobe t (RawAudio i) with
      | Throw =>
          (false, (DownloadVideo i videoUrl :: audio_steps ++ [Probe i])%list)
      | Ok d =>
          let duration := duration_or_zero d in
          let steps :=
            (DownloadVideo i videoUrl :: audio_steps
             ++ [Probe i; Encode i duration])%list in
          (encode t (RawVideo i) (RawAudio i) duration (SceneOutput i), steps)
      end.

(** [for (let i = 0; i < videoUrls.length; i++)]: the scene paths pushed
    when every iteration completed. *)
Fixpoint scene_loop (t : Tools) (i : nat) (pairs : list (Elem * Elem))
  : Try (list Path) * list Step :=
  match pairs with
  | [] => (Ok [], [])
  | (videoUrl, audioUrl) :: rest =>
      match process_scene t i videoUrl audioUrl with
      | (false, steps) => (Throw, steps)
      | (true, steps) =>
          match scene_loop t (S i) rest with
          | (Ok scenePaths, later) =>
              (Ok (SceneOutput i :: scenePaths), (steps ++ later)%list)
          | (Throw, later) => (Throw, (steps ++ later)%list)
          end
      end
  end.

Definition final_url (jobId : string) : string :=
  "/temp/" ++ jobId ++ "/final_short_" ++ jobId ++ ".mp4".

(** The body of the [try] block of the handler. *)
Definition run_job (t : Tools) (pairs : list (Elem * Elem))
  : Response * list Step :=
  match scene_loop t 0 pairs with
  | (Throw, steps) =>
      (status_json 500 (BError "Merge job failed"), steps)
  | (Ok scenePaths, steps) =>
      if mergeToFile t scenePaths FinalOutput
      then (json (BUrl (final_url (uuidv4 t))),
            (steps ++ [Concat scenePaths])%list)
      else (status_json 500 (BError "Merge job failed"),
            (steps ++ [Concat scenePaths])%list)
  end.

(** The handler with the work it did. *)
Definition merge_videos (t : Tools) (req : Request) : Response * list Step :=
  match videoUrls req with
  | Absent | NotArray =>
      (status_json 400 (BError "videoUrls array required"), [])
  | Items videos =>
      if (List.length videos =? 0)%nat
      then (status_json 400 (BError "videoUrls array required"), [])
      else
        match audioUrls req with
        | Absent | NotArray =>
            (status_json 400 (BError "Matching audioUrls array required"), [])
        | Items audios =>
            if negb (List.length audios =? List.length videos)%nat
            then (status_json 400
                    (BError "Matching audioUrls array required"), [])
            else
              let (response, steps) := run_job t (combine videos audios) in
              (response, (Mkdir (uuidv4 t) :: steps)%list)
        end
  end.

End Merge.

(* ================================================================== *)
(** * Second server variant: sequential search, video-only merge       *)
(* ================================================================== *)

Module Legacy.
Import Http.

Inductive Source : Type := Pexels | Pinterest | Pixabay | Mixkit.

Definition sources : list Source := [Pexels; Pinterest; Pixabay; Mixkit].

Record Web : Type := mkWeb {
  opens : Source -> string -> bool;
  (* Pexels: [goto], [waitForSelector], [$$] and the hovers *)
  pexels_cards : string -> Try nat;
  pexels_responses : string -> list (string * string);
  (* Pinterest pin links, Pixabay video page links *)
  listing : Source -> string -> Try (list string);
  detail_opens : string -> bool;
  (* pin page: the 32-digit hash inside the first pinimg video URL of
     its HTML, when both patterns match *)
  pin_hash : string -> Try (option string);
  detail_src : string -> Try (option string);
  (* Mixkit search page: [video.src], then the first video link *)
  mixkit_inline : string -> Try (option string);
  mixkit_first_link : string -> Try (option string)
}.

(** The filter of the response listener: no denylist here. *)
Definition pexels_keeps (response : string * string) : bool :=
  let (url, contentType) := response in
  (includes contentType "video" || endsWith url ".mp4")
  && negb (includes url "preview") && negb (includes url "tiny").

Definition tryPexels (w : Web) (searchTerm : string) : option string :=
  let collectedVideos :=
    Adapters.set_add_all []
      (map fst (filter pexels_keeps (pexels_responses w searchTerm))) in
  match pexels_cards w searchTerm with
  | Throw => None
  | Ok _ =>
      if Adapters.nonempty collectedVideos
      then at_index collectedVideos 0
      else None
  end.

Definition directUrl (fullHash : string) : string :=
  "https://v1.pinimg.com/videos/mc/720p/"
  ++ String.substring 0 2 fullHash ++ "/"
  ++ String.substring 2 2 fullHash ++ "/"
  ++ String.substring 4 2 fullHash ++ "/" ++ fullHash ++ ".mp4".

Fixpoint follow_pins (w : Web) (pinLinks : list string) : option string :=
  match pinLinks with
  | [] => None
  | pinUrl :: rest =>
      if negb (detail_opens w pinUrl) then None
      else match pin_hash w pinUrl with
           | Ok (Some fullHash) => Some (directUrl fullHash)
           | Ok None | Throw => follow_pins w rest
           end
  end.

Definition tryPinterest (w : Web) (searchTerm : string) : option string :=
  match listing w Pinterest searchTerm with
  | Throw => None
  | Ok pinLinks => follow_pins w (slice_front 5 pinLinks)
  end.

Fixpoint follow_video_pages (w : Web) (links : list string)
  : option string :=
  match links with
  | [] => None
  | videoPageUrl :: rest =>
      if negb (detail_opens w videoPageUrl) then None
      else match detail_src w videoPageUrl with
           | Ok (Some videoSrc) =>
               if truthy videoSrc then Some videoSrc
               else follow_video_pages w rest
           | Ok None | Throw => follow_video_pages w rest
           end
  end.

Definition tryPixabay (w : Web) (searchTerm : string) : option string :=
  match listing w Pixabay searchTerm with
  | Throw => None
  | Ok videoLinks => follow_video_pages w (slice_front 3 videoLinks)
  end.

Definition tryMixkit (w : Web) (searchTerm : string) : option string :=
  match mixkit_inline w searchTerm with
  | Throw => None
  | Ok videoSrc =>
      if truthy_opt videoSrc then videoSrc
      else match mixkit_first_link w searchTerm with
           | Throw => None
           | Ok firstVideoLink =>
               match firstVideoLink with
               | Some link =>
                   if truthy link
                   then match detail_src w link with
                        | Throw => None
                        | Ok src => src
                        end
                   else None
               | None => None
               end
           end
  end.

Definition body_of (s : Source) : Web -> string -> option string :=
  match s with
  | Pexels => tryPexels
  | Pinterest => tryPinterest
  | Pixabay => tryPixabay
  | Mixkit => tryMixkit
  end.

Definition run (w : Web) (s : Source) (searchTerm : string)
  : Try (option string) :=
  if opens w s searchTerm then Ok (body_of s w searchTerm) else Throw.

(** [variations] *)
Definition first_word (query : string) : string :=
  match split " "%char query with
  | w :: _ => w
  | [] => ""
  end.

Definition variations (query : string) : list string :=
  [query;
   join " " (slice_back 2 (split " "%char query));
   (first_word query ++ " vertical")%string;
   ("aesthetic " ++ first_word query)%string].

Definition Call : Type := (Source * string)%type.

(** [let url = await tryPexels(term); if (!url) url = await ...]: the
    adapters are awaited one after the other, and the next one is only
    called while [url] is falsy. *)
Fixpoint try_in_turn (run : Source -> string -> Try (option string))
    (term : string) (srcs : list Source) : Try (option string) * list Call :=
  match srcs with
  | [] => (Ok None, [])
  | s :: rest =>
      match run s term with
      | Throw => (Throw, [(s, term)])
      | Ok url =>
          if truthy_opt url then (Ok url, [(s, term)])
          else let (r, later) := try_in_turn run term rest in
               (r, ((s, term) :: later)%list)
      end
  end.

Fixpoint search_loop (run : Source -> string -> Try (option string))
    (terms : list string) : Search.Loop * list Call :=
  match terms with
  | [] => (Search.Exhausted, [])
  | term :: rest =>
      if negb (truthy term) then search_loop run rest
      else
        match try_in_turn run term sources with
        | (Throw, started) => (Search.Crashed, started)
        | (Ok (Some url), started) => (Search.Found url, started)
        | (Ok None, started) =>
            let (r, later) := search_loop run rest in
            (r, (started ++ later)%list)
        end
  end.

Definition search_video_with (launches : bool)
    (run : Source -> string -> Try (option string)) (query : string)
  : Response * list Call :=
  if negb (truthy query)
  then (status_json 400 (BError "Query required"), [])
  else if negb launches then (json (BUrl Search.critical_fallback), [])
  else
    match search_loop run (variations query) with
    | (Search.Found url, calls) => (json (BUrl url), calls)
    | (_, calls) => (json (BUrl Search.critical_fallback), calls)
    end.

Definition search_video (launches : bool) (w : Web) (query : string)
  : Response * list Call :=
  search_video_with launches (run w) query.

(** ** [POST /api/merge-videos] of the second variant *)

Record Tools : Type := mkTools {
  uuidv4 : string;
  (* download of video [i], attempt number [k] *)
  download : nat -> nat -> bool;
  (* the normalising ffmpeg run on the [j]-th downloaded file *)
  normalize : nat -> bool;
  mergeToFile : list nat -> bool
}.

Inductive Step : Type :=
| Mkdir (jobId : string)
| Download (i attempt : nat)
| Skip (i : nat)
| Normalize (j : nat)
| Concat (normalizedPaths : list nat).

Definition maxAttempts : nat := 3.

(** [while (!downloaded && attempts < maxAttempts)] *)
Fixpoint download_attempts (t : Tools) (i attempts left : nat)
  : bool * list Step :=
  match left with
  | 0 => (false, [])
  | S left' =>
      let attempts := S attempts in
      if download t i attempts then (true, [Download i attempts])
      else
        let (downloaded, later) := download_attempts t i attempts left' in
        (downloaded,
         (Download i attempts
          :: (if (maxAttempts <=? attempts)%nat then [Skip i] else [])
          ++ later)%list)
  end.

(** Step 1: [localPaths], the indices of the videos that were
    downloaded. *)
Fixpoint download_all (t : Tools) (i n : nat) : list nat * list Step :=
  match n with
  | 0 => ([], [])
  | S n' =>
      let (downloaded, steps) := download_attempts t i 0 maxAttempts in
      let (localPaths, later) := download_all t (S i) n' in
      ((if downloaded then i :: localPaths else localPaths),
       (steps ++ later)%list)
  end.

(** Step 2: normalise [localPaths[j]] for each [j] in turn. *)
Fixpoint normalize_all (t : Tools) (j n : nat) : Try (list nat) * list Step :=
  match n with
  | 0 => (Ok [], [])
  | S n' =>
      if normalize t j then
        match normalize_all t (S j) n' with
        | (Ok paths, later) => (Ok (j :: paths), (Normalize j :: later)%list)
        | (Throw, later) => (Throw, (Normalize j :: later)%list)
        end
      else (Throw, [Normalize j])
  end.

Definition run_job (t : Tools) (videos : list Merge.Elem)
  : Response * list Step :=
  let (localPaths, steps1) := download_all t 0 (List.length videos) in
  if (List.length localPaths =? 0)%nat
  then (status_json 500 (BError "Merge job failed"), steps1)
  else
    match normalize_all t 0 (List.length localPaths) with
    | (Throw, steps2) =>
        (status_json 500 (BError "Merge job failed"), (steps1 ++ steps2)%list)
    | (Ok normalizedPaths, steps2) =>
        if mergeToFile t normalizedPaths
        then (json (BUrl (Merge.final_url (uuidv4 t))),
              (steps1 ++ steps2 ++ [Concat normalizedPaths])%list)
        else (status_json 500 (BError "Merge job failed"),
              (steps1 ++ steps2 ++ [Concat normalizedPaths])%list)
    end.

Definition merge_videos (t : Tools) (req : Merge.Request)
  : Response * list Step :=
  match Merge.videoUrls req with
  | Merge.Absent | Merge.NotArray =>
      (status_json 400 (BError "videoUrls array required"), [])
  | Merge.Items videos =>
      if (List.length videos =? 0)%nat
      then (status_json 400 (BError "videoUrls array required"), [])
      else let (response, steps) := run_job t videos in
           (response, (Mkdir (uuidv4 t) :: steps)%list)
  end.

End Legacy.

(* ================================================================== *)
(** * Scene pipeline orchestrator: [handleGenerate], [handleExport]    *)
(* ================================================================== *)

Module App.

Record Scene : Type := mkScene {
  imagePrompt : string;
  narration : string;
  overlayText : string;
  videoUrl : option string
}.

(** A scene of the storyboard as [generateShortScript] delivers it: the
    response schema has no clip field. *)
Record ScriptScene : Type := mkScriptScene {
  script_imagePrompt : string;
  script_narration : string;
  script_overlayText : string
}.

Definition scene_of_script (s : ScriptScene) : Scene :=
  mkScene (script_imagePrompt s) (script_narration s)
          (script_overlayText s) None.

(** [updatedScenes[i].videoUrl = url] *)
Definition with_videoUrl (s : Scene) (url : string) : Scene :=
  mkScene (imagePrompt s) (narration s) (overlayText s) (Some url).

(** The functions imported from [./services/videoService] and the user
    behind [confirm], as the component sees them: the answer may change
    from one call to the next, so it depends on the number of the call. *)
Record Services : Type := mkServices {
  generateSceneVideo : nat -> string -> option string;
  verifyVideo : nat -> string -> bool;
  mergeVideos : list string -> option string;
  confirm : bool
}.

(** What the component does that can be seen from outside; [scene] is
    the index of the scene the call is made for. *)
Inductive Event : Type :=
| Delay (ms : nat)
| Resolve (scene : nat) (prompt : string) (answer : option string)
| Verify (scene : nat) (url : string) (answer : bool)
| Alert
| Confirm (valid total : nat) (answer : bool)
| MergeCall (urls : list string) (answer : option string).

Record World : Type := mkWorld {
  resolves : nat;               (* calls of [generateSceneVideo] so far *)
  verifies : nat;               (* calls of [verifyVideo] so far *)
  log : list Event              (* oldest first *)
}.

Definition start : World := mkWorld 0 0 [].

(** State passing. *)
Definition M (A : Type) : Type := World -> A * World.

Definition ret {A} (a : A) : M A := fun w => (a, w).

Definition bind {A B} (m : M A) (k : A -> M B) : M B :=
  fun w => let (a, w') := m w in k a w'.

Notation "x <- m ;; k" := (bind m (fun x => k))
  (at level 61, m at next level, right associativity).
Notation "m ;;; k" := (bind m (fun _ => k))
  (at level 61, right associativity).

Definition emit (e : Event) : M unit :=
  fun w => (tt, mkWorld (resolves w) (verifies w) (log w ++ [e])%list).

Definition call_generateSceneVideo (sv : Services) (scene : nat)
    (prompt : string) : M (option string) :=
  fun w =>
    let answer := generateSceneVideo sv (resolves w) prompt in
    (answer,
     mkWorld (S (resolves w)) (verifies w)
             (log w ++ [Resolve scene prompt answer])%list).

Definition call_verifyVideo (sv : Services) (scene : nat) (url : string)
  : M bool :=
  fun w =>
    let answer := verifyVideo sv (verifies w) url in
    (answer,
     mkWorld (resolves w) (S (verifies w))
             (log w ++ [Verify scene url answer])%list).

Definition call_confirm (sv : Services) (valid total : nat) : M bool :=
  emit (Confirm valid total (confirm sv)) ;;; ret (confirm sv).

Definition call_mergeVideos (sv : Services) (urls : list string)
  : M (option string) :=
  emit (MergeCall urls (mergeVideos sv urls)) ;;; ret (mergeVideos sv urls).

(** ** [handleGenerate] *)

Definition maxAttempts : nat := 2.

(** [while (!foundValidVideo && attempts < maxAttempts)] for scene [i];
    [left] is [maxAttempts - attempts]. *)
Fixpoint attempts_loop (sv : Services) (i : nat) (scene : Scene)
    (attempts left : nat) : M Scene :=
  match left with
  | 0 => ret scene
  | S left' =>
      let attempts := S attempts in
      (if (0 <? i)%nat || (1 <? attempts)%nat
       then emit (Delay 2000) else ret tt) ;;;
      videoUrl <- call_generateSceneVideo sv i (imagePrompt scene) ;;
      match videoUrl with
      | Some url =>
          if truthy url then
            isValid <- call_verifyVideo sv i url ;;
            if isValid then ret (with_videoUrl scene url)
            else attempts_loop sv i scene attempts left'
          else attempts_loop sv i scene attempts left'
      | None => attempts_loop sv i scene attempts left'
      end
  end.

(** [for (let i = 0; i < updatedScenes.length; i++) { body }], where the
    body works on [updatedScenes[i]]; [i] is the index of the head of
    [scenes]. *)
Fixpoint for_scenes (body : nat -> Scene -> M Scene) (i : nat)
    (scenes : list Scene) : M (list Scene) :=
  match scenes with
  | [] => ret []
  | scene :: rest =>
      scene' <- body i scene ;;
      rest' <- for_scenes body (S i) rest ;;
      ret (scene' :: rest')
  end.

(** The body of the generation loop for scene [i]. *)
Definition generate_scene (sv : Services) (i : nat) (scene : Scene)
  : M Scene :=
  attempts_loop sv i scene 0 maxAttempts.

(** [handleGenerate] once the prompt is not blank; [script] is the
    outcome of [generateShortScript]. *)
Definition handleGenerate (sv : Services) (script : Try (list ScriptScene))
  : M (list Scene) :=
  match script with
  | Throw => emit Alert ;;; ret []
  | Ok scenes =>
      for_scenes (generate_scene sv) 0 (map scene_of_script scenes)
  end.

(** ** [handleExport] *)

(** One iteration of the recheck loop. *)
Definition recheck_scene (sv : Services) (i : nat) (scene : Scene)
  : M Scene :=
  isValid <- match videoUrl scene with
             | Some url =>
                 if truthy url then call_verifyVideo sv i url else ret false
             | None => ret false
             end ;;
  if negb isValid then
    recoveredUrl <- call_generateSceneVideo sv i (imagePrompt scene) ;;
    match recoveredUrl with
    | Some url => if truthy url then ret (with_videoUrl scene url)
                  else ret scene
    | None => ret scene
    end
  else ret scene.

(** [updatedScenes.map(s => s.videoUrl).filter(Boolean) as string[]] *)
Fixpoint strings (xs : list (option string)) : list string :=
  match xs with
  | [] => []
  | Some s :: rest => s :: strings rest
  | None :: rest => strings rest
  end.

Definition finalUrls (updatedScenes : list Scene) : list string :=
  strings (filter truthy_opt (map videoUrl updatedScenes)).

Inductive Exported : Type :=
| NoProject                       (* [if (!currentShort) return] *)
| Refused                         (* no clip at all *)
| Declined                        (* partial result not confirmed *)
| Merged (mergedUrl : option string).

(** The export gate and the merge call, after the recheck loop. *)
Definition export_gate (sv : Services) (updatedScenes : list Scene)
  : M Exported :=
  let urls := finalUrls updatedScenes in
  if (List.length urls =? 0)%nat then emit Alert ;;; ret Refused
  else
    proceed <- (if (List.length urls <? List.length updatedScenes)%nat
                then call_confirm sv (List.length urls)
                                  (List.length updatedScenes)
                else ret true) ;;
    if negb proceed then ret Declined
    else mergedUrl <- call_mergeVideos sv urls ;; ret (Merged mergedUrl).

Definition handleExport (sv : Services) (currentShort : option (list Scene))
  : M (list Scene * Exported) :=
  match currentShort with
  | None => ret ([], NoProject)
  | Some scenes =>
      updatedScenes <- for_scenes (recheck_scene sv) 0 scenes ;;
      outcome <- export_gate sv updatedScenes ;;
      ret (updatedScenes, outcome)
  end.

End App.

(* ================================================================== *)
(** * Vocabulary of the statements                                     *)
(* ================================================================== *)

Module DenylistSpec.

(** A URL is clean when its lower-cased form contains no marker of the
    denylist. *)
Definition clean (url : string) : Prop :=
  forall word pre post,
    In word Adapters.forbidden -> toLowerCase url <> pre ++ word ++ post.

End DenylistSpec.

Module SearchSpec.

(** The calls of one fan-out round of the first variant. *)
Definition started_for (term : string) : list Search.Call :=
  map (fun s => (s, term)) Adapters.sources.

(** The calls made for [term] to the adapters [srcs] of the second
    variant. *)
Definition tried_for (term : string) (srcs : list Legacy.Source)
  : list Legacy.Call :=
  map (fun s => (s, term)) srcs.

End SearchSpec.

Module MergeSpec.
Import Merge.

(** The request satisfies the input contract of the merge endpoint. *)
Definition well_formed (req : Request) : Prop :=
  exists videos audios,
    videoUrls req = Items videos /\ audioUrls req = Items audios
    /\ videos <> [] /\ List.length audios = List.length videos.

(** Every step of scene [i] succeeds: both downloads, the probe and the
    encoding run. *)
Definition steps_succeed (t : Tools) (i : nat) (videoUrl audioUrl : Elem)
  : Prop :=
  download t videoUrl (RawVideo i) = true
  /\ fst (fetch_audio t i audioUrl) = true
  /\ exists d, ffprobe t (RawAudio i) = Ok d
               /\ encode t (RawVideo i) (RawAudio i) (duration_or_zero d)
                         (SceneOutput i) = true.

Definition is_concat (s : Step) : bool :=
  match s with Concat _ => true | _ => false end.

(** A video of the second variant is downloaded when one of its three
    attempts succeeds. *)
Definition downloaded (t : Legacy.Tools) (i : nat) : bool :=
  Legacy.download t i 1 || Legacy.download t i 2 || Legacy.download t i 3.

End MergeSpec.

Module Trace.
Import App.

(** The scene an event belongs to. *)
Definition event_scene (e : Event) : option nat :=
  match e with
  | Resolve i _ _ => Some i
  | Verify i _ _ => Some i
  | _ => None
  end.

Definition of_scene (i : nat) (e : Event) : bool :=
  match event_scene e with
  | Some k => (k =? i)%nat
  | None => false
  end.

(** The calls made for scene [i], in order. *)
Definition scene_events (i : nat) (evs : list Event) : list Event :=
  filter (of_scene i) evs.

Definition is_resolve (e : Event) : bool :=
  match e with Resolve _ _ _ => true | _ => false end.

(** Number of [generateSceneVideo] calls among the events. *)
Definition resolve_calls (evs : list Event) : nat :=
  List.length (filter is_resolve evs).

(** A step of a loop over the scenes, seen from outside: the scene it
    leaves and the events it appends to the log. *)
Definition performs (body : nat -> Scene -> M Scene) (i : nat)
    (scene scene' : Scene) (evs : list Event) : Prop :=
  exists w, fst (body i scene w) = scene'
            /\ log (snd (body i scene w)) = (log w ++ evs)%list.

(** The body only appends to the log, and only calls made for its own
    scene or events of no scene. *)
Definition local_body (body : nat -> Scene -> M Scene) : Prop :=
  forall i scene w,
  exists evs,
    log (snd (body i scene w)) = (log w ++ evs)%list
    /\ Forall (fun e => event_scene e = Some i \/ event_scene e = None) evs.

(** What the calls made for scene [i] during generation look like. *)
Definition generation_facts (i : nat) (scene scene' : Scene)
    (calls : list Event) : Prop :=
  1 <= resolve_calls calls <= 2
  /\ (forall p u rest,
        calls = Resolve i p (Some u) :: Verify i u true :: rest ->
        rest = [])
  /\ ((exists u, In (Verify i u true) calls
                 /\ scene' = with_videoUrl scene u)
      \/ ((forall u, ~ In (Verify i u true) calls)
          /\ scene' = scene /\ resolve_calls calls = 2)).

(** The verification of the stored clip that precedes a recovery. *)
Definition failed_check (i : nat) (scene : Scene) : list Event :=
  match videoUrl scene with
  | Some url => if truthy url then [Verify i url false] else []
  | None => []
  end.

(** The scene after a recovery call that answered [a]. *)
Definition recovered (scene : Scene) (a : option string) : Scene :=
  match a with
  | Some u => if truthy u then with_videoUrl scene u else scene
  | None => scene
  end.

(** What the calls made for scene [i] by the recheck loop look like. *)
Definition recheck_facts (i : nat) (scene scene' : Scene)
    (calls : list Event) : Prop :=
  (exists url, videoUrl scene = Some url /\ truthy url = true
               /\ calls = [Verify i url true] /\ scene' = scene)
  \/ (exists a,
        calls = (failed_check i scene
                 ++ [Resolve i (imagePrompt scene) a])%list
        /\ scene' = recovered scene a).

Definition is_call (e : Event) : Prop :=
  exists k, event_scene e = Some k.

Definition no_merge (evs : list Event) : Prop :=
  forall urls answer, ~ In (MergeCall urls answer) evs.

Definition no_confirm (evs : list Event) : Prop :=
  forall valid total answer, ~ In (Confirm valid total answer) evs.

End Trace.

(* ================================================================== *)
(** * Sample worlds                                                    *)
(* ================================================================== *)

Module Samples.

(** A host that answers every HEAD request with an HTML page. *)
Definition page_host (_ : string) : Try Classifier.HeadReply :=
  Ok (Classifier.mkHead 200 (Some "text/html")).

(** A host that answers every HEAD request with a video. *)
Definition video_host (_ : string) : Try Classifier.HeadReply :=
  Ok (Classifier.mkHead 200 (Some "video/mp4")).

(** A web on which every site answers with an empty result page. *)
Definition quiet_web : Adapters.Web :=
  Adapters.mkWeb (fun _ _ => true) (fun _ _ => Ok []) (fun _ links => links)
    (fun _ => true) (fun _ => Ok None) (fun _ => Ok 0) (fun _ => [])
    (fun _ _ => 0%N).

Definition quiet_browser : Search.Browser :=
  Search.mkBrowser true quiet_web (3 * 2 ^ 50 + 5)%N.


(** Second variant: Pexels delivers a clip at once. *)
Definition pexels_hit : Legacy.Web :=
  Legacy.mkWeb (fun _ _ => true) (fun _ => Ok 1)
    (fun _ => [("https://videos.pexels.com/clip.mp4", "video/mp4")])
    (fun _ _ => Ok []) (fun _ => true) (fun _ => Ok None)
    (fun _ => Ok None) (fun _ => Ok None) (fun _ => Ok None).


(** A clip served by a stock provider of the denylist. *)
Definition marked_clip : string :=
  "https://media.gettyimages.com/videos/sunset-clip.mp4".

(** A Pexels session of the second variant that saw the marked clip. *)
Definition legacy_marked_web : Legacy.Web :=
  Legacy.mkWeb (fun _ _ => true) (fun _ => Ok 1)
    (fun _ => [(marked_clip, "video/mp4")])
    (fun _ _ => Ok []) (fun _ => true) (fun _ => Ok None)
    (fun _ => Ok None) (fun _ => Ok None) (fun _ => Ok None).

(** The same session seen by the first variant. *)
Definition marked_web : Adapters.Web :=
  Adapters.mkWeb (fun _ _ => true) (fun _ _ => Ok []) (fun _ links => links)
    (fun _ => true) (fun _ => Ok None) (fun _ => Ok 1)
    (fun _ => [(marked_clip, "video/mp4")]) (fun _ _ => 0%N).

(** A Videvo result page with one clean clip. *)
Definition videvo_web : Adapters.Web :=
  Adapters.mkWeb (fun _ _ => true)
    (fun s _ => match s with
                | Adapters.Videvo => Ok ["https://cdn.videvo.net/clip.mp4"]
                | _ => Ok []
                end)
    (fun _ links => links) (fun _ => true) (fun _ => Ok None)
    (fun _ => Ok 0) (fun _ => []) (fun _ _ => 0%N).

(** Merge tools that all work. *)
Definition good_tools : Merge.Tools :=
  Merge.mkTools "job-1" (fun _ _ => true) (fun _ => true)
    (fun _ => Ok (Some 4200%N)) (fun _ _ _ _ => true) (fun _ _ => true).

(** The probe of the second narration fails. *)
Definition bad_probe_tools : Merge.Tools :=
  Merge.mkTools "job-2" (fun _ _ => true) (fun _ => true)
    (fun p => match p with
              | Merge.RawAudio 1 => Throw
              | _ => Ok (Some 4200%N)
              end)
    (fun _ _ _ _ => true) (fun _ _ => true).

(** Second variant: the second clip cannot be downloaded. *)
Definition legacy_tools : Legacy.Tools :=
  Legacy.mkTools "job-3" (fun i _ => (i =? 0)%nat) (fun _ => true)
    (fun _ => true).

Definition two_clips : list Merge.Elem :=
  [Merge.EString "https://cdn.example.com/a.mp4";
   Merge.EString "https://cdn.example.com/b.mp4"].

Definition two_audios : list Merge.Elem :=
  [Merge.EString "data:audio/wav;base64,UklGRg==";
   Merge.EString "https://cdn.example.com/b.wav"].

(** The resolver finds nothing on its first two calls and a clip from
    the third call on; every clip it finds verifies. *)
Definition late_services : App.Services :=
  App.mkServices
    (fun k _ => if (k <? 2)%nat then None
                else Some "https://cdn.example.com/c.mp4")
    (fun _ _ => true) (fun _ => Some "/temp/j/final_short_j.mp4") true.

Definition two_scene_script : list App.ScriptScene :=
  [App.mkScriptScene "empty desert" "Nothing here." "Desert";
   App.mkScriptScene "busy harbour" "Ships everywhere." "Harbour"].


Definition stale_scene : App.Scene :=
  App.mkScene "harbour at dawn" "Ships leave." "Harbour"
    (Some "https://cdn.example.com/stale.mp4").



End Samples.

(* ================================================================== *)
(** * Narration synthesis: [generateAudio]                             *)
(* ================================================================== *)

Module Narration.

(** What one [ai.models.generateContent] call of the loop does: it
    answers, with or without inline audio data, or it throws an error
    that may carry a message. *)
Inductive Reply : Type :=
| Answered (base64Audio : option string)
| Failed (message : option string).

(** What the function does that can be seen from outside. *)
Inductive Event : Type :=
| Call (i : nat)                       (* the request of iteration [i] *)
| Wait (base_ms : N) (jitter : N).   (* [base + Math.random() * 2000] *)

(** [error.message?.includes('429') ||
    error.message?.includes('RESOURCE_EXHAUSTED')] *)
Definition isRateLimit (message : option string) : bool :=
  match message with
  | Some m => includes m "429" || includes m "RESOURCE_EXHAUSTED"
  | None => false
  end.

(** [`data:audio/wav;base64,${base64Audio}`] *)
Definition data_url (base64Audio : string) : string :=
  "data:audio/wav;base64," ++ base64Audio.

(** [for (let i = 0; i < retries; i++)]; [left] is [retries - i]. *)
Fixpoint generateAudio_from (tts : nat -> Reply) (draw : nat -> N)
    (retries i left : nat) : option string * list Event :=
  match left with
  | 0 => (None, [])
  | S left' =>
      match tts i with
      | Answered base64Audio =>
          (match base64Audio with
           | Some d => if truthy d then Some (data_url d) else None
           | None => None
           end, [Call i])
      | Failed message =>
          if isRateLimit message && (i <? retries - 1)%nat then
            let (result, later) :=
              generateAudio_from tts draw retries (S i) left' in
            (result,
             Call i :: Wait (2 ^ N.of_nat i * 5000)%N (draw i) :: later)
          else (None, [Call i])
      end
  end.

Definition generateAudio (tts : nat -> Reply) (draw : nat -> N)
    (retries : nat) : option string * list Event :=
  generateAudio_from tts draw retries 0 retries.

End Narration.

(* ================================================================== *)
(** * [fetchWithRetry] with its requests and pauses, [mergeVideos]     *)
(* ================================================================== *)

Module Retry.
Import Http.

Inductive Event : Type :=
| Fetch (i : nat)
(* [setTimeout] of [base_ms], plus [Math.random() * 1000] after a status *)
| Pause (base_ms : N) (jitter : option N).

(** [fetchWithRetry] as in [Client], keeping what it does. *)
Fixpoint fetchWithRetry_from (attempt : nat -> Try Response)
    (draw : nat -> N) (i left : nat) : Try Response * list Event :=
  match left with
  | 0 => (Throw, [])
  | S left' =>
      match attempt i with
      | Ok response =>
          if (status response =? 429)%nat
             || ((500 <=? status response)%nat
                 && (i <? Client.maxRetries - 1)%nat)
          then
            let (result, later) :=
              fetchWithRetry_from attempt draw (S i) left' in
            (result,
             Fetch i
             :: Pause (2 ^ N.of_nat i * 2000)%N (Some (draw i)) :: later)
          else (Ok response, [Fetch i])
      | Throw =>
          let (result, later) :=
            fetchWithRetry_from attempt draw (S i) left' in
          if (i <? Client.maxRetries - 1)%nat
          then (result,
                Fetch i :: Pause (2 ^ N.of_nat i * 2000)%N None :: later)
          else (result, Fetch i :: later)
      end
  end.

Definition fetchWithRetry (attempt : nat -> Try Response) (draw : nat -> N)
  : Try Response * list Event :=
  fetchWithRetry_from attempt draw 0 Client.maxRetries.

(** [mergeVideos(videoUrls, audioUrls)] of the front end; [fetched] is the
    outcome of the POST and of [response.json()]. *)
Definition mergeVideos (fetched : Try Response) : option string :=
  match fetched with
  | Ok response => if negb (ok response) then None else data_url response
  | Throw => None
  end.

End Retry.

(* ================================================================== *)
(** * The earlier front-end helpers (no retry, no status check)        *)
(* ================================================================== *)

Module OldClient.
Import Http.

(** [generateSceneVideo]: [data.url] of whatever the server answered. *)
Definition generateSceneVideo (fetched : Try Response) : option string :=
  match fetched with
  | Ok response => data_url response
  | Throw => None
  end.

(** [verifyVideo]: [data.valid], a missing field being falsy. *)
Definition verifyVideo (fetched : Try Response) : bool :=
  match fetched with
  | Ok response => data_valid response
  | Throw => false
  end.

(** [mergeVideos(videoUrls)] *)
Definition mergeVideos (fetched : Try Response) : option string :=
  match fetched with
  | Ok response => data_url response
  | Throw => None
  end.

End OldClient.

(* ================================================================== *)
(** * Scene editing: [handleRegenerateScene], [handleUpdateKeywords]   *)
(* ================================================================== *)

Module Editing.
Import App.

(** Scene objects live in a store and arrays hold references to them:
    [[...currentShort.scenes]] copies the references, an assignment to
    [updatedScenes[i].videoUrl] changes the object every array shares. *)
Definition Ref : Type := nat.
Definition Store : Type := Ref -> Scene.

Definition write (store : Store) (r : Ref) (scene : Scene) : Store :=
  fun r' => if (r' =? r)%nat then scene else store r'.

(** [scene.imagePrompt = keywords] *)
Definition with_imagePrompt (s : Scene) (keywords : string) : Scene :=
  mkScene keywords (narration s) (overlayText s) (videoUrl s).

(** How a handler ends. *)
Inductive Ending : Type :=
| Returned                      (* ran to its end, or returned early *)
| Uncaught.                     (* a TypeError left the handler *)

(** [handleRegenerateScene(index)] on the scenes [currentShort] refers
    to.  Reading [updatedScenes[index].imagePrompt] of a missing element
    throws inside the [try] and is caught. *)
Definition handleRegenerateScene (sv : Services) (store : Store)
    (currentShort : option (list Ref)) (index : nat) : M Store :=
  match currentShort with
  | None => ret store
  | Some scenes =>
      let updatedScenes := scenes in
      match nth_error updatedScenes index with
      | None => ret store
      | Some r =>
          bind (call_generateSceneVideo sv index (imagePrompt (store r)))
               (fun videoUrl =>
                  match videoUrl with
                  | Some url =>
                      if truthy url
                      then ret (write store r (with_videoUrl (store r) url))
                      else ret store
                  | None => ret store
                  end)
      end
  end.

(** [handleUpdateKeywords]: the assignment to the scene's prompt stands
    outside any [try]; the regeneration it starts runs on the same
    references. *)
Definition handleUpdateKeywords (sv : Services) (store : Store)
    (currentShort : option (list Ref)) (activeSceneIndex : nat)
    (editingKeywords : string) : M (Store * Ending) :=
  match currentShort with
  | None => ret (store, Returned)
  | Some scenes =>
      let updatedScenes := scenes in
      match nth_error updatedScenes activeSceneIndex with
      | None => ret (store, Uncaught)
      | Some r =>
          let store1 :=
            write store r (with_imagePrompt (store r) editingKeywords) in
          bind (handleRegenerateScene sv store1 currentShort
                                      activeSceneIndex)
               (fun store2 => ret (store2, Returned))
      end
  end.

End Editing.

(* ================================================================== *)
(** * More vocabulary of the statements                                *)
(* ================================================================== *)

Module RetrySpec.
Import Http.

(** An attempt after which [fetchWithRetry] goes on to the next
    iteration: the request threw, was answered 429, or was answered a
    status from 500 on before the last iteration. *)
Definition retried (i : nat) (outcome : Try Response) : Prop :=
  match outcome with
  | Throw => True
  | Ok r => status r = 429 \/ (500 <= status r /\ i < 2)
  end.

(** The pause that follows the failed attempt [i]. *)
Definition pause_after (draw : nat -> N) (i : nat) (outcome : Try Response)
  : Retry.Event :=
  match outcome with
  | Ok _ => Retry.Pause (2 ^ N.of_nat i * 2000)%N (Some (draw i))
  | Throw => Retry.Pause (2 ^ N.of_nat i * 2000)%N None
  end.

(** The attempts before attempt [n], each followed by its pause. *)
Definition failed_rounds (attempt : nat -> Try Response) (draw : nat -> N)
    (n : nat) : list Retry.Event :=
  flat_map (fun k => [Retry.Fetch k; pause_after draw k (attempt k)])
           (seq 0 n).

(** The pause after a last attempt that was answered 429. *)
Definition last_pause (draw : nat -> N) (n : nat) (outcome : Try Response)
  : list Retry.Event :=
  match outcome with
  | Ok r =>
      if (n =? 2)%nat && (status r =? 429)%nat
      then [Retry.Pause 8000%N (Some (draw 2))] else []
  | Throw => []
  end.

(** Milliseconds paused, the random part left out. *)
Fixpoint paused (evs : list Retry.Event) : N :=
  match evs with
  | [] => 0%N
  | Retry.Pause base_ms _ :: rest => (base_ms + paused rest)%N
  | Retry.Fetch _ :: rest => paused rest
  end.

End RetrySpec.

Module NarrationSpec.
Import Narration.

(** The rate-limited calls before call [n], each followed by its wait. *)
Definition limited_rounds (draw : nat -> N) (n : nat) : list Event :=
  flat_map (fun k => [Call k; Wait (2 ^ N.of_nat k * 5000)%N (draw k)])
           (seq 0 n).

(** What the function returns after the answer [reply] ended the loop. *)
Definition delivered (reply : Reply) : option string :=
  match reply with
  | Answered (Some d) => if truthy d then Some (data_url d) else None
  | Answered None | Failed _ => None
  end.

End NarrationSpec.

Module MergeTrace.
Import Merge.

(** The scene a step of a merge job works on. *)
Definition step_scene (s : Step) : option nat :=
  match s with
  | DownloadVideo i _ | DecodeAudio i | DownloadAudio i _
  | Probe i | Encode i _ => Some i
  | Mkdir _ | Concat _ => None
  end.

(** The audio step of scene [i]: decoding an inline payload, or a
    download. *)
Definition audio_step (i : nat) (audioUrl : Elem) : list Step :=
  match audioUrl with
  | ENotString => []
  | EString a =>
      if startsWith a "data:" then [DecodeAudio i]
      else [DownloadAudio i audioUrl]
  end.

(** The steps of scene [i] when all of them succeed, [d] being what the
    probe reported. *)
Definition scene_steps (i : nat) (videoUrl audioUrl : Elem)
    (d : option Seconds) : list Step :=
  (DownloadVideo i videoUrl :: audio_step i audioUrl
   ++ [Probe i; Encode i (duration_or_zero d)])%list.

(** What the probe reported for the narration of scene [i]. *)
Definition probed (t : Tools) (i : nat) : option Seconds :=
  match ffprobe t (RawAudio i) with
  | Ok d => d
  | Throw => None
  end.

(** The steps of the scenes from index [i] on, all succeeding. *)
Fixpoint all_scene_steps (t : Tools) (i : nat) (pairs : list (Elem * Elem))
  : list Step :=
  match pairs with
  | [] => []
  | (v, a) :: rest =>
      (scene_steps i v a (probed t i) ++ all_scene_steps t (S i) rest)%list
  end.

Definition is_download (i : nat) (s : Legacy.Step) : bool :=
  match s with
  | Legacy.Download k _ => (k =? i)%nat
  | _ => false
  end.

Definition is_skip (i : nat) (s : Legacy.Step) : bool :=
  match s with
  | Legacy.Skip k => (k =? i)%nat
  | _ => false
  end.

(** A step of the second variant that belongs to the download of clip
    [i]. *)
Definition of_clip (i : nat) (s : Legacy.Step) : bool :=
  is_download i s || is_skip i s.

(** The attempts made for clip [i]: they stop at the first one that
    succeeds, and the clip is skipped after the third failure. *)
Definition attempts_of (t : Legacy.Tools) (i : nat) : list Legacy.Step :=
  if Legacy.download t i 1 then [Legacy.Download i 1]
  else if Legacy.download t i 2
  then [Legacy.Download i 1; Legacy.Download i 2]
  else if Legacy.download t i 3
  then [Legacy.Download i 1; Legacy.Download i 2; Legacy.Download i 3]
  else [Legacy.Download i 1; Legacy.Download i 2; Legacy.Download i 3;
        Legacy.Skip i].

End MergeTrace.

Module AppTrace.
Import App.

Definition is_delay (e : Event) : bool :=
  match e with Delay _ => true | _ => false end.

Definition is_verify (e : Event) : bool :=
  match e with Verify _ _ _ => true | _ => false end.

(** Number of pauses among the events. *)
Definition delays (evs : list Event) : nat :=
  List.length (filter is_delay evs).

(** Number of [verifyVideo] calls among the events. *)
Definition verify_calls (evs : list Event) : nat :=
  List.length (filter is_verify evs).

(** Every [generateSceneVideo] call of the events comes right after a
    pause; [rested] tells whether the first one may come without. *)
Fixpoint paced (rested : bool) (evs : list Event) : bool :=
  match evs with
  | [] => true
  | Delay _ :: rest => paced true rest
  | Resolve _ _ _ :: rest => rested && paced false rest
  | _ :: rest => paced false rest
  end.

(** A pause of the generation loop lasts two seconds. *)
Definition standard_delay (e : Event) : Prop :=
  forall ms, e = Delay ms -> ms = 2000.

(** Scene [k] holds a clip that the check number [offset + k] of the
    session accepts. *)
Definition holds_valid_clip (sv : Services) (offset : nat)
    (scenes : list Scene) : Prop :=
  forall k scene,
    nth_error scenes k = Some scene ->
    exists u, videoUrl scene = Some u /\ u <> ""
              /\ verifyVideo sv (offset + k) u = true.

(** The checks of an export in which every stored clip verifies. *)
Fixpoint passed_checks (i : nat) (scenes : list Scene) : list Event :=
  match scenes with
  | [] => []
  | scene :: rest =>
      match videoUrl scene with
      | Some url => Verify i url true :: passed_checks (S i) rest
      | None => passed_checks (S i) rest
      end
  end.

End AppTrace.

Module MoreSamples.

(** A text-to-speech service that is rate limited twice and then
    answers. *)
Definition throttled_tts (i : nat) : Narration.Reply :=
  if (i <? 2)%nat
  then Narration.Failed (Some "429 Too Many Requests")
  else Narration.Answered (Some "UklGRg==").

(** A server that answers 503 twice and then a clip. *)
Definition flaky_server (i : nat) : Try Http.Response :=
  if (i <? 2)%nat
  then Ok (Http.status_json 503 (Http.BError "busy"))
  else Ok (Http.json (Http.BUrl "https://cdn.example.com/c.mp4")).

(** A store with the same scene object at every address. *)
Definition one_scene_store : Editing.Store :=
  fun _ => Samples.stale_scene.

(** Services whose resolver answers with the prompt it was given. *)
Definition echo_services : App.Services :=
  App.mkServices (fun _ prompt => Some ("https://cdn.example.com/" ++ prompt))
                 (fun _ _ => true) (fun _ => None) true.

End MoreSamples.

(* ================================================================== *)
(** * Proof steps shared by the case analyses                          *)
(* ================================================================== *)

(** Split on every answer of the services that the goal still waits
    for. *)
Ltac split_calls sv :=
  repeat
    (match goal with
     | |- context [match App.generateSceneVideo sv ?k ?q with _ => _ end] =>
         destruct (App.generateSceneVideo sv k q) eqn:?
     | |- context [if truthy ?u then _ else _] =>
         destruct (truthy u) eqn:?
     | |- context [if App.verifyVideo sv ?k ?u then _ else _] =>
         destruct (App.verifyVideo sv k u) eqn:?
     | |- context [if negb (App.verifyVideo sv ?k ?u) then _ else _] =>
         destruct (App.verifyVideo sv k u) eqn:?
     end; cbn).

(** The log of the goal is the old log followed by the events just
    emitted. *)
Ltac log_tail :=
  eexists; split;
  [ cbn [App.log]; rewrite <- ?app_assoc; cbn [app]; reflexivity | ].

(* ================================================================== *)
(** * Properties                                                       *)
(* ================================================================== *)

(** ** Strings and the content classifier *)

Lemma truthy_true_iff (s : string) : truthy s = true <-> s <> "".
Proof.
  unfold truthy. rewrite negb_true_iff. apply String.eqb_neq.
Qed.

Lemma truthy_false_iff (s : string) : truthy s = false <-> s = "".
Proof.
  unfold truthy. rewrite negb_false_iff. apply String.eqb_eq.
Qed.

Section ClassifierFacts.
Import Http Classifier.
Variable net : string -> Try HeadReply.

Lemma axios_head_ok (url : string) (r : HeadReply) :
  axios_head net url = Ok r <->
  net url = Ok r /\ 200 <= head_status r < 300.
Proof.
  unfold axios_head. destruct (net url) as [r'|];
    [| split; [discriminate | intros [H _]; discriminate]].
  destruct ((200 <=? head_status r') && (head_status r' <? 300))%nat eqn:Hc.
  - apply andb_true_iff in Hc. rewrite Nat.leb_le, Nat.ltb_lt in Hc. split.
    + intros H. injection H as <-. auto.
    + intros [H _]. exact H.
  - split; [discriminate|]. intros [H Hr]. injection H as <-.
    apply andb_false_iff in Hc. rewrite Nat.leb_gt, Nat.ltb_ge in Hc. lia.
Qed.

Lemma verify_video_valid (url : string) :
  data_valid (verify_video net url) = true <->
  url <> "" /\
  exists r, net url = Ok r /\ head_status r = 200
            /\ isVideo (contentType_of r) url = true.
Proof.
  unfold verify_video, data_valid, json, status_json.
  destruct (truthy url) eqn:Hurl; simpl.
  - apply truthy_true_iff in Hurl.
    destruct (axios_head net url) as [r|] eqn:Hax; simpl.
    + apply axios_head_ok in Hax. destruct Hax as [Hnet Hrange].
      rewrite andb_true_iff, Nat.eqb_eq. split.
      * intros [Hv Hs]. split; [exact Hurl|]. exists r. auto.
      * intros [_ [r' [Hnet' [Hs Hv]]]].
        rewrite Hnet in Hnet'. injection Hnet' as <-. auto.
    + split; [discriminate|].
      intros [_ [r [Hnet [Hs Hv]]]].
      assert (Hok : axios_head net url = Ok r)
        by (apply axios_head_ok; split; [exact Hnet | lia]).
      congruence.
  - apply truthy_false_iff in Hurl. split; [discriminate|].
    intros [Hne _]. contradiction.
Qed.

Lemma verify_video_status (url : string) :
  ok (verify_video net url) = true <-> url <> "".
Proof.
  unfold verify_video, ok, json, status_json.
  destruct (truthy url) eqn:Hurl; simpl.
  - apply truthy_true_iff in Hurl.
    destruct (axios_head net url); simpl; split; auto.
  - apply truthy_false_iff in Hurl. split; [discriminate | congruence].
Qed.

End ClassifierFacts.

Lemma prefix_app (p s : string) :
  String.prefix p s = true <-> exists post, s = p ++ post.
Proof.
  revert s. induction p as [|c p IH]; intros s.
  - split; [intros _; exists s; reflexivity
           | intros _; destruct s; reflexivity].
  - destruct s as [|d s]; simpl.
    + split; [discriminate | intros [post H]; discriminate].
    + destruct (Ascii.ascii_dec c d) as [->|Hcd].
      * rewrite IH. split; intros [post H]; exists post.
        -- rewrite H. reflexivity.
        -- injection H as H. exact H.
      * split; [discriminate|]. intros [post H]. injection H as H _.
        congruence.
Qed.

Lemma includes_eq (s search : string) :
  includes s search =
  if String.prefix search s then true
  else match s with
       | EmptyString => false
       | String _ rest => includes rest search
       end.
Proof. destruct s; reflexivity. Qed.

Lemma includes_app (s search : string) :
  includes s search = true <-> exists pre post, s = pre ++ search ++ post.
Proof.
  induction s as [|c s IH]; rewrite includes_eq.
  - destruct (String.prefix search "") eqn:Hp.
    + split; [intros _|reflexivity].
      apply prefix_app in Hp. destruct Hp as [post H].
      exists "", post. exact H.
    + split; [discriminate|]. intros [pre [post H]].
      destruct pre; [|discriminate]. simpl in H.
      assert (String.prefix search "" = true)
        by (apply prefix_app; exists post; exact H).
      congruence.
  - destruct (String.prefix search (String c s)) eqn:Hp.
    + split; [intros _|reflexivity].
      apply prefix_app in Hp. destruct Hp as [post H].
      exists "", post. exact H.
    + rewrite IH. split.
      * intros [pre [post H]]. exists (String c pre), post.
        rewrite H. reflexivity.
      * intros [pre [post H]]. destruct pre as [|d pre].
        -- simpl in H.
           assert (String.prefix search (String c s) = true)
             by (apply prefix_app; exists post; exact H).
           congruence.
        -- injection H as _ H. exists pre, post. exact H.
Qed.

Section ClassifierClaim.
Import Http Classifier.

Lemma verifyVideo_true (link_up : bool) (net : string -> Try HeadReply)
    (url : string) :
  verifyVideo link_up net url = true <->
  link_up = true /\ url <> "" /\
  exists r, net url = Ok r /\ head_status r = 200
            /\ isVideo (contentType_of r) url = true.
Proof.
  unfold verifyVideo, verifyVideo_of. destruct link_up.
  - destruct (ok (verify_video net url)) eqn:Hok; simpl.
    + rewrite verify_video_valid. apply verify_video_status in Hok.
      tauto.
    + split; [discriminate|]. intros [_ [Hne _]].
      apply (verify_video_status net) in Hne. congruence.
  - split; [discriminate | intros [H _]; discriminate].
Qed.

(** C5, as stated, fails: a page whose URL merely contains [.mp4] in
    its query string is classified as a video, although its media type
    is not a video type and its path has no video extension. *)
Lemma C5_substring_is_not_extension :
  verifyVideo true Samples.page_host "https://example.com/watch?file=.mp4"
  = true
  /\ spec_classify Samples.page_host "https://example.com/watch?file=.mp4"
     = false.
Proof. split; reflexivity. Qed.

(** C5 (amended): the classifier is a total function that never throws;
    it answers [true] exactly when the request reaches the server, the URL
    is not empty, the HEAD request is answered with status 200, and the
    declared media type contains [video] or the URL contains [.mp4] or
    [.webm] anywhere; an empty URL, a network failure or timeout, a
    status other than 200, and a non-video type on a URL without these
    substrings all yield [false]. *)
Theorem C5_classifier_total_and_exact :
  forall (link_up : bool) (net : string -> Try HeadReply) (url : string),
    (verifyVideo link_up net url = true <->
     link_up = true /\ url <> "" /\
     exists r, net url = Ok r /\ head_status r = 200 /\
               (includes (contentType_of r) "video" = true
                \/ includes url ".mp4" = true
                \/ includes url ".webm" = true))
    /\ (url = "" -> verifyVideo link_up net url = false)
    /\ (net url = Throw -> verifyVideo link_up net url = false)
    /\ (forall r, net url = Ok r -> head_status r <> 200 ->
                  verifyVideo link_up net url = false)
    /\ (forall r, net url = Ok r ->
                  includes (contentType_of r) "video" = false ->
                  includes url ".mp4" = false ->
                  includes url ".webm" = false ->
                  verifyVideo link_up net url = false).
Proof.
  intros link_up net url.
  assert (Hiff := verifyVideo_true link_up net url).
  assert (Hfalse : forall P : Prop,
             (P -> ~ (link_up = true /\ url <> "" /\
                      exists r, net url = Ok r /\ head_status r = 200
                                /\ isVideo (contentType_of r) url = true)) ->
             P -> verifyVideo link_up net url = false).
  { intros P HP p. apply not_true_is_false. rewrite Hiff. exact (HP p). }
  split; [|repeat split].
  - rewrite Hiff. unfold isVideo.
    split; intros [Hl [Hu [r [Hn [Hs Hv]]]]];
      (split; [exact Hl | split; [exact Hu | exists r; repeat split; auto]]).
    + rewrite !orb_true_iff in Hv. tauto.
    + rewrite !orb_true_iff. tauto.
  - apply Hfalse. intros -> [_ [Hne _]]. congruence.
  - apply Hfalse. intros Hn [_ [_ [r [Hn' _]]]]. congruence.
  - intros r Hn Hs. revert Hn. apply Hfalse.
    intros Hn [_ [_ [r' [Hn' [Hs' _]]]]]. congruence.
  - intros r Hn H1 H2 H3. revert Hn. apply Hfalse.
    intros Hn [_ [_ [r' [Hn' [_ Hv]]]]].
    rewrite Hn in Hn'. injection Hn' as <-.
    unfold isVideo in Hv. rewrite H1, H2, H3 in Hv. discriminate.
Qed.

Lemma C5_classifier_witness :
  verifyVideo true Samples.video_host "https://cdn.example.com/clip" = true
  /\ verifyVideo true Samples.video_host "" = false.
Proof.
  split.
  - apply (proj1 (C5_classifier_total_and_exact
                    true Samples.video_host "https://cdn.example.com/clip")).
    split; [reflexivity|]. split; [discriminate|].
    exists (mkHead 200 (Some "video/mp4")).
    split; [reflexivity|]. split; [reflexivity|]. left. reflexivity.
  - apply (proj1 (proj2 (C5_classifier_total_and_exact
                           true Samples.video_host ""))).
    reflexivity.
Defined.
End ClassifierClaim.

(** ** Scene clip resolution *)

Lemma random_numerator_lt (d : N) : (random_numerator d < 2 ^ 53)%N.
Proof. unfold random_numerator, RANDOM_SCALE. apply N.mod_lt. discriminate. Qed.

Lemma random_index_lt (d : N) (n : nat) : 0 < n -> random_index d n < n.
Proof.
  intros Hn. unfold random_index.
  assert (H := random_numerator_lt d).
  assert (Hq : (random_numerator d * N.of_nat n / RANDOM_SCALE < N.of_nat n)%N).
  { apply N.Div0.div_lt_upper_bound. unfold RANDOM_SCALE. nia. }
  lia.
Qed.

Lemma random_index_slot (d : N) (k : nat) :
  random_index d 8 = k <->
  (N.of_nat k * 2 ^ 50 <= random_numerator d < (N.of_nat k + 1) * 2 ^ 50)%N.
Proof.
  unfold random_index.
  assert (H := random_numerator_lt d).
  set (m := random_numerator d) in *.
  change (N.of_nat 8) with 8%N.
  assert (Hdiv : (m * 8 / RANDOM_SCALE = m / 2 ^ 50)%N).
  { unfold RANDOM_SCALE. change (2 ^ 53)%N with (8 * 2 ^ 50)%N.
    rewrite (N.mul_comm m 8). apply N.Div0.div_mul_cancel_l. discriminate. }
  rewrite Hdiv.
  assert (Hq := N.Div0.div_mod m (2 ^ 50)).
  assert (Hr : (m mod 2 ^ 50 < 2 ^ 50)%N) by (apply N.mod_lt; discriminate).
  set (q := (m / 2 ^ 50)%N) in *. set (r := (m mod 2 ^ 50)%N) in *.
  split.
  - intros <-. rewrite N2Nat.id. lia.
  - intros [Hlo Hhi]. assert (q = N.of_nat k) by nia. subst q. lia.
Qed.

Section SearchFacts.
Import Http Adapters Search.

Lemma fallbacks_length : List.length fallbacks = 8.
Proof. reflexivity. Qed.

Lemma fallbacks_truthy : forall u, In u fallbacks -> u <> "".
Proof.
  intros u Hin. unfold fallbacks in Hin. simpl in Hin.
  repeat (destruct Hin as [<-|Hin]; [discriminate|]). contradiction.
Qed.

Lemma fallbacks_NoDup : NoDup fallbacks.
Proof.
  apply (NoDup_nth_error fallbacks).
  intros i j Hi Hij. rewrite fallbacks_length in Hi.
  assert (Hj : j < 8).
  { rewrite <- fallbacks_length. apply nth_error_Some. rewrite <- Hij.
    apply nth_error_Some. rewrite fallbacks_length. exact Hi. }
  do 8 (destruct i as [|i]; [ do 8 (destruct j as [|j]; [ first [reflexivity | discriminate Hij] |]); lia |]).
  lia.
Qed.

Lemma randomFallback_some (d : N) :
  exists u, randomFallback d = Some u /\ In u fallbacks /\ u <> "".
Proof.
  unfold randomFallback, at_index.
  assert (Hlt : random_index d (List.length fallbacks) < List.length fallbacks)
    by (apply random_index_lt; rewrite fallbacks_length; lia).
  destruct (nth_error fallbacks (random_index d (List.length fallbacks)))
    as [u|] eqn:Hu.
  - exists u. assert (In u fallbacks) by (eapply nth_error_In; eauto).
    auto using fallbacks_truthy.
  - apply nth_error_None in Hu. lia.
Qed.

Variable run : Source -> string -> Try (option string).

Lemma search_loop_found (terms : list string) (u : string) (calls : list Call) :
  search_loop run terms = (Found u, calls) -> u <> "".
Proof.
  revert calls. induction terms as [|term rest IH]; intros calls; simpl.
  - discriminate.
  - destruct (truthy term); simpl; [|apply IH].
    destruct (round run term) as [[validUrl|] started].
    + destruct validUrl as [v|].
      * destruct (truthy v) eqn:Hv.
        -- intros H. injection H as <- _. apply truthy_true_iff. exact Hv.
        -- destruct (search_loop run rest) as [r later].
           intros H. injection H as -> _. eapply IH. reflexivity.
      * destruct (search_loop run rest) as [r later].
        intros H. injection H as -> _. eapply IH. reflexivity.
    + discriminate.
Qed.

Lemma promise_all_absent (outcomes : list (Try (option string))) :
  (forall o, In o outcomes -> o = Ok None) ->
  promise_all outcomes = Ok (map (fun _ => None) outcomes).
Proof.
  induction outcomes as [|o rest IH]; intros H; simpl.
  - reflexivity.
  - rewrite (H o (or_introl eq_refl)). rewrite IH; [reflexivity|].
    intros o' Ho'. apply H. right. exact Ho'.
Qed.

Lemma find_not_null_absent {A} (xs : list A) :
  find not_null (map (fun _ => None) xs) = None.
Proof. induction xs; simpl; auto. Qed.

Lemma round_absent (term : string) :
  (forall s, In s sources -> run s term = Ok None) ->
  round run term = (Ok None, map (fun s => (s, term)) sources).
Proof.
  intros H. unfold round.
  rewrite promise_all_absent.
  - rewrite map_map. rewrite find_not_null_absent. reflexivity.
  - intros o Ho. apply in_map_iff in Ho. destruct Ho as [s [<- Hs]].
    apply H. exact Hs.
Qed.

Lemma search_loop_exhausted (terms : list string) :
  (forall term s, In term terms -> In s sources -> run s term = Ok None) ->
  fst (search_loop run terms) = Exhausted.
Proof.
  induction terms as [|term rest IH]; intros H; simpl.
  - reflexivity.
  - assert (IH' : fst (search_loop run rest) = Exhausted).
    { apply IH. intros t s Ht Hs. apply H; [right; exact Ht | exact Hs]. }
    destruct (truthy term); simpl; [|exact IH'].
    rewrite round_absent.
    + destruct (search_loop run rest) as [r later]. exact IH'.
    + intros s Hs. apply H; [left; reflexivity | exact Hs].
Qed.

End SearchFacts.

Section ResolverClaim.
Import Http Adapters Search.

Lemma search_video_nonempty_query (b : Browser) (query : string) :
  query <> "" ->
  exists url,
    fst (search_video b query) = json (BUrl url) /\ url <> "".
Proof.
  intros Hq. unfold search_video, search_video_with.
  apply truthy_true_iff in Hq. rewrite Hq. cbn [negb].
  assert (Hcrit : critical_fallback <> "") by discriminate.
  destruct (launches b); cbn [negb fst]; [|eauto].
  destruct (search_loop (run (web b)) (variations query))
    as [[validUrl| |] calls] eqn:Hloop; cbn [fst].
  - exists validUrl. split; [reflexivity|].
    eapply search_loop_found. exact Hloop.
  - destruct (randomFallback_some (fallback_draw b)) as [u [Hu [_ Hne]]].
    rewrite Hu. cbn [fst]. eauto.
  - eauto.
Qed.

Lemma resolveSceneClip_delivers (b : Browser) (query url : string) :
  fst (search_video b query) = json (BUrl url) ->
  Client.resolveSceneClip b query = Some url.
Proof.
  intros H. unfold Client.resolveSceneClip, Client.generateSceneVideo,
    Client.fetchWithRetry. simpl. rewrite H. reflexivity.
Qed.

(** C1, as stated, fails: for the empty query the handler answers 400
    with no URL, and the front end gets [null]. *)
Lemma C1_empty_query_yields_no_url :
  fst (search_video Samples.quiet_browser "")
  = status_json 400 (BError "Query required")
  /\ Client.resolveSceneClip Samples.quiet_browser "" = None.
Proof. split; reflexivity. Qed.

(** C1 (amended): for every non-empty query the handler answers with a
    non-empty URL, which the front end receives; when the browser
    launched and every adapter returned no candidate for every variation,
    that URL is the member of the pool of eight distinct fallback clips
    selected by the random draw, and member [k] is selected by exactly
    the draws whose numerator lies in [[k * 2^50, (k + 1) * 2^50)], an
    eighth of the [2^53] equally likely values. *)
Theorem C1_resolution_total_for_nonempty_query :
  forall (b : Browser) (query : string),
    query <> "" ->
    exists url,
      fst (search_video b query) = json (BUrl url)
      /\ url <> ""
      /\ Client.resolveSceneClip b query = Some url
      /\ (launches b = true ->
          (forall term s, In term (variations query) -> In s sources ->
                          run (web b) s term = Ok None) ->
          randomFallback (fallback_draw b) = Some url
          /\ In url fallbacks
          /\ List.length fallbacks = 8
          /\ NoDup fallbacks
          /\ forall k, k < 8 ->
               (nth_error fallbacks k = Some url <->
                (N.of_nat k * 2 ^ 50 <= random_numerator (fallback_draw b)
                 < (N.of_nat k + 1) * 2 ^ 50)%N)).
Proof.
  intros b query Hq.
  destruct (search_video_nonempty_query b query Hq) as [url [Hresp Hne]].
  exists url. split; [exact Hresp|]. split; [exact Hne|].
  split; [apply resolveSceneClip_delivers; exact Hresp|].
  intros Hlaunch Habsent.
  assert (Hdraw : randomFallback (fallback_draw b) = Some url).
  { revert Hresp. unfold search_video, search_video_with.
    apply truthy_true_iff in Hq. rewrite Hq, Hlaunch. cbn [negb].
    assert (Hex := search_loop_exhausted (run (web b)) (variations query)
                     Habsent).
    destruct (search_loop (run (web b)) (variations query)) as [r calls].
    cbn [fst] in Hex. subst r.
    destruct (randomFallback (fallback_draw b)) as [u|]; cbn [fst].
    - unfold json. intros H. injection H as ->. reflexivity.
    - discriminate. }
  split; [exact Hdraw|].
  assert (Hin : In url fallbacks)
    by (eapply nth_error_In; exact Hdraw).
  split; [exact Hin|]. split; [apply fallbacks_length|].
  split; [apply fallbacks_NoDup|].
  intros k Hk. rewrite <- random_index_slot.
  unfold randomFallback, at_index in Hdraw.
  rewrite fallbacks_length in Hdraw. split.
  - intros Hnth. symmetry.
    apply (proj1 (NoDup_nth_error fallbacks) fallbacks_NoDup).
    + rewrite fallbacks_length. exact Hk.
    + congruence.
  - intros <-. exact Hdraw.
Qed.

Lemma C1_resolution_witness :
  exists url,
    fst (search_video Samples.quiet_browser "red fox") = json (BUrl url)
    /\ nth_error fallbacks 3 = Some url.
Proof.
  destruct (C1_resolution_total_for_nonempty_query
              Samples.quiet_browser "red fox") as [url [Hr [_ [_ Hfb]]]].
  - discriminate.
  - exists url. split; [exact Hr|].
    destruct Hfb as [_ [_ [_ [_ Hslot]]]].
    + reflexivity.
    + intros term s Hterm Hs. simpl in Hterm, Hs.
      repeat (destruct Hterm as [<-|Hterm];
              [repeat (destruct Hs as [<-|Hs]; [reflexivity|]); contradiction|]).
      contradiction.
    + apply (Hslot 3); [lia|]. vm_compute. split; [discriminate | reflexivity].
Defined.
End ResolverClaim.

(** ** Selection among the adapters *)

Section FanOut.
Import Http Adapters Search SearchSpec.
Variable run : Source -> string -> Try (option string).





End FanOut.

Section InTurn.
Import Http Legacy SearchSpec.
Variable run : Source -> string -> Try (option string).

Lemma try_in_turn_absent (term : string) (srcs : list Source) :
  (forall s, In s srcs -> run s term = Ok None) ->
  try_in_turn run term srcs = (Ok None, tried_for term srcs).
Proof.
  induction srcs as [|s srcs IH]; intros H; simpl.
  - reflexivity.
  - rewrite (H s (or_introl eq_refl)). simpl.
    rewrite IH; [reflexivity|]. intros s' Hs'. apply H. right. exact Hs'.
Qed.


Lemma legacy_search_loop_skips (skipped rest : list string) :
  (forall t s, In t skipped -> In s sources -> run s t = Ok None) ->
  search_loop run (skipped ++ rest)%list =
  (fst (search_loop run rest),
   (flat_map (fun t => tried_for t sources) (filter truthy skipped)
    ++ snd (search_loop run rest))%list).
Proof.
  induction skipped as [|t skipped IH]; intros H; simpl.
  - destruct (search_loop run rest). reflexivity.
  - assert (IH' := IH (fun t' s Ht' Hs => H t' s (or_intror Ht') Hs)).
    destruct (truthy t); simpl; [|exact IH'].
    assert (Hn : forall s, In s sources -> run s t = Ok None)
      by (intros s Hs; apply H; [left; reflexivity | exact Hs]).
    rewrite !Hn by (simpl; tauto). simpl.
    rewrite IH'. reflexivity.
Qed.

End InTurn.

Section SelectionClaim.
Import Http SearchSpec.



End SelectionClaim.

(** ** The denylist *)

Section Denylist.
Import Adapters DenylistSpec.

Lemma isWatermarked_false_clean (url : string) :
  isWatermarked url = false <-> clean url.
Proof.
  unfold isWatermarked, clean. split.
  - intros H word pre post Hin Heq.
    assert (Hex : existsb (fun w => includes (toLowerCase url) w) forbidden
                  = true).
    { apply existsb_exists. exists word. split; [exact Hin|].
      apply includes_app. exists pre, post. exact Heq. }
    congruence.
  - intros H. apply not_true_is_false. intros Hex.
    apply existsb_exists in Hex. destruct Hex as [word [Hin Hinc]].
    apply includes_app in Hinc. destruct Hinc as [pre [post Heq]].
    exact (H word pre post Hin Heq).
Qed.

Variable w : Web.

Lemma accept_ok (videoSrc : option string) (u : string) :
  accept videoSrc = Some u -> isWatermarked u = false.
Proof.
  unfold accept. destruct videoSrc as [s|]; [|discriminate].
  destruct (truthy s); simpl; [|discriminate].
  destruct (isWatermarked s) eqn:Hw; simpl; [discriminate|].
  intros H. injection H as <-. exact Hw.
Qed.

Lemma follow_same_page_ok (links : list string) (u : string) :
  follow_same_page w links = Some u -> isWatermarked u = false.
Proof.
  induction links as [|link rest IH]; simpl; [discriminate|].
  destruct (detail_src w link) as [videoSrc|]; [|discriminate].
  destruct (accept videoSrc) as [s|] eqn:Hacc; [|exact IH].
  intros H. injection H as <-. eapply accept_ok. exact Hacc.
Qed.

Lemma follow_detail_pages_ok (skip : bool) (links : list string)
    (u : string) :
  follow_detail_pages w skip links = Some u -> isWatermarked u = false.
Proof.
  induction links as [|link rest IH]; simpl; [discriminate|].
  destruct (skip && isWatermarked link); [exact IH|].
  destruct (detail_opens w link); simpl; [|discriminate].
  destruct (detail_src w link) as [videoSrc|]; [|exact IH].
  destruct (accept videoSrc) as [s|] eqn:Hacc; [|exact IH].
  intros H. injection H as <-. eapply accept_ok. exact Hacc.
Qed.

Lemma pick_In (d : N) (n : nat) (xs : list string) (u : string) :
  pick d n xs = Some u -> In u xs.
Proof. unfold pick, at_index. apply nth_error_In. Qed.

Lemma set_add_all_In (seen urls : list string) (u : string) :
  In u (set_add_all seen urls) -> In u seen \/ In u urls.
Proof.
  revert seen. induction urls as [|x rest IH]; intros seen; simpl.
  - auto.
  - destruct (existsb (String.eqb x) seen).
    + intros H. destruct (IH _ H); auto.
    + intros H. destruct (IH _ H) as [H'|H']; [|auto].
      apply in_app_or in H'. destruct H' as [H'|[<-|[]]]; auto.
Qed.

Lemma tryPexels_ok (term u : string) :
  tryPexels w term = Some u -> isWatermarked u = false.
Proof.
  unfold tryPexels. destruct (pexels_cards w term) as [cards|];
    [|discriminate].
  destruct (cards =? 0)%nat; [discriminate|].
  match goal with |- context [nonempty ?l] => destruct (nonempty l) end;
    [|discriminate].
  intros H. apply pick_In in H. apply set_add_all_In in H.
  destruct H as [[]|H]. apply in_map_iff in H.
  destruct H as [[url ct] [Hfst Hin]]. simpl in Hfst. subst url.
  apply filter_In in Hin. destruct Hin as [_ Hkeep].
  unfold pexels_keeps in Hkeep. rewrite !andb_true_iff in Hkeep.
  destruct Hkeep as [_ Hclean]. apply negb_true_iff. exact Hclean.
Qed.

Lemma tryVidevo_ok (term u : string) :
  tryVidevo w term = Some u -> isWatermarked u = false.
Proof.
  unfold tryVidevo. destruct (listing w Videvo term) as [srcs|];
    [|discriminate].
  destruct (nonempty srcs); [|discriminate].
  match goal with
  | |- context [if nonempty ?v then ?v else ?f] =>
      destruct (nonempty v);
      (match goal with
       | |- context [nonempty ?b] => destruct (nonempty b)
       end; [|discriminate])
  end; intros H; apply pick_In in H; apply filter_In in H;
    destruct H as [_ H].
  - rewrite !andb_true_iff in H. apply negb_true_iff. tauto.
  - apply negb_true_iff. exact H.
Qed.

Lemma tryMotionElements_ok (term u : string) :
  tryMotionElements w term = Some u -> isWatermarked u = false.
Proof.
  unfold tryMotionElements.
  destruct (listing w MotionElements term) as [srcs|]; [|discriminate].
  destruct (nonempty srcs); [|discriminate].
  match goal with |- context [nonempty ?l] => destruct (nonempty l) end;
    [|discriminate].
  intros H. apply pick_In in H. apply filter_In in H.
  apply negb_true_iff. tauto.
Qed.

(** Every candidate of an adapter of the first variant passed the
    denylist. *)
Lemma first_variant_candidates_pass_denylist (s : Source) (term u : string) :
  run w s term = Ok (Some u) -> isWatermarked u = false.
Proof.
  unfold run. destruct (opens w s term); [|discriminate].
  intros H. injection H as H. revert H.
  destruct s; simpl.
  - apply tryPexels_ok.
  - unfold tryCoverr. destruct (listing w Coverr term) as [l|];
      [|discriminate].
    destruct (nonempty l); [apply follow_same_page_ok | discriminate].
  - apply tryVidevo_ok.
  - unfold tryPixabay. destruct (listing w Pixabay term) as [l|];
      [|discriminate].
    destruct (nonempty l); [apply follow_detail_pages_ok | discriminate].
  - unfold tryMixkit. destruct (listing w Mixkit term) as [l|];
      [|discriminate].
    destruct (nonempty l); [apply follow_detail_pages_ok | discriminate].
  - unfold tryVidsplay. destruct (listing w Vidsplay term) as [l|];
      [|discriminate].
    destruct (nonempty l); [apply follow_same_page_ok | discriminate].
  - apply tryMotionElements_ok.
  - unfold trySplitShire. destruct (listing w SplitShire term) as [l|];
      [|discriminate].
    destruct l as [|link rest]; [discriminate|].
    destruct (detail_src w link); [apply accept_ok | discriminate].
  - unfold tryReddit. destruct (listing w Reddit term) as [l|];
      [|discriminate].
    destruct (nonempty l); discriminate.
Qed.

End Denylist.

Section DenylistOfFirstVariant.
Import Adapters DenylistSpec.

(** Every candidate URL returned by one of the nine adapters of the
    first server variant passed the denylist: its lower-cased form
    contains none of the markers. *)
Theorem first_variant_candidates_are_clean :
  forall (w : Web) (s : Source) (term u : string),
    run w s term = Ok (Some u) ->
    isWatermarked u = false /\ clean u.
Proof.
  intros w s term u H.
  assert (Hw := first_variant_candidates_pass_denylist w s term u H).
  split; [exact Hw|]. apply isWatermarked_false_clean. exact Hw.
Qed.

Lemma first_variant_clean_witness :
  isWatermarked "https://cdn.videvo.net/clip.mp4" = false
  /\ clean "https://cdn.videvo.net/clip.mp4".
Proof.
  apply (first_variant_candidates_are_clean
           Samples.videvo_web Videvo "sunset").
  reflexivity.
Defined.
End DenylistOfFirstVariant.

Section DenylistClaim.
Import Http Samples.

(** C9: the Pexels adapter of the second server variant returns a URL
    of a denylisted provider, which the handler then answers with; the
    adapter of the first variant rejects the same response. *)
Theorem C9_second_variant_returns_denylisted_url :
  Legacy.run legacy_marked_web Legacy.Pexels "sunset" = Ok (Some marked_clip)
  /\ Adapters.isWatermarked marked_clip = true
  /\ fst (Legacy.search_video true legacy_marked_web "sunset")
     = json (BUrl marked_clip)
  /\ Adapters.run marked_web Adapters.Pexels "sunset" = Ok None.
Proof. repeat split; reflexivity. Qed.
End DenylistClaim.

(** ** Assembly *)

Section MergeFacts.
Import Http Merge MergeSpec.
Variable t : Tools.

Lemma process_scene_ok (i : nat) (v a : Elem) :
  fst (process_scene t i v a) = true <-> steps_succeed t i v a.
Proof.
  unfold process_scene, steps_succeed.
  destruct (download t v (RawVideo i)); simpl.
  - destruct (fetch_audio t i a) as [got steps]. simpl.
    destruct got; simpl.
    + destruct (ffprobe t (RawAudio i)) as [d|]; simpl.
      * split.
        -- intros H. repeat split. exists d. auto.
        -- intros [_ [_ [d' [Hd He]]]]. injection Hd as <-. exact He.
      * split; [discriminate|]. intros [_ [_ [d' [Hd _]]]]. discriminate.
    + split; [discriminate|]. intros [_ [H _]]. discriminate.
  - split; [discriminate|]. intros [H _]. discriminate.
Qed.

Lemma process_scene_no_concat (i : nat) (v a : Elem) :
  forallb (fun s => negb (is_concat s)) (snd (process_scene t i v a)) = true.
Proof.
  unfold process_scene.
  assert (Ha : forallb (fun s => negb (is_concat s))
                       (snd (fetch_audio t i a)) = true).
  { unfold fetch_audio. destruct a as [s|]; [|reflexivity].
    destruct (startsWith s "data:"); [|reflexivity].
    destruct (base64Data s); reflexivity. }
  destruct (download t v (RawVideo i)); simpl; [|reflexivity].
  destruct (fetch_audio t i a) as [got steps]. simpl in Ha.
  destruct got; simpl.
  - destruct (ffprobe t (RawAudio i)); simpl;
      rewrite forallb_app, Ha; reflexivity.
  - exact Ha.
Qed.

Lemma scene_loop_no_concat (i : nat) (pairs : list (Elem * Elem)) :
  forallb (fun s => negb (is_concat s)) (snd (scene_loop t i pairs)) = true.
Proof.
  revert i. induction pairs as [|[v a] rest IH]; intros i; simpl.
  - reflexivity.
  - assert (Hp := process_scene_no_concat i v a).
    destruct (process_scene t i v a) as [[|] steps]; simpl in *.
    + specialize (IH (S i)).
      destruct (scene_loop t (S i) rest) as [[paths|] later]; simpl in *;
        rewrite forallb_app, Hp, IH; reflexivity.
    + exact Hp.
Qed.

Lemma scene_loop_ok (i : nat) (pairs : list (Elem * Elem)) :
  (forall k v a, nth_error pairs k = Some (v, a) ->
                 steps_succeed t (i + k) v a) ->
  fst (scene_loop t i pairs)
  = Ok (map SceneOutput (seq i (List.length pairs))).
Proof.
  revert i. induction pairs as [|[v a] rest IH]; intros i H; simpl.
  - reflexivity.
  - assert (H0 : fst (process_scene t i v a) = true).
    { apply process_scene_ok. specialize (H 0 v a eq_refl).
      rewrite Nat.add_0_r in H. exact H. }
    destruct (process_scene t i v a) as [ok steps]. simpl in H0. subst ok.
    assert (IH' := IH (S i)).
    destruct (scene_loop t (S i) rest) as [[paths|] later]; simpl in *.
    + f_equal. f_equal.
      assert (E : Ok paths = Ok (map SceneOutput (seq (S i) (List.length rest)))).
      { apply IH'. intros k v' a' Hk. specialize (H (S k) v' a' Hk).
        rewrite Nat.add_succ_r in H. exact H. }
      injection E as ->. reflexivity.
    + exfalso.
      assert (E : @Throw (list Path) = Ok (map SceneOutput (seq (S i) (List.length rest)))).
      { apply IH'. intros k v' a' Hk. specialize (H (S k) v' a' Hk).
        rewrite Nat.add_succ_r in H. exact H. }
      discriminate.
Qed.

Lemma scene_loop_fails (i : nat) (pairs : list (Elem * Elem))
    (k : nat) (v a : Elem) :
  nth_error pairs k = Some (v, a) ->
  ~ steps_succeed t (i + k) v a ->
  fst (scene_loop t i pairs) = Throw.
Proof.
  revert i k. induction pairs as [|[v0 a0] rest IH]; intros i k Hk Hfail.
  - destruct k; discriminate.
  - simpl.
    destruct (process_scene t i v0 a0) as [ok steps] eqn:Hp.
    destruct ok; [|reflexivity].
    destruct k as [|k].
    + simpl in Hk. injection Hk as -> ->. exfalso. apply Hfail.
      rewrite Nat.add_0_r. apply process_scene_ok. rewrite Hp. reflexivity.
    + simpl in Hk. rewrite Nat.add_succ_r in Hfail.
      specialize (IH (S i) k Hk Hfail).
      destruct (scene_loop t (S i) rest) as [[paths|] later];
        simpl in *; [discriminate | reflexivity].
Qed.
End MergeFacts.

Section MergeHandler.
Import Http Merge MergeSpec.
Variable t : Tools.

Lemma scene_loop_ok_inv (i : nat) (pairs : list (Elem * Elem))
    (paths : list Path) :
  fst (scene_loop t i pairs) = Ok paths ->
  forall k v a, nth_error pairs k = Some (v, a) ->
                steps_succeed t (i + k) v a.
Proof.
  intros Hok k v a Hk.
  destruct (fst (process_scene t (i + k) v a)) eqn:Hp.
  - apply process_scene_ok. exact Hp.
  - assert (Hfail : ~ steps_succeed t (i + k) v a).
    { intros H. apply process_scene_ok in H. congruence. }
    rewrite (scene_loop_fails t i pairs k v a Hk Hfail) in Hok.
    discriminate.
Qed.

Lemma merge_videos_accepts (videos audios : list Elem) :
  videos <> [] -> List.length audios = List.length videos ->
  merge_videos t (mkRequest (Items videos) (Items audios)) =
  (fst (run_job t (combine videos audios)),
   Mkdir (uuidv4 t) :: snd (run_job t (combine videos audios))).
Proof.
  intros Hne Hlen. unfold merge_videos. cbn [videoUrls audioUrls].
  rewrite Hlen, Nat.eqb_refl.
  destruct videos as [|v videos]; [contradiction|].
  cbn [List.length Nat.eqb negb].
  destruct (run_job t (combine (v :: videos) audios)). reflexivity.
Qed.

Lemma run_job_url (pairs : list (Elem * Elem)) (url : string) :
  data_url (fst (run_job t pairs)) = Some url <->
  url = final_url (uuidv4 t)
  /\ (forall k v a, nth_error pairs k = Some (v, a) ->
                    steps_succeed t k v a)
  /\ mergeToFile t (map SceneOutput (seq 0 (List.length pairs))) FinalOutput
     = true.
Proof.
  unfold run_job.
  destruct (scene_loop t 0 pairs) as [[paths|] steps] eqn:Hloop.
  - assert (Hall := scene_loop_ok_inv 0 pairs paths
                      ltac:(rewrite Hloop; reflexivity)).
    assert (Hpaths := scene_loop_ok t 0 pairs Hall).
    rewrite Hloop in Hpaths. simpl in Hpaths. injection Hpaths as ->.
    destruct (mergeToFile t _ FinalOutput); simpl.
    + split.
      * intros H. injection H as <-. auto.
      * intros [-> _]. reflexivity.
    + split; [discriminate|]. intros [_ [_ H]]. discriminate.
  - simpl. split; [discriminate|]. intros [_ [Hall _]].
    assert (Hpaths := scene_loop_ok t 0 pairs Hall).
    rewrite Hloop in Hpaths. discriminate.
Qed.

Lemma run_job_fails (pairs : list (Elem * Elem)) (k : nat) (v a : Elem) :
  nth_error pairs k = Some (v, a) ->
  ~ steps_succeed t k v a ->
  fst (run_job t pairs) = status_json 500 (BError "Merge job failed")
  /\ forallb (fun s => negb (is_concat s)) (snd (run_job t pairs)) = true.
Proof.
  intros Hk Hfail. unfold run_job.
  assert (Hthrow := scene_loop_fails t 0 pairs k v a Hk Hfail).
  assert (Hsteps := scene_loop_no_concat t 0 pairs).
  destruct (scene_loop t 0 pairs) as [[paths|] steps]; simpl in *;
    [discriminate|]. auto.
Qed.

Lemma run_job_response (pairs : list (Elem * Elem)) :
  fst (run_job t pairs) = json (BUrl (final_url (uuidv4 t)))
  \/ fst (run_job t pairs) = status_json 500 (BError "Merge job failed").
Proof.
  unfold run_job. destruct (scene_loop t 0 pairs) as [[paths|] steps].
  - destruct (mergeToFile t paths FinalOutput); auto.
  - auto.
Qed.
End MergeHandler.

Section LegacyMergeFacts.
Import Http Legacy MergeSpec.
Variable t : Tools.

Lemma download_attempts_fst (i attempts left : nat) :
  fst (download_attempts t i attempts left)
  = existsb (download t i) (seq (S attempts) left).
Proof.
  revert attempts. induction left as [|left IH]; intros attempts; simpl.
  - reflexivity.
  - destruct (download t i (S attempts)); simpl; [reflexivity|].
    specialize (IH (S attempts)).
    destruct (download_attempts t i (S attempts) left). exact IH.
Qed.

Lemma download_attempts_downloaded (i : nat) :
  fst (download_attempts t i 0 maxAttempts) = downloaded t i.
Proof.
  rewrite download_attempts_fst. unfold downloaded, maxAttempts. simpl.
  destruct (download t i 1), (download t i 2), (download t i 3);
    reflexivity.
Qed.

Lemma download_all_fst (i n : nat) :
  fst (download_all t i n) = filter (downloaded t) (seq i n).
Proof.
  revert i. induction n as [|n IH]; intros i; cbn [download_all seq filter].
  - reflexivity.
  - assert (Hd := download_attempts_downloaded i).
    destruct (download_attempts t i 0 maxAttempts) as [got steps].
    specialize (IH (S i)).
    destruct (download_all t (S i) n) as [paths later].
    cbn [fst] in *. subst got paths. reflexivity.
Qed.

Lemma normalize_all_fst (j n : nat) :
  fst (normalize_all t j n)
  = if forallb (normalize t) (seq j n) then Ok (seq j n) else Throw.
Proof.
  revert j. induction n as [|n IH]; intros j; simpl.
  - reflexivity.
  - destruct (normalize t j); simpl; [|reflexivity].
    specialize (IH (S j)).
    destruct (normalize_all t (S j) n) as [[paths|] later]; simpl in *;
      destruct (forallb (normalize t) (seq (S j) n)); congruence.
Qed.

Lemma legacy_run_job_url (videos : list Merge.Elem) (url : string) :
  data_url (fst (run_job t videos)) = Some url <->
  url = Merge.final_url (uuidv4 t)
  /\ filter (downloaded t) (seq 0 (List.length videos)) <> []
  /\ (forall j,
        j < List.length (filter (downloaded t) (seq 0 (List.length videos)))
        -> normalize t j = true)
  /\ mergeToFile t
       (seq 0 (List.length
                 (filter (downloaded t) (seq 0 (List.length videos)))))
     = true.
Proof.
  unfold run_job.
  assert (Hd := download_all_fst 0 (List.length videos)).
  destruct (download_all t 0 (List.length videos)) as [localPaths steps1].
  simpl in Hd. rewrite <- Hd. clear Hd.
  destruct localPaths as [|p localPaths]; simpl List.length.
  - simpl. split; [discriminate|]. intros [_ [H _]]. contradiction.
  - cbn [Nat.eqb].
    assert (Hn := normalize_all_fst 0 (S (List.length localPaths))).
    destruct (normalize_all t 0 (S (List.length localPaths)))
      as [[normalizedPaths|] steps2]; cbn [fst] in Hn.
    + destruct (forallb (normalize t) (seq 0 (S (List.length localPaths))))
        eqn:Hall; [|discriminate].
      injection Hn as ->.
      rewrite forallb_forall in Hall.
      destruct (mergeToFile t (seq 0 (S (List.length localPaths))))
        eqn:Hm; cbn [seq] in Hm |- *; rewrite Hm;
        cbn [fst data_url body json status_json].
      * split.
        -- intros H. injection H as <-. repeat split; try discriminate.
           intros j Hj. apply Hall. apply in_seq. lia.
        -- intros [-> _]. reflexivity.
      * split; [discriminate|]. intros [_ [_ [_ H]]]. discriminate.
    + destruct (forallb (normalize t) (seq 0 (S (List.length localPaths))))
        eqn:Hall; [discriminate|].
      cbn [fst data_url body json status_json].
      split; [discriminate|]. intros [_ [_ [Hnorm _]]].
      assert (forallb (normalize t) (seq 0 (S (List.length localPaths)))
              = true).
      { apply forallb_forall. intros j Hj. apply Hnorm.
        apply in_seq in Hj. lia. }
      congruence.
Qed.
End LegacyMergeFacts.

Section AssemblyClaims.
Import Http Merge MergeSpec Samples.

(** C4, as stated, fails on the second server variant: the second clip
    cannot be downloaded, is skipped after three attempts, and a final
    artifact made of the first clip alone is published. *)
Lemma C4_second_variant_publishes_partial_result :
  Legacy.merge_videos legacy_tools (mkRequest (Items two_clips)
                                              (Items two_audios)) =
  (json (BUrl "/temp/job-3/final_short_job-3.mp4"),
   [Legacy.Mkdir "job-3"; Legacy.Download 0 1;
    Legacy.Download 1 1; Legacy.Download 1 2; Legacy.Download 1 3;
    Legacy.Skip 1; Legacy.Normalize 0; Legacy.Concat [0]]).
Proof. reflexivity. Qed.

(** C4 (amended): for a request that passes the input check, the
    audio-synced merge handler answers with the artifact URL exactly when
    every step of every scene and the final concatenation succeed; when a
    step of any scene fails it answers 500 with an error, publishes no
    URL and never runs the concatenation.  The video-only handler of the
    second variant publishes a URL exactly when at least one clip was
    downloaded within three attempts and the normalisation of every
    downloaded clip and the concatenation succeed. *)
Theorem C4_all_or_nothing_in_audio_synced_assembly :
  forall (videos audios : list Elem),
    videos <> [] -> List.length audios = List.length videos ->
    (forall (t : Tools),
        let result :=
          merge_videos t (mkRequest (Items videos) (Items audios)) in
        (forall k v a,
            nth_error (combine videos audios) k = Some (v, a) ->
            ~ steps_succeed t k v a ->
            fst result = status_json 500 (BError "Merge job failed")
            /\ data_url (fst result) = None
            /\ forallb (fun s => negb (is_concat s)) (snd result) = true)
        /\ (forall url,
              data_url (fst result) = Some url <->
              url = final_url (uuidv4 t)
              /\ (forall k v a,
                    nth_error (combine videos audios) k = Some (v, a) ->
                    steps_succeed t k v a)
              /\ mergeToFile t
                   (map SceneOutput (seq 0 (List.length videos)))
                   FinalOutput = true)
        /\ (fst result = json (BUrl (final_url (uuidv4 t)))
            \/ fst result = status_json 500 (BError "Merge job failed")))
    /\
    (forall (t : Legacy.Tools) (url : string),
        let localPaths :=
          filter (downloaded t) (seq 0 (List.length videos)) in
        data_url (fst (Legacy.merge_videos
                         t (mkRequest (Items videos) (Items audios))))
        = Some url <->
        url = final_url (Legacy.uuidv4 t)
        /\ localPaths <> []
        /\ (forall j, j < List.length localPaths ->
                      Legacy.normalize t j = true)
        /\ Legacy.mergeToFile t (seq 0 (List.length localPaths)) = true).
Proof.
  intros videos audios Hne Hlen. split.
  - intros t result. subst result.
    rewrite (merge_videos_accepts t videos audios Hne Hlen). cbn [fst snd].
    assert (Hcomb : List.length (combine videos audios) = List.length videos).
    { rewrite length_combine. lia. }
    split; [|split].
    + intros k v a Hk Hfail.
      destruct (run_job_fails t _ k v a Hk Hfail) as [Hresp Hsteps].
      rewrite Hresp. repeat split. cbn [forallb is_concat negb andb].
      exact Hsteps.
    + intros url. rewrite run_job_url, Hcomb. reflexivity.
    + apply run_job_response.
  - intros t url localPaths. subst localPaths.
    unfold Legacy.merge_videos. cbn [videoUrls].
    destruct videos as [|v videos]; [contradiction|].
    cbn [List.length Nat.eqb].
    rewrite <- (legacy_run_job_url t (v :: videos) url).
    destruct (Legacy.run_job t (v :: videos)). reflexivity.
Qed.

Lemma C4_all_or_nothing_witness :
  fst (merge_videos bad_probe_tools
         (mkRequest (Items two_clips) (Items two_audios)))
  = status_json 500 (BError "Merge job failed")
  /\ data_url (fst (merge_videos good_tools
                      (mkRequest (Items two_clips) (Items two_audios))))
     = Some "/temp/job-1/final_short_job-1.mp4".
Proof.
  assert (Hne : two_clips <> []) by discriminate.
  assert (Hlen : List.length two_audios = List.length two_clips)
    by reflexivity.
  split.
  - apply (proj1 (proj1 (C4_all_or_nothing_in_audio_synced_assembly
                           two_clips two_audios Hne Hlen) bad_probe_tools)
             1 (EString "https://cdn.example.com/b.mp4")
             (EString "https://cdn.example.com/b.wav")).
    + reflexivity.
    + intros [_ [_ [d [Hd _]]]]. discriminate.
  - apply (proj1 (proj2 (proj1 (C4_all_or_nothing_in_audio_synced_assembly
                                  two_clips two_audios Hne Hlen)
                           good_tools))).
    split; [reflexivity|]. split; [|reflexivity].
    intros k v a Hk. unfold steps_succeed.
    split; [reflexivity|]. split.
    + destruct k as [|[|k]]; simpl in Hk.
      * injection Hk as <- <-. reflexivity.
      * injection Hk as <- <-. reflexivity.
      * destruct k; discriminate.
    + exists (Some 4200%N). split; reflexivity.
Defined.

Lemma well_formed_dec (req : Request) : well_formed req \/ ~ well_formed req.
Proof.
  destruct req as [vf af]. unfold well_formed. cbn [videoUrls audioUrls].
  destruct vf as [| |videos];
    try (right; intros [v [a [H _]]]; discriminate H).
  destruct af as [| |audios];
    try (right; intros [v [a [_ [H _]]]]; discriminate H).
  destruct videos as [|v videos].
  - right. intros [v' [a' [Hv [_ [Hne _]]]]]. injection Hv as <-.
    contradiction.
  - destruct (Nat.eq_dec (List.length audios) (List.length (v :: videos)))
      as [Hlen|Hlen].
    + left. exists (v :: videos), audios. repeat split; auto. discriminate.
    + right. intros [v' [a' [Hv [Ha [_ Hl]]]]].
      injection Hv as <-. injection Ha as <-. contradiction.
Qed.

Lemma merge_videos_rejects (t : Tools) (req : Request) :
  ~ well_formed req ->
  status (fst (merge_videos t req)) = 400
  /\ (exists message, body (fst (merge_videos t req)) = BError message)
  /\ snd (merge_videos t req) = [].
Proof.
  intros Hnot. unfold merge_videos.
  destruct req as [vf af]. cbn [videoUrls audioUrls].
  destruct vf as [| |videos]; try (cbn; eauto; fail).
  destruct (List.length videos =? 0)%nat eqn:Hzero;
    [cbn; eauto|].
  destruct af as [| |audios]; try (cbn; eauto; fail).
  destruct (List.length audios =? List.length videos)%nat eqn:Hlen;
    [|cbn; eauto].
  exfalso. apply Hnot. exists videos, audios.
  apply Nat.eqb_neq in Hzero. apply Nat.eqb_eq in Hlen.
  repeat split; auto. intros ->. apply Hzero. reflexivity.
Qed.

(** C8: a request whose clip array or audio array is missing, is not
    an array, is empty, or whose lengths differ is answered with status
    400 and an error before any work is done; the job directory is
    created, and work starts, only for two arrays of the same non-zero
    length. *)
Theorem C8_input_contract_checked_before_any_work :
  forall (t : Tools) (req : Request),
    (well_formed req ->
     status (fst (merge_videos t req)) <> 400
     /\ exists steps, snd (merge_videos t req) = Mkdir (uuidv4 t) :: steps)
    /\ (~ well_formed req ->
        status (fst (merge_videos t req)) = 400
        /\ (exists message, body (fst (merge_videos t req)) = BError message)
        /\ snd (merge_videos t req) = [])
    /\ (snd (merge_videos t req) <> [] -> well_formed req).
Proof.
  intros t req. split; [|split].
  - intros [videos [audios [Hv [Ha [Hne Hlen]]]]].
    destruct req as [vf af]. simpl in Hv, Ha. subst vf af.
    rewrite (merge_videos_accepts t videos audios Hne Hlen). cbn [fst snd].
    split; [|eexists; reflexivity].
    destruct (run_job_response t (combine videos audios)) as [-> | ->];
      discriminate.
  - apply merge_videos_rejects.
  - intros Hwork. destruct (well_formed_dec req) as [Hw|Hn]; [exact Hw|].
    destruct (merge_videos_rejects t req Hn) as [_ [_ Hnone]].
    contradiction.
Qed.

Lemma C8_input_contract_witness :
  (exists steps,
      snd (merge_videos good_tools
             (mkRequest (Items two_clips) (Items two_audios)))
      = Mkdir "job-1" :: steps)
  /\ merge_videos good_tools (mkRequest (Items two_clips) (Items []))
     = (status_json 400 (BError "Matching audioUrls array required"), []).
Proof.
  split.
  - destruct (proj1 (C8_input_contract_checked_before_any_work
                       good_tools
                       (mkRequest (Items two_clips) (Items two_audios))))
      as [_ Hsteps].
    + exists two_clips, two_audios. repeat split; [discriminate].
    + exact Hsteps.
  - destruct (proj1 (proj2 (C8_input_contract_checked_before_any_work
                              good_tools
                              (mkRequest (Items two_clips) (Items [])))))
      as [_ [_ Hnone]].
    + intros [v [a [Hv [Ha [_ Hlen]]]]].
      injection Hv as <-. injection Ha as <-. discriminate Hlen.
    + reflexivity.
Defined.

(** Of every scene the encoder is run with the probed duration of its
    narration as the value of [-t] (zero when the probe reports none),
    and a job that succeeds answers with the one URL of its final file. *)
Theorem encode_runs_for_the_probed_duration :
  forall (t : Tools) (i : nat) (videoUrl audioUrl : Elem) (d : Seconds),
    In (Encode i d) (snd (process_scene t i videoUrl audioUrl)) ->
    exists probed,
      ffprobe t (RawAudio i) = Ok probed /\ d = duration_or_zero probed.
Proof.
  intros t i v a d. unfold process_scene.
  destruct (download t v (RawVideo i)); cbn [negb];
    [|intros [H|[]]; discriminate H].
  assert (Ha : ~ In (Encode i d) (snd (fetch_audio t i a))).
  { unfold fetch_audio. destruct a as [s|]; [|intros []].
    destruct (startsWith s "data:");
      [destruct (base64Data s)|]; intros [H|[]]; discriminate H. }
  destruct (fetch_audio t i a) as [got steps]. cbn [snd] in Ha.
  destruct got; cbn [negb snd].
  - destruct (ffprobe t (RawAudio i)) as [probed|]; cbn [snd].
    + intros [H|H]; [discriminate H|]. apply in_app_or in H.
      destruct H as [H|[H|[H|[]]]]; [contradiction | discriminate H |].
      injection H as <-. exists probed. auto.
    + intros [H|H]; [discriminate H|]. apply in_app_or in H.
      destruct H as [H|[H|[]]]; [contradiction | discriminate H].
  - intros [H|H]; [discriminate H | contradiction].
Qed.

Lemma encode_duration_witness :
  exists probed,
    ffprobe good_tools (RawAudio 0) = Ok probed
    /\ 4200%N = duration_or_zero probed.
Proof.
  apply (encode_runs_for_the_probed_duration
           good_tools 0 (EString "https://cdn.example.com/a.mp4")
           (EString "data:audio/wav;base64,UklGRg==") 4200%N).
  vm_compute. auto.
Defined.
End AssemblyClaims.

(** ** Generation loop *)

Section Loops.
Import App Trace.

Lemma scene_events_app (i : nat) (a b : list Event) :
  scene_events i (a ++ b) = (scene_events i a ++ scene_events i b)%list.
Proof. apply filter_app. Qed.

Lemma scene_events_other (i j : nat) (evs : list Event) :
  i <> j ->
  Forall (fun e => event_scene e = Some i \/ event_scene e = None) evs ->
  scene_events j evs = [].
Proof.
  intros Hij H. induction H as [|e evs He _ IH]; [reflexivity|].
  unfold scene_events in *. simpl. rewrite IH. unfold of_scene.
  destruct He as [-> | ->]; [|reflexivity].
  destruct (Nat.eqb_spec i j); [contradiction | reflexivity].
Qed.

Variable body : nat -> Scene -> M Scene.
Hypothesis body_local : local_body body.

(** The events of a loop over the scenes are those of its iterations in
    turn, and the calls made for a scene are those of its iteration. *)
Lemma for_scenes_events (scenes : list Scene) :
  forall (i : nat) (w : World),
  exists evs,
    log (snd (for_scenes body i scenes w)) = (log w ++ evs)%list
    /\ List.length (fst (for_scenes body i scenes w)) = List.length scenes
    /\ Forall (fun e => (exists k, event_scene e = Some k /\ i <= k)
                        \/ event_scene e = None) evs
    /\ forall k scene,
         nth_error scenes k = Some scene ->
         exists scene' evs_k,
           nth_error (fst (for_scenes body i scenes w)) k = Some scene'
           /\ performs body (i + k) scene scene' evs_k
           /\ scene_events (i + k) evs = scene_events (i + k) evs_k.
Proof.
  induction scenes as [|scene rest IH]; intros i w.
  - exists []. simpl. rewrite app_nil_r. repeat split; auto.
    intros k s Hk. destruct k; discriminate.
  - cbn [for_scenes]. unfold bind.
    destruct (body_local i scene w) as [evs0 [Hlog0 Htag0]].
    destruct (body i scene w) as [scene' w1] eqn:Hbody.
    cbn [snd] in Hlog0.
    destruct (IH (S i) w1) as [evs1 [Hlog1 [Hlen1 [Htag1 Hnth1]]]].
    destruct (for_scenes body (S i) rest w1) as [rest' w2] eqn:Hrest.
    cbn [fst snd] in *. unfold ret. cbn [fst snd].
    exists (evs0 ++ evs1)%list.
    split; [rewrite Hlog1, Hlog0, app_assoc; reflexivity|].
    split; [simpl; rewrite Hlen1; reflexivity|].
    split.
    { apply Forall_app. split.
      - eapply Forall_impl; [|exact Htag0]. intros e [He|He]; [left|right; exact He].
        exists i. split; [exact He | lia].
      - eapply Forall_impl; [|exact Htag1].
        intros e [[k [He Hk]]|He]; [left|right; exact He].
        exists k. split; [exact He | lia]. }
    intros k s Hk. destruct k as [|k].
    + simpl in Hk. injection Hk as <-.
      exists scene', evs0. split; [reflexivity|]. split.
      * rewrite Nat.add_0_r. exists w. rewrite Hbody. cbn [fst snd].
        split; [reflexivity | exact Hlog0].
      * rewrite Nat.add_0_r. rewrite scene_events_app.
        assert (Hnone : scene_events i evs1 = []).
        { clear - Htag1. induction Htag1 as [|e evs He _ IH];
            [reflexivity|].
          unfold scene_events in *. simpl. rewrite IH. unfold of_scene.
          destruct He as [[k [-> Hk]] | ->]; [|reflexivity].
          destruct (Nat.eqb_spec k i); [lia | reflexivity]. }
        rewrite Hnone, app_nil_r. reflexivity.
    + simpl in Hk. destruct (Hnth1 k s Hk) as [s' [evs_k [Hn [Hp He]]]].
      exists s', evs_k. rewrite Nat.add_succ_r. cbn [nth_error].
      split; [exact Hn|]. split; [exact Hp|].
      rewrite scene_events_app.
      rewrite (scene_events_other i (S (i + k)) evs0) by (lia || exact Htag0).
      exact He.
Qed.
End Loops.

Section GenerateFacts.
Import App Trace.
Variable sv : Services.

Lemma generate_scene_calls (i : nat) (scene : Scene) (w : World) :
  exists evs,
    log (snd (generate_scene sv i scene w)) = (log w ++ evs)%list
    /\ Forall (fun e => event_scene e = Some i \/ event_scene e = None) evs
    /\ generation_facts i scene (fst (generate_scene sv i scene w))
                        (scene_events i evs).
Proof.
  unfold generate_scene, maxAttempts, generation_facts.
  destruct w as [nr nv lg].
  destruct i as [|i']; cbn; split_calls sv.
  all: log_tail.
  all: split;
    [ repeat (apply Forall_cons; [cbn [event_scene]; auto |]);
      apply Forall_nil | ].
  all: unfold scene_events, resolve_calls;
    cbn [filter of_scene event_scene is_resolve List.length Nat.eqb];
    rewrite ?Nat.eqb_refl; cbn [filter is_resolve List.length].
  all: split; [lia|].
  all: split;
    [ intros p u rest Heq; injection Heq; intros; subst;
      try reflexivity; try discriminate; try congruence
    | ].
  all: first
      [ left; eexists; split; [simpl; eauto | reflexivity]
      | right; split;
        [ intros u Hin; simpl in Hin;
          repeat (destruct Hin as [Hin|Hin]; try discriminate Hin);
          try contradiction; try congruence
        | split; reflexivity ] ].
Qed.
End GenerateFacts.

Section GenerationClaim.
Import App Trace Samples.

Lemma generate_scene_local (sv : Services) : local_body (generate_scene sv).
Proof.
  intros i scene w.
  destruct (generate_scene_calls sv i scene w) as [evs [Hlog [Htag _]]].
  exists evs. auto.
Qed.

(** C6: during generation every scene of the storyboard gets at least
    one and at most two resolve calls; a scene whose first resolved clip
    passes verification gets no second resolve call; a scene for which no
    clip verified is left without a clip after exactly two resolve calls,
    and the scenes after it are processed all the same. *)
Theorem C6_generation_retries_at_most_twice :
  forall (sv : Services) (script : list ScriptScene),
    let run := handleGenerate sv (Ok script) start in
    List.length (fst run) = List.length script
    /\ forall i sc,
         nth_error script i = Some sc ->
         let calls := scene_events i (log (snd run)) in
         1 <= resolve_calls calls <= 2
         /\ (forall p u rest,
               calls = Resolve i p (Some u) :: Verify i u true :: rest ->
               rest = [])
         /\ ((exists u,
                In (Verify i u true) calls
                /\ nth_error (fst run) i
                   = Some (with_videoUrl (scene_of_script sc) u))
             \/ ((forall u, ~ In (Verify i u true) calls)
                 /\ resolve_calls calls = 2
                 /\ exists degraded,
                      nth_error (fst run) i = Some degraded
                      /\ videoUrl degraded = None)).
Proof.
  intros sv script run. subst run. unfold handleGenerate.
  destruct (for_scenes_events (generate_scene sv) (generate_scene_local sv)
              (map scene_of_script script) 0 start)
    as [evs [Hlog [Hlen [_ Hnth]]]].
  cbn [log start app] in Hlog. rewrite Hlog.
  split; [rewrite Hlen; apply length_map|].
  intros i sc Hi. cbv zeta.
  destruct (Hnth i (scene_of_script sc)) as [scene' [evs_i [Hn [Hp He]]]].
  { rewrite nth_error_map, Hi. reflexivity. }
  cbn [Nat.add] in Hp, He. rewrite He. rewrite Hn.
  destruct Hp as [w [Hfst Hsnd]].
  destruct (generate_scene_calls sv i (scene_of_script sc) w)
    as [evs' [Hlog' [_ Hfacts]]].
  rewrite Hsnd in Hlog'. apply app_inv_head in Hlog'. subst evs'.
  rewrite Hfst in Hfacts.
  destruct Hfacts as [Hcount [Hfirst Hend]].
  split; [exact Hcount|]. split; [exact Hfirst|].
  destruct Hend as [[u [Hin ->]] | [Hno [-> Htwo]]].
  - left. exists u. auto.
  - right. split; [exact Hno|]. split; [exact Htwo|].
    exists (scene_of_script sc). auto.
Qed.

Lemma C6_generation_witness :
  resolve_calls
    (scene_events 0 (log (snd (handleGenerate late_services
                                 (Ok two_scene_script) start)))) = 2
  /\ resolve_calls
       (scene_events 1 (log (snd (handleGenerate late_services
                                    (Ok two_scene_script) start)))) = 1.
Proof.
  destruct (C6_generation_retries_at_most_twice
              late_services two_scene_script) as [_ H].
  split.
  - destruct (H 0 (mkScriptScene "empty desert" "Nothing here." "Desert")
                eq_refl) as [_ [_ [[u [Hin _]] | [_ [Htwo _]]]]].
    + exfalso. vm_compute in Hin.
      repeat (destruct Hin as [Hin|Hin]; [discriminate Hin|]).
      contradiction.
    + exact Htwo.
  - reflexivity.
Defined.
End GenerationClaim.

(** ** Export: recheck, gate and recovery *)

Section ExportFacts.
Import App Trace.
Variable sv : Services.

Lemma recheck_scene_calls (i : nat) (scene : Scene) (w : World) :
  exists evs,
    log (snd (recheck_scene sv i scene w)) = (log w ++ evs)%list
    /\ Forall (fun e => event_scene e = Some i) evs
    /\ recheck_facts i scene (fst (recheck_scene sv i scene w)) evs.
Proof.
  unfold recheck_facts, failed_check, recovered, recheck_scene, bind, ret,
    call_verifyVideo, call_generateSceneVideo.
  destruct w as [nr nv lg]. destruct scene as [p n o v].
  destruct v as [url|]; cbn;
    split_calls sv.
  all: eexists; split;
    [ rewrite <- ?app_assoc; cbn [app]; reflexivity | ].
  all: split;
    [repeat (apply Forall_cons; [reflexivity|]); apply Forall_nil|].
  all: first
    [ left; eexists; repeat split; eauto; fail
    | right; eexists; split; [reflexivity|];
      cbn; repeat match goal with H : truthy _ = _ |- _ => rewrite H end;
      reflexivity ].
Qed.

Lemma recheck_scene_local : local_body (recheck_scene sv).
Proof.
  intros i scene w.
  destruct (recheck_scene_calls i scene w) as [evs [Hlog [Htag _]]].
  exists evs. split; [exact Hlog|].
  eapply Forall_impl; [|exact Htag]. simpl. auto.
Qed.

Lemma for_scenes_only_calls (scenes : list Scene) :
  forall i w,
  exists evs,
    log (snd (for_scenes (recheck_scene sv) i scenes w))
    = (log w ++ evs)%list
    /\ Forall is_call evs.
Proof.
  induction scenes as [|scene rest IH]; intros i w.
  - exists []. simpl. rewrite app_nil_r. auto.
  - cbn [for_scenes]. unfold bind.
    destruct (recheck_scene_calls i scene w) as [evs0 [Hlog0 [Htag0 _]]].
    destruct (recheck_scene sv i scene w) as [scene' w1].
    destruct (IH (S i) w1) as [evs1 [Hlog1 Htag1]].
    destruct (for_scenes (recheck_scene sv) (S i) rest w1) as [rest' w2].
    cbn [fst snd] in *. unfold ret. cbn [snd].
    exists (evs0 ++ evs1)%list. split.
    + rewrite Hlog1, Hlog0, app_assoc. reflexivity.
    + apply Forall_app. split; [|exact Htag1].
      eapply Forall_impl; [|exact Htag0]. intros e He. exists i. exact He.
Qed.

Lemma calls_no_merge (evs : list Event) : Forall is_call evs -> no_merge evs.
Proof.
  intros H urls answer Hin. rewrite Forall_forall in H.
  destruct (H _ Hin) as [k Hk]. discriminate.
Qed.

Lemma calls_no_confirm (evs : list Event) :
  Forall is_call evs -> no_confirm evs.
Proof.
  intros H v t a Hin. rewrite Forall_forall in H.
  destruct (H _ Hin) as [k Hk]. discriminate.
Qed.

Lemma finalUrls_length (scenes : list Scene) :
  List.length (finalUrls scenes) <= List.length scenes.
Proof.
  unfold finalUrls. induction scenes as [|s rest IH]; simpl; [lia|].
  destruct (videoUrl s) as [u|]; simpl; [|lia].
  destruct (truthy u); simpl; lia.
Qed.


(** What the gate does, by cases on the number of scenes with a clip. *)
Lemma export_gate_cases (updated : list Scene) (w : World) :
  let urls := finalUrls updated in
  let valid := List.length urls in
  let total := List.length updated in
  let merged := MergeCall urls (mergeVideos sv urls) in
  (valid = 0
   /\ export_gate sv updated w
      = (Refused, mkWorld (resolves w) (verifies w) (log w ++ [Alert])))
  \/ (0 < valid < total /\ confirm sv = false
      /\ export_gate sv updated w
         = (Declined, mkWorld (resolves w) (verifies w)
                        (log w ++ [Confirm valid total false])))
  \/ (0 < valid < total /\ confirm sv = true
      /\ export_gate sv updated w
         = (Merged (mergeVideos sv urls),
            mkWorld (resolves w) (verifies w)
                    (log w ++ [Confirm valid total true; merged])))
  \/ (0 < valid /\ valid = total
      /\ export_gate sv updated w
         = (Merged (mergeVideos sv urls),
            mkWorld (resolves w) (verifies w) (log w ++ [merged]))).
Proof.
  intros urls valid total merged.
  assert (Hle : valid <= total) by apply finalUrls_length.
  unfold export_gate. fold urls. fold valid. fold total.
  destruct (Nat.eqb_spec valid 0) as [Hz|Hz].
  - left. split; [exact Hz|]. reflexivity.
  - right. destruct (Nat.ltb_spec valid total) as [Hlt|Hge].
    + unfold call_confirm, call_mergeVideos, bind, emit, ret.
      destruct w as [nr nv lg]. cbn [fst snd log resolves verifies].
      destruct (confirm sv) eqn:Hc; cbn [negb].
      * right. left. split; [lia|]. split; [reflexivity|].
        cbn [log resolves verifies]. rewrite <- app_assoc. reflexivity.
      * left. split; [lia|]. split; reflexivity.
    + right. right. split; [lia|]. split; [lia|].
      unfold call_mergeVideos, bind, emit, ret.
      destruct w. reflexivity.
Qed.
End ExportFacts.

Section ExportClaims.
Import App Trace Samples.

Lemma handleExport_run (sv : Services) (scenes : list Scene) :
  let checked := for_scenes (recheck_scene sv) 0 scenes start in
  handleExport sv (Some scenes) start =
  ((fst checked, fst (export_gate sv (fst checked) (snd checked))),
   snd (export_gate sv (fst checked) (snd checked))).
Proof.
  intros checked. subst checked. unfold handleExport, bind, ret.
  destruct (for_scenes (recheck_scene sv) 0 scenes start) as [updated w1].
  cbn [fst snd].
  destruct (export_gate sv updated w1) as [outcome w2]. reflexivity.
Qed.


End ExportClaims.

Section RecoveryClaim.
Import App Trace Samples.






End RecoveryClaim.

(** ** Retrying requests *)

Section RetryFacts.
Import Http Client RetrySpec.

Lemma retried_dec (i : nat) (outcome : Try Response) :
  (retried i outcome
   /\ match outcome with
      | Ok r => (status r =? 429)%nat
                || ((500 <=? status r)%nat && (i <? maxRetries - 1)%nat) = true
      | Throw => True
      end)
  \/ (exists r, outcome = Ok r /\ ~ retried i outcome
                /\ (status r =? 429)%nat
                   || ((500 <=? status r)%nat && (i <? maxRetries - 1)%nat)
                   = false).
Proof.
  destruct outcome as [r|]; [|left; simpl; auto].
  unfold retried, maxRetries. cbn [Nat.sub].
  destruct ((status r =? 429)%nat
            || ((500 <=? status r)%nat && (i <? 2)%nat)) eqn:C.
  - left. split; [|reflexivity].
    apply orb_true_iff in C. destruct C as [C|C].
    + left. apply Nat.eqb_eq. exact C.
    + right. apply andb_true_iff in C. destruct C as [C1 C2].
      split; [apply Nat.leb_le; exact C1 | apply Nat.ltb_lt; exact C2].
  - right. exists r. split; [reflexivity|]. split; [|exact C].
    apply orb_false_iff in C. destruct C as [C1 C2].
    apply Nat.eqb_neq in C1. apply andb_false_iff in C2.
    intros [H|[H1 H2]]; [contradiction|].
    destruct C2 as [C2|C2];
      [apply Nat.leb_gt in C2 | apply Nat.ltb_ge in C2]; lia.
Qed.

Lemma fetchWithRetry_from_result (attempt : nat -> Try Response)
    (left i : nat) :
  i + left = 3 ->
  (exists n r, i <= n < 3 /\ attempt n = Ok r /\ ~ retried n (attempt n)
               /\ (forall k, i <= k < n -> retried k (attempt k))
               /\ fetchWithRetry_from attempt i left = Ok r)
  \/ ((forall k, i <= k < 3 -> retried k (attempt k))
      /\ fetchWithRetry_from attempt i left = Throw).
Proof.
  revert i. induction left as [|left IH]; intros i Hsum.
  - right. split; [intros k Hk; lia | reflexivity].
  - cbn [fetchWithRetry_from].
    destruct (retried_dec i (attempt i)) as [[Hret Hcond] | [r [Hr [Hnot Hcond]]]].
    + assert (Hnext : fetchWithRetry_from attempt i (S left)
                      = fetchWithRetry_from attempt (S i) left).
      { cbn [fetchWithRetry_from]. destruct (attempt i) as [r|];
          [rewrite Hcond|]; reflexivity. }
      cbn [fetchWithRetry_from] in Hnext. rewrite Hnext.
      destruct (IH (S i) ltac:(lia))
        as [[n [r [Hn [Ha [Hnr [Hbefore Hres]]]]]] | [Hall Hres]].
      * left. exists n, r.
        split; [lia|]. split; [exact Ha|]. split; [exact Hnr|].
        split; [|exact Hres].
        intros k Hk. destruct (Nat.eq_dec k i) as [->|Hne]; [exact Hret|].
        apply Hbefore. lia.
      * right. split; [|exact Hres].
        intros k Hk. destruct (Nat.eq_dec k i) as [->|Hne]; [exact Hret|].
        apply Hall. lia.
    + left. exists i, r. rewrite Hr in *. rewrite Hcond.
      split; [lia|]. split; [reflexivity|]. split; [exact Hnot|].
      split; [intros k Hk; lia | reflexivity].
Qed.

(** [fetchWithRetry] returns the response of the first attempt that is
    neither a network failure, nor a 429, nor a status from 500 on before
    the third attempt; every attempt before it was one of these.  It
    never returns a 429, it returns a status from 500 on only from the
    third attempt, and it throws exactly when all three attempts were to
    be retried. *)
Theorem fetchWithRetry_returns_first_settled_attempt
    (attempt : nat -> Try Response) :
  match fetchWithRetry attempt with
  | Ok r =>
      exists n, n < 3 /\ attempt n = Ok r
                /\ status r <> 429
                /\ (500 <= status r -> n = 2)
                /\ (forall k, k < n -> retried k (attempt k))
  | Throw => forall k, k < 3 -> retried k (attempt k)
  end.
Proof.
  unfold fetchWithRetry, maxRetries.
  destruct (fetchWithRetry_from_result attempt 3 0 eq_refl)
    as [[n [r [Hn [Ha [Hnr [Hbefore Hres]]]]]] | [Hall Hres]]; rewrite Hres.
  - exists n. split; [lia|]. split; [exact Ha|].
    rewrite Ha in Hnr. unfold retried in Hnr.
    split; [intros E; apply Hnr; left; exact E|].
    split; [|intros k Hk; apply Hbefore; lia].
    intros H500. destruct (Nat.eq_dec n 2) as [E|E]; [exact E|].
    exfalso. apply Hnr. right. lia.
  - intros k Hk. apply Hall. lia.
Qed.

(** The requests and pauses of [fetchWithRetry]: at most three requests,
    request [k + 1] only after a pause of [2000 * 2^k] ms (plus up to a
    second of jitter after a status, none after a network failure), no
    pause after a third attempt that threw, and one of 8000 ms after a
    third attempt that was answered 429, before the exception.  The
    pauses add up to at most 14 seconds, jitter apart. *)
Theorem fetchWithRetry_backs_off (attempt : nat -> Try Response)
    (draw : nat -> N) :
  fst (Retry.fetchWithRetry attempt draw) = fetchWithRetry attempt
  /\ (exists n,
        n < 3
        /\ snd (Retry.fetchWithRetry attempt draw)
           = (failed_rounds attempt draw n
              ++ Retry.Fetch n :: last_pause draw n (attempt n))%list)
  /\ (paused (snd (Retry.fetchWithRetry attempt draw)) <= 14000)%N.
Proof.
  unfold Retry.fetchWithRetry, fetchWithRetry, failed_rounds,
    last_pause, pause_after.
  change maxRetries with 3.
  cbn [Retry.fetchWithRetry_from fetchWithRetry_from].
  change maxRetries with 3.
  change (0 <? 3 - 1)%nat with true. change (1 <? 3 - 1)%nat with true.
  change (2 <? 3 - 1)%nat with false.
  rewrite ?andb_true_r, ?andb_false_r, ?orb_false_r.
  destruct (attempt 0) as [r0|] eqn:A0;
    [destruct (status r0 =? 429)%nat eqn:S0;
     destruct (500 <=? status r0)%nat eqn:L0|];
  cbn [andb orb];
  try (split; [reflexivity|]; split;
       [exists 0; cbn [seq flat_map app]; rewrite ?A0; split; [lia|reflexivity]
       | cbn; lia]);
  (destruct (attempt 1) as [r1|] eqn:A1;
    [destruct (status r1 =? 429)%nat eqn:S1;
     destruct (500 <=? status r1)%nat eqn:L1|];
   cbn [andb orb];
   try (split; [reflexivity|]; split;
        [exists 1; cbn [seq flat_map app]; rewrite ?A0, ?A1;
         split; [lia|reflexivity]
        | cbn; lia]);
   (destruct (attempt 2) as [r2|] eqn:A2;
     [destruct (status r2 =? 429)%nat eqn:S2|];
    rewrite ?andb_false_r; cbn [andb orb];
    (split; [reflexivity|]; split;
     [exists 2; cbn [seq flat_map app];
      rewrite ?A0, ?A1, ?A2; cbv beta iota; rewrite ?S2, ?Nat.eqb_refl;
      split; [lia|reflexivity]
     | cbn; lia]))).
Qed.

End RetryFacts.

(** ** Narration synthesis *)

Section NarrationFacts.
Import Narration NarrationSpec.

Lemma limited_rounds_S (draw : nat -> N) (i n : nat) :
  flat_map (fun k => [Call k; Wait (2 ^ N.of_nat k * 5000)%N (draw k)])
           (seq i (S n))
  = Call i :: Wait (2 ^ N.of_nat i * 5000)%N (draw i)
    :: flat_map (fun k => [Call k; Wait (2 ^ N.of_nat k * 5000)%N (draw k)])
                (seq (S i) n).
Proof. reflexivity. Qed.

Lemma generateAudio_from_shape (tts : nat -> Reply) (draw : nat -> N)
    (retries left i : nat) :
  0 < left -> i + left = retries ->
  exists n,
    i <= n < retries
    /\ (forall k, i <= k < n ->
        exists m, tts k = Failed m /\ isRateLimit m = true)
    /\ (n < retries - 1 ->
        forall m, tts n = Failed m -> isRateLimit m = false)
    /\ snd (generateAudio_from tts draw retries i left)
       = (flat_map
            (fun k => [Call k; Wait (2 ^ N.of_nat k * 5000)%N (draw k)])
            (seq i (n - i)) ++ [Call n])%list
    /\ fst (generateAudio_from tts draw retries i left) = delivered (tts n).
Proof.
  revert i. induction left as [|left IH]; intros i Hpos Hsum; [lia|].
  cbn [generateAudio_from].
  destruct (tts i) as [a|m] eqn:Ti.
  - exists i. split; [lia|]. split; [intros k Hk; lia|].
    split; [intros _ m Hm; congruence|].
    rewrite Nat.sub_diag, Ti. split; reflexivity.
  - destruct (isRateLimit m) eqn:Rm; cbn [andb].
    + destruct (Nat.ltb_spec i (retries - 1)) as [Hi|Hi].
      * destruct left as [|left']; [lia|].
        destruct (IH (S i) ltac:(lia) ltac:(lia))
          as [n [Hn [Hbefore [Hlast [Hev Hres]]]]].
        destruct (generateAudio_from tts draw retries (S i) (S left'))
          as [result later].
        cbn [fst snd] in *.
        exists n. split; [lia|].
        split.
        { intros k Hk. destruct (Nat.eq_dec k i) as [->|Hne].
          - exists m. split; assumption.
          - apply Hbefore. lia. }
        split; [exact Hlast|].
        split; [|exact Hres].
        replace (n - i) with (S (n - S i)) by lia.
        rewrite limited_rounds_S. cbn [app]. rewrite Hev. reflexivity.
      * exists i. split; [lia|]. split; [intros k Hk; lia|].
        split; [intros Hlt; lia|].
        rewrite Nat.sub_diag, Ti. split; reflexivity.
    + exists i. split; [lia|]. split; [intros k Hk; lia|].
      split; [intros _ m' Hm'; congruence|].
      rewrite Nat.sub_diag, Ti. split; reflexivity.
Qed.

(** [generateAudio] calls the speech model until a call is decisive: an
    answer, an error that is not a rate limit, or the last call allowed.
    Every call before it failed with a rate limit and was followed by a
    wait of [5000 * 2^k] ms plus jitter; nothing is called after it.  The
    result is the data URL of the decisive answer when it carries
    non-empty audio data, and [null] otherwise. *)
Theorem generateAudio_stops_at_first_decisive_call (tts : nat -> Reply)
    (draw : nat -> N) (retries : nat) :
  0 < retries ->
  exists n,
    n < retries
    /\ (forall k, k < n -> exists m, tts k = Failed m /\ isRateLimit m = true)
    /\ (n < retries - 1 ->
        forall m, tts n = Failed m -> isRateLimit m = false)
    /\ snd (generateAudio tts draw retries)
       = (limited_rounds draw n ++ [Call n])%list
    /\ fst (generateAudio tts draw retries) = delivered (tts n).
Proof.
  intros Hpos. unfold generateAudio, limited_rounds.
  destruct (generateAudio_from_shape tts draw retries retries 0 Hpos eq_refl)
    as [n [Hn [Hbefore [Hlast [Hev Hres]]]]].
  exists n. split; [lia|].
  split; [intros k Hk; apply Hbefore; lia|].
  split; [exact Hlast|].
  rewrite Nat.sub_0_r in Hev. split; assumption.
Qed.

Lemma generateAudio_witness :
  exists n,
    n < 3
    /\ (forall k, k < n ->
        exists m, MoreSamples.throttled_tts k = Failed m
                  /\ isRateLimit m = true)
    /\ (n < 3 - 1 ->
        forall m, MoreSamples.throttled_tts n = Failed m
                  -> isRateLimit m = false)
    /\ snd (generateAudio MoreSamples.throttled_tts (fun _ => 0%N) 3)
       = (limited_rounds (fun _ => 0%N) n ++ [Call n])%list
    /\ fst (generateAudio MoreSamples.throttled_tts (fun _ => 0%N) 3)
       = delivered (MoreSamples.throttled_tts n).
Proof.
  apply (generateAudio_stops_at_first_decisive_call
           MoreSamples.throttled_tts (fun _ => 0%N) 3).
  lia.
Defined.

Lemma split_head (sep : ascii) (s : string) :
  exists h t, split sep s = h :: t.
Proof.
  induction s as [|c s IH]; cbn [split].
  - eexists. eexists. reflexivity.
  - destruct (Ascii.eqb c sep).
    + eexists. eexists. reflexivity.
    + destruct IH as [h [t E]]. rewrite E. eexists. eexists. reflexivity.
Qed.

Lemma split_no_separator (sep : ascii) (s : string) :
  includes s (String sep EmptyString) = false -> split sep s = [s].
Proof.
  induction s as [|c s IH]; intros H; [reflexivity|].
  rewrite includes_eq in H. cbn [String.prefix] in H.
  cbn [split]. rewrite Ascii.eqb_sym.
  destruct (Ascii.eqb_spec sep c) as [E|E].
  - subst c. destruct (ascii_dec sep sep) as [_|N]; [|contradiction].
    destruct s; discriminate H.
  - destruct (ascii_dec sep c) as [E'|_]; [contradiction|].
    rewrite IH; [reflexivity | exact H].
Qed.

Lemma data_url_split (d : string) :
  split ","%char (data_url d) = "data:audio/wav;base64" :: split ","%char d.
Proof.
  unfold data_url.
  destruct (split_head ","%char d) as [h [t E]].
  cbn. rewrite E. reflexivity.
Qed.

Lemma data_url_startsWith (d : string) :
  startsWith (data_url d) "data:" = true.
Proof. unfold data_url, startsWith. cbn. destruct d; reflexivity. Qed.

(** A narration URL produced by [generateAudio] is a [data:] URL of a
    non-empty payload, so the merge handler never downloads it: it
    decodes it in place, and what it decodes is the payload itself
    whenever the payload has no comma, as base64 text has none. *)
Theorem synthesized_narration_is_decoded_inline (tts : nat -> Reply)
    (draw : nat -> N) (retries : nat) (audioUrl : string) :
  fst (generateAudio tts draw retries) = Some audioUrl ->
  exists d,
    audioUrl = data_url d /\ d <> ""
    /\ (forall t i,
          Merge.fetch_audio t i (Merge.EString audioUrl)
          = (Merge.write_file t (Merge.RawAudio i), [Merge.DecodeAudio i]))
    /\ (includes d "," = false -> Merge.base64Data audioUrl = Some d).
Proof.
  intros H.
  assert (Hd : exists d, audioUrl = data_url d /\ d <> "").
  { destruct retries as [|r]; [discriminate H|].
    destruct (generateAudio_from_shape tts draw (S r) (S r) 0
                ltac:(lia) eq_refl) as [n [_ [_ [_ [_ Hres]]]]].
    unfold generateAudio in H. rewrite Hres in H.
    unfold delivered in H.
    destruct (tts n) as [[d|]|m]; try discriminate H.
    destruct (truthy d) eqn:Td; [|discriminate H].
    exists d. split; [congruence|]. apply truthy_true_iff. exact Td. }
  destruct Hd as [d [-> Hne]].
  exists d. split; [reflexivity|]. split; [exact Hne|].
  split.
  - intros t i. unfold Merge.fetch_audio, Merge.base64Data, at_index.
    rewrite data_url_startsWith, data_url_split.
    destruct (split_head ","%char d) as [h [tl E]]. rewrite E. reflexivity.
  - intros Hc. unfold Merge.base64Data, at_index.
    rewrite data_url_split, (split_no_separator _ _ Hc). reflexivity.
Qed.

Lemma synthesized_narration_witness :
  exists d,
    "data:audio/wav;base64,UklGRg==" = data_url d /\ d <> ""
    /\ (forall t i,
          Merge.fetch_audio t i
            (Merge.EString "data:audio/wav;base64,UklGRg==")
          = (Merge.write_file t (Merge.RawAudio i), [Merge.DecodeAudio i]))
    /\ (includes d "," = false
        -> Merge.base64Data "data:audio/wav;base64,UklGRg==" = Some d).
Proof.
  apply (synthesized_narration_is_decoded_inline
           MoreSamples.throttled_tts (fun _ => 0%N) 3).
  reflexivity.
Defined.

End NarrationFacts.

(** ** The earlier helpers against the same server *)

Section StatusChecks.
Import Http.

(** An answer of the handlers: 200, or an error body with a status that
    is neither 2xx, 429 nor 5xx below the retry limit. *)
Lemma checks_agree_on (r : Response) :
  status r = 200
  \/ (data_url r = None /\ data_valid r = false
      /\ (status r = 400 \/ status r = 500)) ->
  Client.generateSceneVideo (fun _ => Ok r)
  = OldClient.generateSceneVideo (Ok r)
  /\ Retry.mergeVideos (Ok r) = OldClient.mergeVideos (Ok r)
  /\ Classifier.verifyVideo_of (Ok r) = OldClient.verifyVideo (Ok r).
Proof.
  destruct r as [st bd]. cbn [status].
  intros [H | [Hu [Hv [H | H]]]]; subst st.
  - vm_compute. auto.
  - destruct bd as [e|u|v|]; try discriminate Hu.
    + vm_compute. auto.
    + cbn in Hv. subst v. vm_compute. auto.
    + vm_compute. auto.
  - destruct bd as [e|u|v|]; try discriminate Hu.
    + vm_compute. auto.
    + cbn in Hv. subst v. vm_compute. auto.
    + vm_compute. auto.
Qed.

Lemma handler_answers_agree :
  (forall (b : Search.Browser) (launches : bool) (w : Legacy.Web)
          (query : string) (r : Response),
      r = fst (Search.search_video b query)
      \/ r = fst (Legacy.search_video launches w query) ->
      Client.generateSceneVideo (fun _ => Ok r)
      = OldClient.generateSceneVideo (Ok r))
  /\ (forall (t : Merge.Tools) (t' : Legacy.Tools) (req : Merge.Request)
             (r : Response),
        r = fst (Merge.merge_videos t req)
        \/ r = fst (Legacy.merge_videos t' req) ->
        Retry.mergeVideos (Ok r) = OldClient.mergeVideos (Ok r))
  /\ (forall (net : string -> Try Classifier.HeadReply) (url : string),
        Classifier.verifyVideo_of (Ok (Classifier.verify_video net url))
        = OldClient.verifyVideo (Ok (Classifier.verify_video net url))).
Proof.
  split; [|split].
  - intros b launches w query r Hr. apply checks_agree_on.
    destruct Hr as [-> | ->].
    + unfold Search.search_video, Search.search_video_with.
      destruct (truthy query); cbn [negb]; [|right; cbn; auto].
      destruct (Search.launches b); cbn [negb]; [|left; reflexivity].
      destruct (Search.search_loop _ _) as [[u| |] calls];
        try (left; reflexivity).
      destruct (Search.randomFallback _); left; reflexivity.
    + unfold Legacy.search_video, Legacy.search_video_with.
      destruct (truthy query); cbn [negb]; [|right; cbn; auto].
      destruct launches; cbn [negb]; [|left; reflexivity].
      destruct (Legacy.search_loop _ _) as [[u| |] calls]; left; reflexivity.
  - intros t t' req r Hr. apply checks_agree_on.
    destruct Hr as [-> | ->].
    + unfold Merge.merge_videos.
      destruct (Merge.videoUrls req) as [| |videos];
        try (right; cbn; auto; fail).
      destruct (List.length videos =? 0)%nat; [right; cbn; auto|].
      destruct (Merge.audioUrls req) as [| |audios];
        try (right; cbn; auto; fail).
      destruct (negb _); [right; cbn; auto|].
      destruct (run_job_response t (combine videos audios)) as [E|E];
        destruct (Merge.run_job t (combine videos audios)) as [resp steps];
        cbn [fst] in *; subst resp; [left; reflexivity | right; cbn; auto].
    + unfold Legacy.merge_videos.
      destruct (Merge.videoUrls req) as [| |videos];
        try (right; cbn; auto; fail).
      destruct (List.length videos =? 0)%nat; [right; cbn; auto|].
      unfold Legacy.run_job.
      destruct (Legacy.download_all t' 0 (List.length videos))
        as [localPaths steps1].
      destruct (List.length localPaths =? 0)%nat; [right; cbn; auto|].
      destruct (Legacy.normalize_all t' 0 (List.length localPaths))
        as [[paths|] steps2]; [|right; cbn; auto].
      destruct (Legacy.mergeToFile t' paths);
        [left; reflexivity | right; cbn; auto].
  - intros net url. apply checks_agree_on.
    unfold Classifier.verify_video.
    destruct (truthy url); cbn [negb]; [|right; cbn; auto].
    destruct (Classifier.axios_head net url); left; reflexivity.
Qed.

(** Against the handlers of this server, over a link that delivers
    every answer, the helpers with a status check ([generateSceneVideo]
    behind [fetchWithRetry], [mergeVideos], [verifyVideo]) return what
    the earlier helpers without one return, for both server variants: an
    answer that is not a success carries neither a URL nor a verdict, and
    the error statuses of the search handlers are not retried.  ([null]
    and [undefined] are one value here; no caller tells them apart.) *)
Theorem status_checks_change_nothing_against_this_server :
  (forall (b : Search.Browser) (query : string),
      Client.generateSceneVideo
        (fun _ => Ok (fst (Search.search_video b query)))
      = OldClient.generateSceneVideo (Ok (fst (Search.search_video b query))))
  /\ (forall (launches : bool) (w : Legacy.Web) (query : string),
        Client.generateSceneVideo
          (fun _ => Ok (fst (Legacy.search_video launches w query)))
        = OldClient.generateSceneVideo
            (Ok (fst (Legacy.search_video launches w query))))
  /\ (forall (t : Merge.Tools) (req : Merge.Request),
        Retry.mergeVideos (Ok (fst (Merge.merge_videos t req)))
        = OldClient.mergeVideos (Ok (fst (Merge.merge_videos t req))))
  /\ (forall (t : Legacy.Tools) (req : Merge.Request),
        Retry.mergeVideos (Ok (fst (Legacy.merge_videos t req)))
        = OldClient.mergeVideos (Ok (fst (Legacy.merge_videos t req))))
  /\ (forall (net : string -> Try Classifier.HeadReply) (url : string),
        Classifier.verifyVideo_of (Ok (Classifier.verify_video net url))
        = OldClient.verifyVideo (Ok (Classifier.verify_video net url))).
Proof.
  destruct handler_answers_agree as [Hsearch [Hmerge Hverify]].
  split; [|split; [|split; [|split]]].
  - intros b query.
    apply (Hsearch b true Samples.pexels_hit query). left. reflexivity.
  - intros launches w query.
    apply (Hsearch Samples.quiet_browser launches w query).
    right. reflexivity.
  - intros t req. apply (Hmerge t Samples.legacy_tools req).
    left. reflexivity.
  - intros t req. apply (Hmerge Samples.good_tools t req).
    right. reflexivity.
  - exact Hverify.
Qed.

End StatusChecks.

(** ** Search terms *)

Section Variations.

Lemma concat_cons (sep x y : string) (rest : list string) :
  String.concat sep (x :: y :: rest)
  = x ++ sep ++ String.concat sep (y :: rest).
Proof. reflexivity. Qed.

Lemma split_join (sep : ascii) (s : string) :
  join (String sep EmptyString) (split sep s) = s.
Proof.
  unfold join. induction s as [|c s IH]; [reflexivity|].
  cbn [split]. destruct (split_head sep s) as [h [t Hs]].
  rewrite Hs in *.
  destruct (Ascii.eqb_spec c sep) as [E|E].
  - subst c. rewrite concat_cons, IH. reflexivity.
  - destruct t as [|x xs].
    + cbn [String.concat] in *. rewrite IH. reflexivity.
    + rewrite concat_cons. rewrite concat_cons in IH.
      cbn [String.append]. f_equal. exact IH.
Qed.

Lemma join_two_or_more (a b : string) (rest : list string) :
  join " " (a :: b :: rest) <> "".
Proof.
  unfold join. cbn [String.concat]. destruct a; discriminate.
Qed.

Lemma join_front_nonempty (query : string) :
  query <> "" -> join " " (slice_front 2 (split " "%char query)) <> "".
Proof.
  intros Hq. assert (Hj := split_join " "%char query).
  destruct (split " "%char query) as [|h [|x xs]] eqn:Hs.
  - destruct (split_head " "%char query) as [h [t E]]. congruence.
  - cbn. cbn in Hj. congruence.
  - unfold slice_front. cbn [firstn]. apply join_two_or_more.
Qed.

Lemma join_back_nonempty (query : string) :
  query <> "" -> join " " (slice_back 2 (split " "%char query)) <> "".
Proof.
  intros Hq. assert (Hj := split_join " "%char query).
  unfold slice_back.
  destruct (split " "%char query) as [|h [|x xs]] eqn:Hs.
  - destruct (split_head " "%char query) as [h [t E]]. congruence.
  - cbn. cbn in Hj. congruence.
  - remember (h :: x :: xs) as parts eqn:Hp.
    assert (Hlen : List.length (skipn (List.length parts - 2) parts) = 2).
    { rewrite length_skipn. subst parts. cbn [List.length]. lia. }
    destruct (skipn (List.length parts - 2) parts) as [|a [|b [|c r]]];
      try discriminate Hlen.
    apply join_two_or_more.
Qed.

Lemma variations_truthy (query : string) :
  query <> "" ->
  Forall (fun term => truthy term = true) (Search.variations query)
  /\ Forall (fun term => truthy term = true) (Legacy.variations query).
Proof.
  intros Hq. unfold Search.variations, Legacy.variations.
  split; repeat constructor; apply truthy_true_iff.
  - exact Hq.
  - destruct query; discriminate.
  - apply join_front_nonempty. exact Hq.
  - exact Hq.
  - apply join_back_nonempty. exact Hq.
  - destruct (Legacy.first_word query); discriminate.
Qed.

(** None of the search terms derived from a non-empty query is empty,
    in either server variant: the [if (!term) continue] guard of the
    search loop never skips a variation. *)
Theorem no_variation_of_a_query_is_skipped (query : string) :
  query <> "" ->
  Forall (fun term => truthy term = true) (Search.variations query)
  /\ Forall (fun term => truthy term = true) (Legacy.variations query).
Proof. exact (variations_truthy query). Qed.

Lemma no_variation_skipped_witness :
  Forall (fun term => truthy term = true) (Search.variations "red fox")
  /\ Forall (fun term => truthy term = true) (Legacy.variations "red fox").
Proof.
  apply (no_variation_of_a_query_is_skipped "red fox"). discriminate.
Defined.

(** For a query of at most two words, joining the first two (or the
    last two) words gives back the query: the first variant searches the
    query itself again as its third term, the second variant as its
    second term. *)
Theorem short_query_is_searched_again (query : string) :
  List.length (split " "%char query) <= 2 ->
  Search.variations query = [query; query ++ " cinematic"; query]
  /\ Legacy.variations query
     = [query; query; Legacy.first_word query ++ " vertical";
        "aesthetic " ++ Legacy.first_word query].
Proof.
  intros Hlen. unfold Search.variations, Legacy.variations.
  assert (Hfront : slice_front 2 (split " "%char query)
                   = split " "%char query)
    by (apply firstn_all2; exact Hlen).
  assert (Hback : slice_back 2 (split " "%char query)
                  = split " "%char query).
  { unfold slice_back.
    replace (List.length (split " "%char query) - 2) with 0 by lia.
    reflexivity. }
  rewrite Hfront, Hback.
  change (join " " (split " "%char query))
    with (join (String " "%char EmptyString) (split " "%char query)).
  rewrite split_join. split; reflexivity.
Qed.

Lemma short_query_witness :
  Search.variations "red fox" = ["red fox"; "red fox cinematic"; "red fox"]
  /\ Legacy.variations "red fox"
     = ["red fox"; "red fox"; "red vertical"; "aesthetic red"].
Proof.
  apply (short_query_is_searched_again "red fox"). vm_compute. lia.
Defined.

End Variations.

(** ** The calls of a search *)

Section SearchCalls.
Import Http SearchSpec.

Lemma round_started (run : Adapters.Source -> string -> Try (option string))
    (term : string) :
  snd (Search.round run term) = started_for term.
Proof.
  unfold Search.round, started_for.
  destruct (Search.promise_all _) as [results|]; [|reflexivity].
  destruct (find Search.not_null results); reflexivity.
Qed.

Lemma search_loop_rounds
    (run : Adapters.Source -> string -> Try (option string))
    (terms : list string) :
  Forall (fun term => truthy term = true) terms ->
  exists n,
    n <= List.length terms
    /\ snd (Search.search_loop run terms)
       = flat_map started_for (firstn n terms)
    /\ (fst (Search.search_loop run terms) = Search.Exhausted ->
        n = List.length terms).
Proof.
  induction terms as [|term rest IH]; intros Hall.
  - exists 0. repeat split; auto.
  - inversion Hall as [|t r Ht Hrest]; subst.
    destruct (IH Hrest) as [n [Hn [Hcalls Hex]]].
    cbn [Search.search_loop]. rewrite Ht. cbn [negb].
    assert (Hst := round_started run term).
    destruct (Search.round run term) as [[validUrl|] started].
    + cbn [snd] in Hst. subst started.
      assert (Hnext :
        exists m, m <= List.length (term :: rest)
          /\ snd (let (r, later) := Search.search_loop run rest in
                  (r, (started_for term ++ later)%list))
             = flat_map started_for (firstn m (term :: rest))
          /\ (fst (let (r, later) := Search.search_loop run rest in
                   (r, (started_for term ++ later)%list))
              = Search.Exhausted -> m = List.length (term :: rest))).
      { exists (S n). destruct (Search.search_loop run rest) as [r later].
        cbn [fst snd] in *. cbn [List.length firstn flat_map].
        rewrite Hcalls. split; [lia|]. split; [reflexivity|].
        intros E. rewrite (Hex E). reflexivity. }
      destruct validUrl as [u|]; [|exact Hnext].
      destruct (truthy u); [|exact Hnext].
      exists 1. cbn [fst snd List.length firstn flat_map].
      rewrite app_nil_r. split; [lia|]. split; [reflexivity|discriminate].
    + cbn [snd] in Hst. subst started.
      exists 1. cbn [fst snd List.length firstn flat_map].
      rewrite app_nil_r. split; [lia|]. split; [reflexivity|discriminate].
Qed.

Lemma try_in_turn_prefix
    (run : Legacy.Source -> string -> Try (option string))
    (term : string) (srcs : list Legacy.Source) :
  exists k,
    snd (Legacy.try_in_turn run term srcs) = tried_for term (firstn k srcs)
    /\ (fst (Legacy.try_in_turn run term srcs) = Ok None ->
        firstn k srcs = srcs).
Proof.
  induction srcs as [|s srcs IH].
  - exists 0. split; [reflexivity|]. reflexivity.
  - cbn [Legacy.try_in_turn].
    destruct (run s term) as [url|].
    + destruct (truthy_opt url) eqn:Hu.
      * exists 1. cbn [fst snd firstn]. split; [reflexivity|].
        intros E. injection E as ->. discriminate Hu.
      * destruct IH as [k [Hk Hall]].
        destruct (Legacy.try_in_turn run term srcs) as [r later].
        cbn [fst snd] in *. exists (S k). cbn [firstn].
        unfold tried_for in *. cbn [map]. rewrite Hk.
        split; [reflexivity|]. intros E. rewrite (Hall E). reflexivity.
    + exists 1. cbn [fst snd firstn]. split; [reflexivity|discriminate].
Qed.

Lemma tried_for_split (term : string) (k : nat) (srcs : list Legacy.Source) :
  (tried_for term (firstn k srcs) ++ tried_for term (skipn k srcs))%list
  = tried_for term srcs.
Proof.
  unfold tried_for. rewrite <- map_app, firstn_skipn. reflexivity.
Qed.

Lemma legacy_search_loop_prefix
    (run : Legacy.Source -> string -> Try (option string))
    (terms : list string) :
  Forall (fun term => truthy term = true) terms ->
  exists rest,
    (snd (Legacy.search_loop run terms) ++ rest)%list
    = flat_map (fun t => tried_for t Legacy.sources) terms.
Proof.
  induction terms as [|term rest IH]; intros Hall.
  - exists []. reflexivity.
  - inversion Hall as [|t r Ht Hrest]; subst.
    destruct (IH Hrest) as [more Hmore].
    cbn [Legacy.search_loop]. rewrite Ht. cbn [negb flat_map].
    destruct (try_in_turn_prefix run term Legacy.sources) as [k [Hk Hnone]].
    destruct (Legacy.try_in_turn run term Legacy.sources)
      as [[[url|]|] started]; cbn [fst snd] in *.
    + exists (tried_for term (skipn k Legacy.sources)
              ++ flat_map (fun t => tried_for t Legacy.sources) rest)%list.
      rewrite Hk, app_assoc, tried_for_split. reflexivity.
    + destruct (Legacy.search_loop run rest) as [r later].
      cbn [snd] in *. exists more.
      rewrite Hk, (Hnone eq_refl), <- app_assoc, Hmore. reflexivity.
    + exists (tried_for term (skipn k Legacy.sources)
              ++ flat_map (fun t => tried_for t Legacy.sources) rest)%list.
      rewrite Hk, app_assoc, tried_for_split. reflexivity.
Qed.

Lemma started_rounds_length (terms : list string) :
  List.length (flat_map started_for terms) = 9 * List.length terms.
Proof.
  induction terms as [|t rest IH]; [reflexivity|].
  cbn [flat_map List.length]. rewrite length_app, IH.
  unfold started_for. rewrite length_map. cbn [Adapters.sources List.length].
  lia.
Qed.

Lemma tried_rounds_length (terms : list string) :
  List.length (flat_map (fun t => tried_for t Legacy.sources) terms)
  = 4 * List.length terms.
Proof.
  induction terms as [|t rest IH]; [reflexivity|].
  cbn [flat_map List.length]. rewrite length_app, IH.
  unfold tried_for. rewrite length_map. cbn [Legacy.sources List.length].
  lia.
Qed.

(** The adapter calls of a search follow a fixed schedule.  The first
    variant makes whole rounds of nine calls, one round for each of the
    first [n <= 3] variations, hence 9, 18 or 27 calls (none when the
    query is empty or the browser did not start), and all 27 when it
    falls through to the fallback pool.  The calls of the second variant
    are an initial part of the schedule that goes through its four
    variations and, for each, through its four adapters in order: never
    more than 16 calls. *)
Theorem search_calls_follow_the_schedule (query : string) :
  (forall (launches : bool)
          (run : Adapters.Source -> string -> Try (option string)) (d : N),
      exists n,
        n <= 3
        /\ snd (Search.search_video_with launches run d query)
           = flat_map started_for (firstn n (Search.variations query))
        /\ List.length (snd (Search.search_video_with launches run d query))
           = 9 * n
        /\ (query <> "" -> launches = true ->
            fst (Search.search_loop run (Search.variations query))
            = Search.Exhausted ->
            n = 3))
  /\ (forall (launches : bool)
             (run : Legacy.Source -> string -> Try (option string)),
        (exists rest,
           (snd (Legacy.search_video_with launches run query) ++ rest)%list
           = flat_map (fun t => tried_for t Legacy.sources)
                      (Legacy.variations query))
        /\ List.length (snd (Legacy.search_video_with launches run query))
           <= 16).
Proof.
  split.
  - intros launches run d. unfold Search.search_video_with.
    destruct (truthy query) eqn:Hq; cbn [negb].
    + apply truthy_true_iff in Hq.
      destruct launches; cbn [negb].
      * destruct (variations_truthy query Hq) as [Hall _].
        destruct (search_loop_rounds run _ Hall) as [n [Hn [Hcalls Hex]]].
        exists n.
        assert (Hsnd :
          snd (match Search.search_loop run (Search.variations query) with
               | (Search.Found validUrl, calls) => (json (BUrl validUrl), calls)
               | (Search.Exhausted, calls) =>
                   match Search.randomFallback d with
                   | Some u => (json (BUrl u), calls)
                   | None => (json BEmpty, calls)
                   end
               | (Search.Crashed, calls) =>
                   (json (BUrl Search.critical_fallback), calls)
               end)
          = snd (Search.search_loop run (Search.variations query))).
        { destruct (Search.search_loop run (Search.variations query))
            as [[u| |] calls]; cbn [snd]; try reflexivity.
          destruct (Search.randomFallback d); reflexivity. }
        rewrite Hsnd, Hcalls. cbn [Search.variations List.length] in Hn.
        split; [exact Hn|]. split; [reflexivity|].
        split.
        -- rewrite started_rounds_length, length_firstn.
           cbn [Search.variations List.length]. lia.
        -- intros _ _ E. apply Hex. exact E.
      * exists 0. cbn. split; [lia|]. split; [reflexivity|].
        split; [reflexivity | intros _ E; discriminate E].
    + exists 0. cbn. split; [lia|]. split; [reflexivity|].
      split; [reflexivity|]. intros E. apply truthy_false_iff in Hq.
      contradiction.
  - intros launches run.
    assert (Hsched :
      List.length (flat_map (fun t => tried_for t Legacy.sources)
                            (Legacy.variations query)) = 16)
      by (rewrite tried_rounds_length; reflexivity).
    assert (Hgoal :
      exists rest,
        (snd (Legacy.search_video_with launches run query) ++ rest)%list
        = flat_map (fun t => tried_for t Legacy.sources)
                   (Legacy.variations query)).
    { unfold Legacy.search_video_with.
      destruct (truthy query) eqn:Hq; cbn [negb];
        [|eexists; cbn [snd app]; reflexivity].
      destruct launches; cbn [negb];
        [|eexists; cbn [snd app]; reflexivity].
      apply truthy_true_iff in Hq.
      destruct (variations_truthy query Hq) as [_ Hall].
      destruct (legacy_search_loop_prefix run _ Hall) as [rest Hrest].
      exists rest.
      destruct (Legacy.search_loop run (Legacy.variations query))
        as [[u| |] calls]; exact Hrest. }
    split; [exact Hgoal|].
    destruct Hgoal as [rest Hrest].
    apply (f_equal (@List.length _)) in Hrest.
    rewrite length_app, Hsched in Hrest. lia.
Qed.

End SearchCalls.

(** ** What the resolvers answer *)

Section ResolverAnswers.
Import Http.

Lemma promise_all_In (outcomes : list (Try (option string)))
    (results : list (option string)) (r : option string) :
  Search.promise_all outcomes = Ok results -> In r results ->
  In (Ok r) outcomes.
Proof.
  revert results. induction outcomes as [|o rest IH]; intros results H Hin.
  - injection H as <-. contradiction.
  - cbn [Search.promise_all] in H. destruct o as [r0|]; [|discriminate H].
    destruct (Search.promise_all rest) as [rs|]; [|discriminate H].
    injection H as <-. destruct Hin as [->|Hin].
    + left. reflexivity.
    + right. eapply IH; [reflexivity | exact Hin].
Qed.

Lemma round_found (run : Adapters.Source -> string -> Try (option string))
    (term u : string) :
  fst (Search.round run term) = Ok (Some u) ->
  exists s, run s term = Ok (Some u).
Proof.
  unfold Search.round.
  destruct (Search.promise_all _) as [results|] eqn:Hall;
    [|discriminate].
  destruct (find Search.not_null results) as [validUrl|] eqn:Hfind;
    cbn [fst]; [|discriminate].
  intros H. injection H as ->.
  apply find_some in Hfind. destruct Hfind as [Hin _].
  apply (promise_all_In _ _ _ Hall) in Hin.
  apply in_map_iff in Hin. destruct Hin as [s [Hs _]]. exists s. exact Hs.
Qed.

Lemma search_loop_found_source
    (run : Adapters.Source -> string -> Try (option string))
    (terms : list string) (u : string) :
  fst (Search.search_loop run terms) = Search.Found u ->
  exists term s, In term terms /\ run s term = Ok (Some u).
Proof.
  induction terms as [|term rest IH]; [discriminate|].
  cbn [Search.search_loop].
  assert (Hrest : fst (Search.search_loop run rest) = Search.Found u ->
                  exists term' s, In term' (term :: rest)
                                  /\ run s term' = Ok (Some u)).
  { intros H. destruct (IH H) as [t [s [Ht Hs]]].
    exists t, s. split; [right; exact Ht | exact Hs]. }
  destruct (truthy term); cbn [negb]; [|exact Hrest].
  assert (Hround := round_found run term).
  destruct (Search.round run term) as [[validUrl|] started];
    [|discriminate].
  cbn [fst] in Hround.
  assert (Hlater :
    fst (let (r, later) := Search.search_loop run rest in
         (r, (started ++ later)%list)) = Search.Found u ->
    exists term' s, In term' (term :: rest) /\ run s term' = Ok (Some u)).
  { destruct (Search.search_loop run rest) as [r later].
    cbn [fst] in *. exact Hrest. }
  destruct validUrl as [v|]; [|exact Hlater].
  destruct (truthy v); [|exact Hlater].
  cbn [fst]. intros H. injection H as ->.
  destruct (Hround u eq_refl) as [s Hs].
  exists term, s. split; [left; reflexivity | exact Hs].
Qed.

Lemma fallbacks_pass_denylist (u : string) :
  In u Search.fallbacks -> Adapters.isWatermarked u = false.
Proof.
  intros H. repeat (destruct H as [<-|H]; [vm_compute; reflexivity|]).
  contradiction.
Qed.

(** Whatever URL the search handler of the first variant answers with
    (a candidate of an adapter, a member of the fallback pool or the
    fallback of the [catch] block) passes the denylist. *)
Theorem first_variant_answers_pass_the_denylist (b : Search.Browser)
    (query u : string) :
  data_url (fst (Search.search_video b query)) = Some u ->
  Adapters.isWatermarked u = false /\ DenylistSpec.clean u.
Proof.
  intros H.
  assert (Hw : Adapters.isWatermarked u = false).
  { unfold Search.search_video, Search.search_video_with in H.
    destruct (truthy query); cbn [negb] in H; [|discriminate H].
    assert (Hcrit : Adapters.isWatermarked Search.critical_fallback = false)
      by (vm_compute; reflexivity).
    destruct (Search.launches b); cbn [negb] in H;
      [|injection H as <-; exact Hcrit].
    assert (Hsrc := search_loop_found_source
                      (Adapters.run (Search.web b))
                      (Search.variations query)).
    destruct (Search.search_loop _ _) as [[validUrl| |] calls];
      cbn [fst] in *.
    - injection H as <-.
      destruct (Hsrc validUrl eq_refl) as [term [s [_ Hs]]].
      eapply first_variant_candidates_pass_denylist. exact Hs.
    - destruct (randomFallback_some (Search.fallback_draw b))
        as [f [Hf [Hin _]]].
      rewrite Hf in H. injection H as <-.
      apply fallbacks_pass_denylist. exact Hin.
    - injection H as <-. exact Hcrit. }
  split; [exact Hw|]. apply isWatermarked_false_clean. exact Hw.
Qed.

Lemma first_variant_answers_witness :
  Adapters.isWatermarked "https://cdn.videvo.net/clip.mp4" = false
  /\ DenylistSpec.clean "https://cdn.videvo.net/clip.mp4".
Proof.
  apply (first_variant_answers_pass_the_denylist
           (Search.mkBrowser true Samples.videvo_web 0%N) "sunset").
  vm_compute. reflexivity.
Defined.

Lemma try_in_turn_found
    (run : Legacy.Source -> string -> Try (option string))
    (term u : string) (srcs : list Legacy.Source) :
  fst (Legacy.try_in_turn run term srcs) = Ok (Some u) -> u <> "".
Proof.
  induction srcs as [|s srcs IH]; [discriminate|].
  cbn [Legacy.try_in_turn]. destruct (run s term) as [url|]; [|discriminate].
  destruct (truthy_opt url) eqn:Hu.
  - cbn [fst]. intros H. injection H as ->. apply truthy_true_iff. exact Hu.
  - destruct (Legacy.try_in_turn run term srcs) as [r later]. exact IH.
Qed.

Lemma legacy_search_loop_found
    (run : Legacy.Source -> string -> Try (option string))
    (terms : list string) (u : string) :
  fst (Legacy.search_loop run terms) = Search.Found u -> u <> "".
Proof.
  induction terms as [|term rest IH]; [discriminate|].
  cbn [Legacy.search_loop]. destruct (truthy term); cbn [negb]; [|exact IH].
  assert (Hf := fun v => try_in_turn_found run term v Legacy.sources).
  destruct (Legacy.try_in_turn run term Legacy.sources)
    as [[[url|]|] started]; cbn [fst] in *.
  - intros H. injection H as ->. eapply Hf. reflexivity.
  - destruct (Legacy.search_loop run rest) as [r later]. exact IH.
  - discriminate.
Qed.

(** The resolver of the second variant answers every non-empty query
    with a non-empty URL, which [generateSceneVideo] returns to the
    front end; when the browser does not start, or no adapter has a
    candidate for any variation, that URL is always the same fallback
    clip. *)
Theorem second_variant_resolution_is_total (launches : bool)
    (w : Legacy.Web) (query : string) :
  query <> "" ->
  exists url,
    fst (Legacy.search_video launches w query) = json (BUrl url)
    /\ url <> ""
    /\ Client.generateSceneVideo
         (fun _ => Ok (fst (Legacy.search_video launches w query)))
       = Some url
    /\ (launches = false -> url = Search.critical_fallback)
    /\ ((forall term s, In term (Legacy.variations query) ->
                        In s Legacy.sources ->
                        Legacy.run w s term = Ok None) ->
        url = Search.critical_fallback).
Proof.
  intros Hq.
  assert (Hcrit : Search.critical_fallback <> "") by discriminate.
  assert (Hshape :
    exists url,
      fst (Legacy.search_video launches w query) = json (BUrl url)
      /\ url <> ""
      /\ (launches = false -> url = Search.critical_fallback)
      /\ ((forall term s, In term (Legacy.variations query) ->
                          In s Legacy.sources ->
                          Legacy.run w s term = Ok None) ->
          url = Search.critical_fallback)).
  { unfold Legacy.search_video, Legacy.search_video_with.
    apply truthy_true_iff in Hq. rewrite Hq. cbn [negb].
    destruct launches; cbn [negb fst].
    - assert (Hf := legacy_search_loop_found (Legacy.run w)
                      (Legacy.variations query)).
      assert (Hnone :
        (forall term s, In term (Legacy.variations query) ->
                        In s Legacy.sources ->
                        Legacy.run w s term = Ok None) ->
        fst (Legacy.search_loop (Legacy.run w) (Legacy.variations query))
        = Search.Exhausted).
      { intros Hall.
        assert (E := legacy_search_loop_skips (Legacy.run w)
                       (Legacy.variations query) [] Hall).
        rewrite app_nil_r in E. rewrite E. reflexivity. }
      destruct (Legacy.search_loop (Legacy.run w) (Legacy.variations query))
        as [[u| |] calls]; cbn [fst] in *.
      + exists u. split; [reflexivity|]. split; [apply Hf; reflexivity|].
        split; [discriminate|]. intros Hall.
        specialize (Hnone Hall). discriminate Hnone.
      + exists Search.critical_fallback. auto.
      + exists Search.critical_fallback. auto.
    - exists Search.critical_fallback. auto. }
  destruct Hshape as [url [Hres [Hne [Hl Hn]]]].
  exists url. split; [exact Hres|]. split; [exact Hne|].
  split; [|split; assumption].
  unfold Client.generateSceneVideo, Client.fetchWithRetry.
  cbn [Client.fetchWithRetry_from Client.maxRetries]. rewrite Hres.
  reflexivity.
Qed.

Lemma second_variant_resolution_witness :
  exists url,
    fst (Legacy.search_video true Samples.pexels_hit "sunset")
    = json (BUrl url)
    /\ url <> ""
    /\ Client.generateSceneVideo
         (fun _ => Ok (fst (Legacy.search_video true Samples.pexels_hit
                                                "sunset")))
       = Some url
    /\ (true = false -> url = Search.critical_fallback)
    /\ ((forall term s, In term (Legacy.variations "sunset") ->
                        In s Legacy.sources ->
                        Legacy.run Samples.pexels_hit s term = Ok None) ->
        url = Search.critical_fallback).
Proof.
  apply (second_variant_resolution_is_total true Samples.pexels_hit "sunset").
  discriminate.
Defined.

End ResolverAnswers.

(** ** Clips the server makes up itself *)

Section MadeUpClips.
Import Http Classifier.

Lemma fallbacks_are_mp4 (u : string) :
  In u Search.fallbacks -> includes u ".mp4" = true.
Proof.
  intros H. repeat (destruct H as [<-|H]; [vm_compute; reflexivity|]).
  contradiction.
Qed.

Lemma string_app_assoc (a b c : string) : (a ++ b) ++ c = a ++ b ++ c.
Proof.
  induction a as [|x a IH]; [reflexivity|].
  cbn [String.append]. rewrite IH. reflexivity.
Qed.

Lemma directUrl_is_mp4 (fullHash : string) :
  includes (Legacy.directUrl fullHash) ".mp4" = true.
Proof.
  apply includes_app. unfold Legacy.directUrl.
  exists ("https://v1.pinimg.com/videos/mc/720p/"
          ++ String.substring 0 2 fullHash ++ "/"
          ++ String.substring 2 2 fullHash ++ "/"
          ++ String.substring 4 2 fullHash ++ "/" ++ fullHash), "".
  rewrite !string_app_assoc. reflexivity.
Qed.

(** The clips the server makes up itself (the members of the fallback
    pool, the fallback of the [catch] blocks, the direct URL built from
    a Pinterest hash) all contain [.mp4]: the classifier accepts their
    type whatever the content type, and judges them valid exactly when
    the HEAD request is answered with status 200. *)
Theorem made_up_clips_are_judged_by_status_alone
    (net : string -> Try HeadReply) (u : string) :
  In u Search.fallbacks \/ u = Search.critical_fallback
  \/ (exists fullHash, u = Legacy.directUrl fullHash) ->
  (forall contentType, isVideo contentType u = true)
  /\ (data_valid (verify_video net u) = true <->
      exists r, net u = Ok r /\ head_status r = 200).
Proof.
  intros H.
  assert (Hmp4 : includes u ".mp4" = true).
  { destruct H as [H|[->|[h ->]]].
    - apply fallbacks_are_mp4. exact H.
    - vm_compute. reflexivity.
    - apply directUrl_is_mp4. }
  assert (Hne : u <> "").
  { intros ->. discriminate Hmp4. }
  assert (Hv : forall contentType, isVideo contentType u = true).
  { intros c. unfold isVideo. rewrite Hmp4.
    destruct (includes c "video"); reflexivity. }
  split; [exact Hv|].
  rewrite verify_video_valid. split.
  - intros [_ [r [Hr [Hs _]]]]. exists r. auto.
  - intros [r [Hr Hs]]. split; [exact Hne|]. exists r. auto.
Qed.

Lemma made_up_clips_witness :
  (forall contentType,
      isVideo contentType (Legacy.directUrl "0123456789abcdef") = true)
  /\ (data_valid (verify_video Samples.page_host
                               (Legacy.directUrl "0123456789abcdef")) = true
      <-> exists r, Samples.page_host (Legacy.directUrl "0123456789abcdef")
                    = Ok r /\ head_status r = 200).
Proof.
  apply (made_up_clips_are_judged_by_status_alone Samples.page_host).
  right. right. exists "0123456789abcdef". reflexivity.
Defined.

End MadeUpClips.

(** ** The log of a merge job *)

Section MergeLog.
Import Http Merge MergeSpec MergeTrace.
Variable t : Tools.

Lemma fetch_audio_steps (i : nat) (a : Elem) :
  snd (fetch_audio t i a) = audio_step i a.
Proof.
  unfold fetch_audio, audio_step. destruct a as [s|]; [|reflexivity].
  destruct (startsWith s "data:"); [|reflexivity].
  destruct (base64Data s); reflexivity.
Qed.

Lemma process_scene_steps (i : nat) (v a : Elem) :
  fst (process_scene t i v a) = true ->
  snd (process_scene t i v a) = scene_steps i v a (probed t i).
Proof.
  unfold process_scene, scene_steps, probed.
  destruct (download t v (RawVideo i)); cbn [negb]; [|discriminate].
  rewrite <- (fetch_audio_steps i a).
  destruct (fetch_audio t i a) as [got steps]. cbn [snd].
  destruct got; cbn [negb]; [|discriminate].
  destruct (ffprobe t (RawAudio i)) as [d|]; [|discriminate].
  reflexivity.
Qed.

Lemma process_scene_scene (i : nat) (v a : Elem) :
  Forall (fun s => step_scene s = Some i) (snd (process_scene t i v a)).
Proof.
  unfold process_scene.
  assert (Ha : Forall (fun s => step_scene s = Some i)
                      (snd (fetch_audio t i a))).
  { rewrite fetch_audio_steps. unfold audio_step.
    destruct a as [s|]; [|constructor].
    destruct (startsWith s "data:"); repeat constructor. }
  destruct (download t v (RawVideo i)); cbn [negb];
    [|repeat constructor].
  destruct (fetch_audio t i a) as [got steps]. cbn [snd] in Ha.
  destruct got; cbn [negb]; [|constructor; [reflexivity | exact Ha]].
  destruct (ffprobe t (RawAudio i)) as [d|]; cbn [snd];
    (constructor; [reflexivity|]); apply Forall_app; split;
    try exact Ha; repeat constructor.
Qed.

Lemma scene_loop_steps (pairs : list (Elem * Elem)) :
  forall i paths,
    fst (scene_loop t i pairs) = Ok paths ->
    snd (scene_loop t i pairs) = all_scene_steps t i pairs.
Proof.
  induction pairs as [|[v a] rest IH]; intros i paths H; [reflexivity|].
  cbn [scene_loop all_scene_steps] in *.
  assert (Hs := process_scene_steps i v a).
  destruct (process_scene t i v a) as [got steps]. cbn [fst snd] in Hs.
  destruct got; [|discriminate H]. rewrite <- (Hs eq_refl).
  specialize (IH (S i)).
  destruct (scene_loop t (S i) rest) as [[ps|] later]; cbn [fst snd] in *;
    [|discriminate H].
  rewrite (IH ps eq_refl). reflexivity.
Qed.

Lemma scene_loop_stops_at (pairs : list (Elem * Elem)) :
  forall i k v a,
    nth_error pairs k = Some (v, a) ->
    ~ steps_succeed t (i + k) v a ->
    Forall (fun s => exists j, step_scene s = Some j /\ j <= i + k)
           (snd (scene_loop t i pairs)).
Proof.
  induction pairs as [|[v0 a0] rest IH]; intros i k v a Hk Hfail.
  - destruct k; discriminate Hk.
  - cbn [scene_loop].
    assert (Hown := process_scene_scene i v0 a0).
    assert (Hok := process_scene_ok t i v0 a0).
    assert (Hhere : Forall (fun s => exists j, step_scene s = Some j
                                               /\ j <= i + k)
                           (snd (process_scene t i v0 a0))).
    { eapply Forall_impl; [|exact Hown]. intros s Hs. exists i.
      split; [exact Hs | lia]. }
    destruct (process_scene t i v0 a0) as [got steps].
    cbn [fst snd] in *. destruct got; [|exact Hhere].
    destruct k as [|k].
    + cbn in Hk. injection Hk as -> ->. exfalso. apply Hfail.
      rewrite Nat.add_0_r. apply Hok. reflexivity.
    + cbn [nth_error] in Hk.
      assert (Hlater := IH (S i) k v a Hk
                          ltac:(rewrite Nat.add_succ_comm; exact Hfail)).
      rewrite Nat.add_succ_comm in Hlater.
      destruct (scene_loop t (S i) rest) as [[ps|] later]; cbn [snd] in *;
        apply Forall_app; split; assumption.
Qed.

End MergeLog.

Section MergeLogTheorems.
Import Http Merge MergeSpec MergeTrace.

(** A merge job of the audio-synced handler that publishes a URL has
    worked through the scenes in input order, and for each scene through
    download of the clip, narration (decoded or downloaded), probe and
    encoding, in that order; the concatenation comes last and gets the
    scene files in input order. *)
Theorem successful_merge_works_scene_by_scene (t : Tools)
    (videos audios : list Elem) (url : string) :
  videos <> [] -> List.length audios = List.length videos ->
  data_url (fst (merge_videos t (mkRequest (Items videos) (Items audios))))
  = Some url ->
  snd (merge_videos t (mkRequest (Items videos) (Items audios)))
  = (Mkdir (uuidv4 t)
     :: all_scene_steps t 0 (combine videos audios)
     ++ [Concat (map SceneOutput (seq 0 (List.length videos)))])%list.
Proof.
  intros Hne Hlen. rewrite (merge_videos_accepts t videos audios Hne Hlen).
  cbn [fst snd]. intros Hurl.
  apply run_job_url in Hurl. destruct Hurl as [_ [Hall Hmerge]].
  assert (Hpaths := scene_loop_ok t 0 (combine videos audios) Hall).
  assert (Hsteps := scene_loop_steps t (combine videos audios) 0).
  assert (Hcomb : List.length (combine videos audios) = List.length videos)
    by (rewrite length_combine; lia).
  rewrite Hcomb in *.
  unfold run_job.
  destruct (scene_loop t 0 (combine videos audios)) as [[paths|] steps];
    cbn [fst snd] in *; [|discriminate Hpaths].
  injection Hpaths as ->. rewrite Hmerge. cbn [snd].
  rewrite (Hsteps _ eq_refl). reflexivity.
Qed.

Lemma successful_merge_witness :
  snd (merge_videos Samples.good_tools
         (mkRequest (Items Samples.two_clips) (Items Samples.two_audios)))
  = (Mkdir (uuidv4 Samples.good_tools)
     :: all_scene_steps Samples.good_tools 0
          (combine Samples.two_clips Samples.two_audios)
     ++ [Concat (map SceneOutput
                     (seq 0 (List.length Samples.two_clips)))])%list.
Proof.
  apply (successful_merge_works_scene_by_scene Samples.good_tools
           Samples.two_clips Samples.two_audios
           (final_url (uuidv4 Samples.good_tools))).
  - discriminate.
  - reflexivity.
  - reflexivity.
Defined.

(** When a step of scene [k] fails in the audio-synced merge handler,
    the job has done no work for any later scene. *)
Theorem failed_scene_ends_the_job (t : Tools) (videos audios : list Elem)
    (k : nat) (v a : Elem) :
  videos <> [] -> List.length audios = List.length videos ->
  nth_error (combine videos audios) k = Some (v, a) ->
  ~ steps_succeed t k v a ->
  forall s j,
    In s (snd (merge_videos t (mkRequest (Items videos) (Items audios)))) ->
    step_scene s = Some j -> j <= k.
Proof.
  intros Hne Hlen Hk Hfail s j.
  rewrite (merge_videos_accepts t videos audios Hne Hlen). cbn [snd].
  assert (Hthrow := scene_loop_fails t 0 (combine videos audios) k v a
                      Hk Hfail).
  assert (Hsteps := scene_loop_stops_at t (combine videos audios) 0 k v a
                      Hk Hfail).
  unfold run_job.
  destruct (scene_loop t 0 (combine videos audios)) as [[paths|] steps];
    cbn [fst snd] in *; [discriminate Hthrow|].
  intros [<-|Hin] Hs; [discriminate Hs|].
  rewrite Forall_forall in Hsteps.
  destruct (Hsteps s Hin) as [j' [Hj' Hle]].
  assert (j = j') by congruence. lia.
Qed.

Lemma failed_scene_witness :
  ~ steps_succeed Samples.bad_probe_tools 1
      (EString "https://cdn.example.com/b.mp4")
      (EString "https://cdn.example.com/b.wav")
  /\ forall s j,
       In s (snd (merge_videos Samples.bad_probe_tools
                    (mkRequest
                       (Items (Samples.two_clips ++ Samples.two_clips))
                       (Items (Samples.two_audios
                               ++ Samples.two_audios))))) ->
       step_scene s = Some j -> j <= 1.
Proof.
  assert (Hfail : ~ steps_succeed Samples.bad_probe_tools 1
                      (EString "https://cdn.example.com/b.mp4")
                      (EString "https://cdn.example.com/b.wav")).
  { intros [_ [_ [d [Hd _]]]]. discriminate Hd. }
  split; [exact Hfail|].
  apply (failed_scene_ends_the_job Samples.bad_probe_tools
           (Samples.two_clips ++ Samples.two_clips)
           (Samples.two_audios ++ Samples.two_audios) 1
           (EString "https://cdn.example.com/b.mp4")
           (EString "https://cdn.example.com/b.wav")).
  - discriminate.
  - reflexivity.
  - reflexivity.
  - exact Hfail.
Defined.

End MergeLogTheorems.

(** ** Download attempts of the video-only merge *)

Section DownloadAttempts.
Import Http Legacy MergeSpec MergeTrace.
Variable t : Legacy.Tools.

Lemma download_attempts_log (i : nat) :
  snd (download_attempts t i 0 maxAttempts) = attempts_of t i.
Proof.
  unfold maxAttempts, attempts_of. cbn [download_attempts].
  change (maxAttempts <=? 1)%nat with false.
  change (maxAttempts <=? 2)%nat with false.
  change (maxAttempts <=? 3)%nat with true.
  destruct (download t i 1); [reflexivity|].
  destruct (download t i 2); [reflexivity|].
  destruct (download t i 3); reflexivity.
Qed.

Lemma attempts_of_own (i : nat) :
  filter (of_clip i) (attempts_of t i) = attempts_of t i.
Proof.
  unfold attempts_of, of_clip.
  destruct (download t i 1); [|destruct (download t i 2);
                                [|destruct (download t i 3)]];
    cbn [filter is_download is_skip]; rewrite ?Nat.eqb_refl;
    cbn [orb]; reflexivity.
Qed.

Lemma attempts_of_other (i j : nat) :
  i <> j -> filter (of_clip i) (attempts_of t j) = [].
Proof.
  intros Hne. apply Nat.eqb_neq in Hne. rewrite Nat.eqb_sym in Hne.
  unfold attempts_of, of_clip.
  destruct (download t j 1); [|destruct (download t j 2);
                                [|destruct (download t j 3)]];
    cbn [filter is_download is_skip]; rewrite ?Hne;
    cbn [orb]; reflexivity.
Qed.

Lemma download_all_log (n : nat) :
  forall i, snd (download_all t i n) = flat_map (attempts_of t) (seq i n).
Proof.
  induction n as [|n IH]; intros i; [reflexivity|].
  cbn [download_all seq flat_map].
  rewrite <- download_attempts_log, <- IH.
  destruct (download_attempts t i 0 maxAttempts) as [downloaded steps].
  destruct (download_all t (S i) n) as [localPaths later]. reflexivity.
Qed.

Lemma attempts_in_schedule (i : nat) (n : nat) :
  forall start,
    start <= i < start + n ->
    filter (of_clip i) (flat_map (attempts_of t) (seq start n))
    = attempts_of t i.
Proof.
  induction n as [|n IH]; intros start Hi; [lia|].
  cbn [seq flat_map]. rewrite filter_app.
  destruct (Nat.eq_dec i start) as [->|Hne].
  - rewrite attempts_of_own.
    assert (Hrest : filter (of_clip start)
                           (flat_map (attempts_of t) (seq (S start) n)) = []).
    { clear IH Hi. generalize (Nat.lt_succ_diag_r start).
      generalize (S start) as from. revert start.
      induction n as [|n IHn]; intros start from Hlt; [reflexivity|].
      cbn [seq flat_map]. rewrite filter_app, attempts_of_other by lia.
      rewrite IHn by lia. reflexivity. }
    rewrite Hrest, app_nil_r. reflexivity.
  - rewrite attempts_of_other by exact Hne. cbn [app].
    apply IH. lia.
Qed.

Lemma normalize_all_not_of_clip (i n : nat) :
  forall j, filter (of_clip i) (snd (normalize_all t j n)) = [].
Proof.
  induction n as [|n IH]; intros j; [reflexivity|].
  cbn [normalize_all]. destruct (normalize t j); [|reflexivity].
  specialize (IH (S j)).
  destruct (normalize_all t (S j) n) as [[paths|] later]; cbn [snd] in *;
    cbn [filter of_clip is_download is_skip orb]; exact IH.
Qed.

End DownloadAttempts.

Section DownloadAttemptsTheorem.
Import Http Legacy MergeSpec MergeTrace.

(** In the video-only merge handler the steps made for clip [i] are
    its download attempts, numbered from 1, up to and including the
    first that succeeds, and after a third failure the note that the
    clip is skipped; a clip is skipped exactly when all three attempts
    fail, and a clip whose first attempt succeeds is downloaded once. *)
Theorem each_clip_gets_up_to_three_downloads (t : Legacy.Tools)
    (videos : list Merge.Elem) (audios : Merge.Field) (i : nat) :
  i < List.length videos ->
  let log :=
    snd (merge_videos t (Merge.mkRequest (Merge.Items videos) audios)) in
  filter (of_clip i) log = attempts_of t i
  /\ (In (Skip i) log <-> downloaded t i = false)
  /\ (download t i 1 = true -> filter (of_clip i) log = [Download i 1]).
Proof.
  intros Hi log.
  assert (Hlog : filter (of_clip i) log = attempts_of t i).
  { subst log. unfold merge_videos. cbn [Merge.videoUrls].
    destruct (Nat.eqb_spec (List.length videos) 0) as [E|_]; [lia|].
    unfold run_job.
    assert (H1 := download_all_log t (List.length videos) 0).
    destruct (download_all t 0 (List.length videos))
      as [localPaths steps1]. cbn [snd] in H1.
    assert (Hown : filter (of_clip i) steps1 = attempts_of t i).
    { rewrite H1. apply attempts_in_schedule. lia. }
    destruct (List.length localPaths =? 0)%nat; cbn [snd filter of_clip
      is_download is_skip orb]; [exact Hown|].
    assert (H2 := normalize_all_not_of_clip t i (List.length localPaths) 0).
    destruct (normalize_all t 0 (List.length localPaths))
      as [[paths|] steps2]; cbn [snd] in *.
    - destruct (mergeToFile t paths); cbn [snd filter of_clip is_download
        is_skip orb]; rewrite !filter_app, Hown, H2; cbn [filter of_clip
        is_download is_skip orb]; rewrite !app_nil_r; reflexivity.
    - cbn [filter of_clip is_download is_skip orb].
      rewrite !filter_app, Hown, H2, app_nil_r. reflexivity. }
  split; [exact Hlog|]. split.
  - assert (Hskip : In (Skip i) log <-> In (Skip i) (filter (of_clip i) log)).
    { rewrite filter_In. unfold of_clip. cbn [is_download is_skip].
      rewrite Nat.eqb_refl. cbn [orb]. tauto. }
    rewrite Hskip, Hlog. unfold attempts_of, downloaded.
    destruct (download t i 1); [|destruct (download t i 2);
                                  [|destruct (download t i 3)]];
      cbn [orb In]; split; intros H; try discriminate H;
      try reflexivity;
      repeat (destruct H as [H|H]; try discriminate H); try contradiction.
    auto.
  - intros Hfirst. rewrite Hlog. unfold attempts_of. rewrite Hfirst.
    reflexivity.
Qed.

Lemma each_clip_downloads_witness :
  filter (of_clip 1)
         (snd (merge_videos Samples.legacy_tools
                 (Merge.mkRequest (Merge.Items Samples.two_clips)
                                  Merge.Absent)))
  = [Download 1 1; Download 1 2; Download 1 3; Skip 1]
  /\ (In (Skip 1)
         (snd (merge_videos Samples.legacy_tools
                 (Merge.mkRequest (Merge.Items Samples.two_clips)
                                  Merge.Absent)))
      <-> downloaded Samples.legacy_tools 1 = false)
  /\ (download Samples.legacy_tools 1 1 = true ->
      filter (of_clip 1)
             (snd (merge_videos Samples.legacy_tools
                     (Merge.mkRequest (Merge.Items Samples.two_clips)
                                      Merge.Absent)))
      = [Download 1 1]).
Proof.
  apply (each_clip_gets_up_to_three_downloads Samples.legacy_tools
           Samples.two_clips Merge.Absent 1).
  cbn. lia.
Defined.

End DownloadAttemptsTheorem.

(** ** Editing a scene *)

Section EditingFacts.
Import App Trace Editing.

(** [handleRegenerateScene] makes one resolve call, with the prompt of
    the scene at the index, and no verification; a non-empty answer
    becomes the clip of that scene object, any other answer leaves it as
    it is, and no other scene object changes.  An index beyond the
    scenes does nothing. *)
Theorem regeneration_touches_one_scene (sv : Services) (store : Store)
    (scenes : list Ref) (index : nat) (w : World) :
  let run := handleRegenerateScene sv store (Some scenes) index w in
  (forall r,
      nth_error scenes index = Some r ->
      let prompt := imagePrompt (store r) in
      let answer := generateSceneVideo sv (resolves w) prompt in
      log (snd run) = (log w ++ [Resolve index prompt answer])%list
      /\ fst run r = recovered (store r) answer
      /\ (forall r', r' <> r -> fst run r' = store r'))
  /\ (nth_error scenes index = None -> run = (store, w)).
Proof.
  intros run. subst run. unfold handleRegenerateScene. split.
  - intros r Hr. cbv zeta. rewrite Hr.
    unfold bind, call_generateSceneVideo, ret, recovered, write.
    destruct w as [nr nv lg]. cbn [resolves log].
    destruct (generateSceneVideo sv nr (imagePrompt (store r))) as [url|];
      [destruct (truthy url)|]; cbn [fst snd log];
      (split; [reflexivity|]); rewrite ?Nat.eqb_refl;
      (split; [reflexivity|]); intros r' Hne; try reflexivity.
    apply Nat.eqb_neq in Hne. rewrite Hne. reflexivity.
  - intros Hnone. rewrite Hnone. reflexivity.
Qed.

(** [handleUpdateKeywords] writes the edited keywords into the scene
    object before the regeneration it starts reads the prompt from the
    same object: the one resolve call is made with the edited keywords.
    The edit stays whatever the call answers; when the call answers with
    no URL the scene keeps its earlier clip beside the new keywords.  No
    other scene object changes; an index beyond the scenes raises an
    error nobody catches and changes nothing. *)
Theorem keyword_edit_searches_with_the_new_keywords (sv : Services)
    (store : Store) (scenes : list Ref) (index : nat) (keywords : string)
    (w : World) :
  let run := handleUpdateKeywords sv store (Some scenes) index keywords w in
  (forall r,
      nth_error scenes index = Some r ->
      let answer := generateSceneVideo sv (resolves w) keywords in
      log (snd run) = (log w ++ [Resolve index keywords answer])%list
      /\ snd (fst run) = Returned
      /\ imagePrompt (fst (fst run) r) = keywords
      /\ videoUrl (fst (fst run) r)
         = videoUrl (recovered (store r) answer)
      /\ (forall r', r' <> r -> fst (fst run) r' = store r'))
  /\ (nth_error scenes index = None -> run = ((store, Uncaught), w)).
Proof.
  intros run. subst run. unfold handleUpdateKeywords. split.
  - intros r Hr. cbv zeta. rewrite Hr.
    unfold handleRegenerateScene. rewrite Hr.
    unfold bind, call_generateSceneVideo, ret, recovered, write,
      with_imagePrompt, with_videoUrl.
    destruct w as [nr nv lg]. cbn [resolves log].
    rewrite Nat.eqb_refl. cbn [imagePrompt].
    destruct (generateSceneVideo sv nr keywords) as [url|];
      [destruct (truthy url)|]; cbn [fst snd log];
      rewrite ?Nat.eqb_refl; cbn [imagePrompt videoUrl];
      (split; [reflexivity|]); (split; [reflexivity|]);
      (split; [reflexivity|]); (split; [reflexivity|]);
      intros r' Hne; apply Nat.eqb_neq in Hne; rewrite ?Hne; reflexivity.
  - intros Hnone. rewrite Hnone. reflexivity.
Qed.

End EditingFacts.

(** ** What an export hands to the merge *)

Section MergeCallFacts.
Import Http App Trace AppTrace.

Lemma finalUrls_truthy (scenes : list Scene) :
  Forall (fun u => u <> "") (finalUrls scenes).
Proof.
  unfold finalUrls. induction scenes as [|s rest IH]; [constructor|].
  cbn [map filter]. destruct (videoUrl s) as [u|]; cbn [truthy_opt];
    [|exact IH].
  destruct (truthy u) eqn:Hu; [|exact IH].
  cbn [strings]. constructor; [|exact IH].
  apply truthy_true_iff. exact Hu.
Qed.

Lemma legacy_merge_accepts (t : Legacy.Tools) (videos : list Merge.Elem)
    (audios : Merge.Field) :
  videos <> [] ->
  status (fst (Legacy.merge_videos t
                 (Merge.mkRequest (Merge.Items videos) audios))) <> 400.
Proof.
  intros Hne. unfold Legacy.merge_videos. cbn [Merge.videoUrls].
  destruct (Nat.eqb_spec (List.length videos) 0) as [E|_].
  - apply length_zero_iff_nil in E. contradiction.
  - unfold Legacy.run_job.
    destruct (Legacy.download_all t 0 (List.length videos))
      as [localPaths steps1].
    destruct (List.length localPaths =? 0)%nat; [discriminate|].
    destruct (Legacy.normalize_all t 0 (List.length localPaths))
      as [[paths|] steps2]; [|discriminate].
    destruct (Legacy.mergeToFile t paths); discriminate.
Qed.

(** Whenever an export calls [mergeVideos], the list it passes is the
    list of the non-empty clip URLs of the scenes after the recheck, in
    scene order: it is not empty, holds no empty URL and has at most as
    many members as there are scenes; the video-only merge handler
    therefore never rejects it with status 400. *)
Theorem merge_is_called_with_clips_only (sv : Services)
    (scenes : list Scene) (urls : list string) (answer : option string) :
  let run := handleExport sv (Some scenes) start in
  In (MergeCall urls answer) (log (snd run)) ->
  urls = finalUrls (fst (fst run))
  /\ urls <> []
  /\ Forall (fun u => u <> "") urls
  /\ List.length urls <= List.length scenes
  /\ answer = mergeVideos sv urls
  /\ (forall (t : Legacy.Tools) (audios : Merge.Field),
        status (fst (Legacy.merge_videos t
                       (Merge.mkRequest
                          (Merge.Items (map Merge.EString urls)) audios)))
        <> 400).
Proof.
  intros run. subst run. rewrite handleExport_run. cbn [fst snd].
  destruct (for_scenes_only_calls sv scenes 0 start) as [evs [Hlog Hcalls]].
  destruct (for_scenes_events (recheck_scene sv) (recheck_scene_local sv)
              scenes 0 start) as [_ [_ [Hlen _]]].
  assert (Hnm := calls_no_merge evs Hcalls).
  destruct (for_scenes (recheck_scene sv) 0 scenes start) as [updated w1].
  cbn [fst snd] in *. cbn [log start app] in Hlog.
  intros Hin.
  assert (Hfacts : urls = finalUrls updated /\ urls <> []
                   /\ answer = mergeVideos sv urls).
  { destruct (export_gate_cases sv updated w1)
      as [[Hv Hg] | [[Hv [Hc Hg]] | [[Hv [Hc Hg]] | [Hv [Ht Hg]]]]];
      rewrite Hg in Hin; cbn [snd log] in Hin; rewrite Hlog in Hin;
      apply in_app_or in Hin; destruct Hin as [Hin|Hin];
      try (exfalso; eapply Hnm; exact Hin);
      cbn [In] in Hin;
      repeat (destruct Hin as [Hin|Hin]; try discriminate Hin);
      try contradiction;
      injection Hin as <- <-;
      (split; [reflexivity|]); (split; [|reflexivity]);
      intros E; rewrite E in Hv; cbn in Hv; lia. }
  destruct Hfacts as [-> [Hne ->]].
  split; [reflexivity|]. split; [exact Hne|].
  split; [apply finalUrls_truthy|].
  split; [rewrite <- Hlen; apply finalUrls_length|].
  split; [reflexivity|].
  intros t audios. apply legacy_merge_accepts.
  destruct (finalUrls updated); [contradiction | discriminate].
Qed.

Lemma merge_call_witness :
  [ "https://cdn.example.com/stale.mp4" ]
  = finalUrls (fst (fst (handleExport MoreSamples.echo_services
                           (Some [Samples.stale_scene]) start)))
  /\ [ "https://cdn.example.com/stale.mp4" ] <> []
  /\ Forall (fun u => u <> "") [ "https://cdn.example.com/stale.mp4" ]
  /\ List.length [ "https://cdn.example.com/stale.mp4" ]
     <= List.length [Samples.stale_scene]
  /\ None = mergeVideos MoreSamples.echo_services
                        [ "https://cdn.example.com/stale.mp4" ]
  /\ (forall (t : Legacy.Tools) (audios : Merge.Field),
        status (fst (Legacy.merge_videos t
                       (Merge.mkRequest
                          (Merge.Items
                             (map Merge.EString
                                  [ "https://cdn.example.com/stale.mp4" ]))
                          audios)))
        <> 400).
Proof.
  apply (merge_is_called_with_clips_only MoreSamples.echo_services
           [Samples.stale_scene] [ "https://cdn.example.com/stale.mp4" ]
           None).
  cbn. right. left. reflexivity.
Defined.

End MergeCallFacts.

(** ** Pauses between the resolve calls of a generation *)

Section Pacing.
Import App Trace AppTrace.

Lemma paced_mono (evs : list Event) :
  paced false evs = true -> paced true evs = true.
Proof.
  destruct evs as [|e rest]; [reflexivity|].
  destruct e; cbn [paced andb]; try (intros H; exact H). discriminate.
Qed.

Lemma paced_app (a b : list Event) :
  forall rested,
    paced rested a = true -> paced false b = true ->
    paced rested (a ++ b) = true.
Proof.
  induction a as [|e a IH]; intros rested Ha Hb.
  - cbn [app]. destruct rested; [apply paced_mono|]; exact Hb.
  - cbn [app]. destruct e; cbn [paced] in *; try (apply IH; assumption).
    apply andb_true_iff in Ha. destruct Ha as [-> Ha]. cbn [andb].
    apply IH; assumption.
Qed.

Lemma paced_before_resolve (pre post : list Event) (i : nat) (p : string)
    (a : option string) :
  forall rested,
    paced rested (pre ++ Resolve i p a :: post) = true ->
    (pre = [] /\ rested = true)
    \/ exists pre' ms, pre = (pre' ++ [Delay ms])%list.
Proof.
  induction pre as [|e pre IH]; intros rested H.
  - left. cbn [app paced] in H. apply andb_true_iff in H.
    destruct H as [H _]. auto.
  - right. cbn [app] in H.
    assert (Hcase : exists rested',
               paced rested' (pre ++ Resolve i p a :: post) = true
               /\ (rested' = true -> exists ms, e = Delay ms)).
    { destruct e; cbn [paced] in H;
        try (exists false; split; [exact H | discriminate]).
      - exists true. split; [exact H|]. intros _. eexists. reflexivity.
      - apply andb_true_iff in H. destruct H as [_ H].
        exists false. split; [exact H | discriminate]. }
    destruct Hcase as [rested' [Hp Hd]].
    destruct (IH rested' Hp) as [[-> Hr] | [pre' [ms ->]]].
    + destruct (Hd Hr) as [ms ->]. exists [], ms. reflexivity.
    + exists (e :: pre'), ms. reflexivity.
Qed.

Lemma delays_app (a b : list Event) :
  delays (a ++ b) = delays a + delays b.
Proof. unfold delays. rewrite filter_app, length_app. reflexivity. Qed.

Lemma resolve_calls_app (a b : list Event) :
  resolve_calls (a ++ b) = resolve_calls a + resolve_calls b.
Proof. unfold resolve_calls. rewrite filter_app, length_app. reflexivity. Qed.

Variable sv : Services.

Lemma generate_scene_paced (i : nat) (scene : Scene) (w : World) :
  exists evs,
    log (snd (generate_scene sv i scene w)) = (log w ++ evs)%list
    /\ paced (i =? 0)%nat evs = true
    /\ Forall standard_delay evs
    /\ delays evs + (if (i =? 0)%nat then 1 else 0) = resolve_calls evs.
Proof.
  unfold generate_scene, maxAttempts.
  destruct w as [nr nv lg].
  destruct i as [|i']; cbn; split_calls sv.
  all: log_tail.
  all: split; [reflexivity|].
  all: split;
    [ repeat (apply Forall_cons;
              [intros ms Hms; try discriminate Hms;
               injection Hms as <-; reflexivity |]);
      apply Forall_nil
    | reflexivity ].
Qed.

Lemma generation_paced (scenes : list Scene) :
  forall i w,
  exists evs,
    log (snd (for_scenes (generate_scene sv) i scenes w))
    = (log w ++ evs)%list
    /\ paced (i =? 0)%nat evs = true
    /\ Forall standard_delay evs
    /\ (scenes = [] -> evs = [])
    /\ (scenes <> [] ->
        delays evs + (if (i =? 0)%nat then 1 else 0) = resolve_calls evs).
Proof.
  induction scenes as [|scene rest IH]; intros i w.
  - exists []. cbn. rewrite app_nil_r.
    split; [reflexivity|]. split; [reflexivity|]. split; [constructor|].
    split; [reflexivity|]. intros H. contradiction.
  - cbn [for_scenes]. unfold bind.
    destruct (generate_scene_paced i scene w)
      as [evs0 [Hlog0 [Hp0 [Hd0 Hc0]]]].
    destruct (generate_scene sv i scene w) as [scene' w1].
    destruct (IH (S i) w1) as [evs1 [Hlog1 [Hp1 [Hd1 [Hnil Hc1]]]]].
    destruct (for_scenes (generate_scene sv) (S i) rest w1) as [rest' w2].
    cbn [fst snd] in *. unfold ret. cbn [snd].
    exists (evs0 ++ evs1)%list.
    split; [rewrite Hlog1, Hlog0, app_assoc; reflexivity|].
    split; [apply paced_app; assumption|].
    split; [apply Forall_app; split; assumption|].
    split; [discriminate|]. intros _.
    rewrite delays_app, resolve_calls_app.
    destruct rest as [|next rest].
    + rewrite (Hnil eq_refl). cbn [delays resolve_calls filter List.length].
      lia.
    + assert (H1 := Hc1 ltac:(discriminate)). cbn [Nat.eqb] in H1. lia.
Qed.

End Pacing.

Section PacingTheorem.
Import App Trace AppTrace.

(** During generation every resolve call except the very first one of
    the run comes right after a pause of 2000 ms, so a run with at least
    one scene pauses once less than it calls the resolver. *)
Theorem generation_pauses_before_every_later_resolve (sv : Services)
    (script : list ScriptScene) :
  let events := log (snd (handleGenerate sv (Ok script) start)) in
  (forall pre i p a post,
      events = (pre ++ Resolve i p a :: post)%list ->
      pre = [] \/ exists pre', pre = (pre' ++ [Delay 2000])%list)
  /\ (script <> [] -> delays events + 1 = resolve_calls events).
Proof.
  intros events. subst events. unfold handleGenerate.
  destruct (generation_paced sv (map scene_of_script script) 0 start)
    as [evs [Hlog [Hp [Hd [_ Hc]]]]].
  cbn [log start app] in Hlog. rewrite Hlog. cbn [Nat.eqb] in *.
  split.
  - intros pre i p a post E. rewrite E in Hp, Hd.
    destruct (paced_before_resolve pre post i p a true Hp)
      as [[-> _] | [pre' [ms ->]]]; [left; reflexivity|].
    right. exists pre'.
    rewrite Forall_forall in Hd.
    assert (Hms : ms = 2000).
    { apply (Hd (Delay ms)); [|reflexivity].
      apply in_or_app. left. apply in_or_app. right. left. reflexivity. }
    rewrite Hms. reflexivity.
  - intros Hne. apply Hc. destruct script; [contradiction | discriminate].
Qed.

End PacingTheorem.

(** ** Export of a project whose clips are all in order *)

Section HealthyExport.
Import App Trace AppTrace.

Lemma recheck_of_valid_clips (sv : Services) (scenes : list Scene) :
  forall i w,
    holds_valid_clip sv (verifies w) scenes ->
    for_scenes (recheck_scene sv) i scenes w
    = (scenes,
       mkWorld (resolves w) (verifies w + List.length scenes)
               (log w ++ passed_checks i scenes)).
Proof.
  induction scenes as [|scene rest IH]; intros i w H.
  - destruct w as [nr nv lg]. cbn. rewrite Nat.add_0_r, app_nil_r.
    reflexivity.
  - destruct (H 0 scene eq_refl) as [u [Hu [Hne Hv]]].
    rewrite Nat.add_0_r in Hv. apply truthy_true_iff in Hne.
    cbn [for_scenes passed_checks]. unfold bind at 1.
    assert (Hbody : recheck_scene sv i scene w
                    = (scene, mkWorld (resolves w) (S (verifies w))
                                (log w ++ [Verify i u true]))).
    { unfold recheck_scene, bind, call_verifyVideo, ret.
      rewrite Hu, Hne, Hv. reflexivity. }
    rewrite Hbody. unfold bind, ret.
    rewrite IH.
    + cbn [resolves verifies log List.length]. rewrite Hu.
      rewrite <- app_assoc. cbn [app].
      rewrite Nat.add_succ_r. reflexivity.
    + intros k s Hk. cbn [verifies].
      destruct (H (S k) s Hk) as [u' [Hu' [Hne' Hv']]].
      exists u'. rewrite Nat.add_succ_r in Hv'. auto.
Qed.

Lemma finalUrls_of_valid_clips (sv : Services) (offset : nat)
    (scenes : list Scene) :
  holds_valid_clip sv offset scenes ->
  List.length (finalUrls scenes) = List.length scenes.
Proof.
  revert offset. unfold finalUrls.
  induction scenes as [|scene rest IH]; intros offset H; [reflexivity|].
  destruct (H 0 scene eq_refl) as [u [Hu [Hne _]]].
  apply truthy_true_iff in Hne.
  cbn [map filter]. rewrite Hu. cbn [truthy_opt]. rewrite Hne.
  cbn [strings List.length]. f_equal. apply (IH (S offset)).
  intros k s Hk. destruct (H (S k) s Hk) as [u' [Hu' [Hne' Hv']]].
  exists u'. rewrite Nat.add_succ_r in Hv'. auto.
Qed.

(** Exporting a project in which every scene holds a clip that passes
    its check verifies each clip once, in scene order, makes no resolve
    call, asks for no confirmation, leaves the scenes as they are and
    calls [mergeVideos] once with all the clips. *)
Theorem export_of_valid_clips_only_checks_and_merges (sv : Services)
    (scenes : list Scene) :
  scenes <> [] ->
  holds_valid_clip sv 0 scenes ->
  let urls := finalUrls scenes in
  handleExport sv (Some scenes) start
  = ((scenes, Merged (mergeVideos sv urls)),
     mkWorld 0 (List.length scenes)
             (passed_checks 0 scenes
              ++ [MergeCall urls (mergeVideos sv urls)]))
  /\ List.length urls = List.length scenes
  /\ verify_calls (passed_checks 0 scenes) = List.length scenes
  /\ resolve_calls (passed_checks 0 scenes) = 0.
Proof.
  intros Hne H urls. subst urls.
  assert (Hlen := finalUrls_of_valid_clips sv 0 scenes H).
  split; [|split; [exact Hlen|]].
  - rewrite handleExport_run.
    rewrite (recheck_of_valid_clips sv scenes 0 start H).
    cbn [fst snd start resolves verifies log app Nat.add].
    destruct (export_gate_cases sv scenes
                (mkWorld 0 (List.length scenes) (passed_checks 0 scenes)))
      as [[Hv Hg] | [[Hv [Hc Hg]] | [[Hv [Hc Hg]] | [Hv [Ht Hg]]]]];
      try (exfalso; destruct scenes; [contradiction | cbn in *; lia]).
    rewrite Hg. reflexivity.
  - assert (Hchecks : forall i offset,
              holds_valid_clip sv offset scenes ->
              verify_calls (passed_checks i scenes) = List.length scenes
              /\ resolve_calls (passed_checks i scenes) = 0).
    { clear. induction scenes as [|scene rest IH]; intros i offset H.
      - split; reflexivity.
      - destruct (H 0 scene eq_refl) as [u [Hu _]].
        cbn [passed_checks]. rewrite Hu.
        destruct (IH (S i) (S offset)) as [Hv Hr].
        + intros k s Hk. destruct (H (S k) s Hk) as [u' [Hu' [Hne' Hv']]].
          exists u'. rewrite Nat.add_succ_r in Hv'. auto.
        + unfold verify_calls, resolve_calls in *.
          cbn [filter is_verify is_resolve List.length].
          rewrite Hv, Hr. split; reflexivity. }
    apply (Hchecks 0 0 H).
Qed.

Lemma export_of_valid_clips_witness :
  handleExport MoreSamples.echo_services (Some [Samples.stale_scene]) start
  = (([Samples.stale_scene], Merged None),
     mkWorld 0 1
       [Verify 0 "https://cdn.example.com/stale.mp4" true;
        MergeCall ["https://cdn.example.com/stale.mp4"] None])
  /\ List.length (finalUrls [Samples.stale_scene]) = 1
  /\ verify_calls (passed_checks 0 [Samples.stale_scene]) = 1
  /\ resolve_calls (passed_checks 0 [Samples.stale_scene]) = 0.
Proof.
  apply (export_of_valid_clips_only_checks_and_merges
           MoreSamples.echo_services [Samples.stale_scene]).
  - discriminate.
  - intros k scene Hk. destruct k as [|k]; [|destruct k; discriminate Hk].
    injection Hk as <-.
    exists "https://cdn.example.com/stale.mp4".
    split; [reflexivity|]. split; [discriminate | reflexivity].
Defined.

End HealthyExport.
